(** * Estoque: a CRUD service over an XML file (src/app.py)

    The service keeps a list of devices ("aparelhos") in one XML file and
    re-reads / re-writes the whole file on every request.  This development
    embeds

    - the Python values, dictionaries and exceptions the code manipulates,
    - the part of [xml.etree.ElementTree] the code calls ([Element],
      [SubElement], [indent], [ElementTree.write], [parse], [find],
      [findall]),
    - the two persistence helpers and the six endpoints of [src/app.py],

    and proves the properties of the persistence and catalogue layer.

    Conventions.  A Python [str] is represented by the bytes of its UTF-8
    encoding (a Rocq [string]; a [str] with a lone surrogate has no such
    encoding and is not represented); the file is the byte string stored
    at [ARQUIVO_ESTOQUE], or nothing when the file does not exist.  Writing
    the file always succeeds (an unavailable storage medium is not
    modelled).  A Python [int] is an integer of any size; the limit that
    Python puts by default on the number of digits converted between
    [int] and [str] (4300) is not modelled.  The transport layer (FastAPI
    routing, request validation, response models) is outside the
    embedding: an endpoint is the Python function under the decorator. *)

From Stdlib Require Import ZArith String Ascii List Bool Lia.
From Stdlib Require Import Decimal DecimalZ DecimalString.
Import ListNotations.

Local Open Scope string_scope.
Local Open Scope Z_scope.

Set Warnings "-register-all".

(** * Exceptions and results *)

(** The exceptions that can leave the functions of [src/app.py].
    [Unmodelled] is not a Python exception: it marks an input on which this
    embedding does not say what the XML library does (see [ET.parse]). *)
Inductive exn : Type :=
| ParseError
| AttributeError
| TypeError
| ValueError
| KeyError
| HTTPException (status_code : Z) (detail : string)
| Unmodelled.

Inductive res (A : Type) : Type :=
| Ok (a : A)
| Raise (e : exn).

Arguments Ok {A} a.
Arguments Raise {A} e.

Definition res_bind {A B} (r : res A) (k : A -> res B) : res B :=
  match r with
  | Ok a => k a
  | Raise e => Raise e
  end.

Declare Scope res_scope.
Delimit Scope res_scope with res.
Notation "x <- r ;; k" := (res_bind r (fun x => k))
  (at level 61, r at next level, right associativity) : res_scope.

(** * Characters and strings *)

Definition byte_of (c : ascii) : N := N_of_ascii c.

Definition LF : ascii := ascii_of_N 10.
Definition CR : ascii := ascii_of_N 13.
Definition TAB : ascii := ascii_of_N 9.

(** [str.isspace] on the ASCII range: TAB, LF, VT, FF, CR, the four
    separators 28-31 and the space. *)
Definition py_isspace (c : ascii) : bool :=
  let n := byte_of c in
  ((9 <=? n) && (n <=? 13) || (28 <=? n) && (n <=? 32))%N.

Fixpoint lstrip_by (space : ascii -> bool) (s : string) : string :=
  match s with
  | String c r => if space c then lstrip_by space r else s
  | EmptyString => EmptyString
  end.

Fixpoint string_rev_onto (s acc : string) : string :=
  match s with
  | EmptyString => acc
  | String c r => string_rev_onto r (String c acc)
  end.

Definition string_rev (s : string) : string := string_rev_onto s "".

Definition rstrip_by (space : ascii -> bool) (s : string) : string :=
  string_rev (lstrip_by space (string_rev s)).

Definition strip_by (space : ascii -> bool) (s : string) : string :=
  rstrip_by space (lstrip_by space s).

(** [s.strip()], for the whitespace of the ASCII range (the program calls
    it, through [ET.indent], on texts that are [None] only). *)
Definition strip (s : string) : string := strip_by py_isspace s.

Fixpoint string_forallb (p : ascii -> bool) (s : string) : bool :=
  match s with
  | EmptyString => true
  | String c r => p c && string_forallb p r
  end.

Fixpoint repeat_string (s : string) (n : nat) : string :=
  match n with
  | O => ""
  | S m => s ++ repeat_string s m
  end.

(** ** UTF-8 *)

(** Where a reader of UTF-8 stands: between two characters, or inside the
    encoding of one.  [Tail k] waits for [k] more continuation bytes; the
    other states come after a first byte whose second byte is restricted
    (no overlong form, no surrogate, nothing above U+10FFFF), and
    [AfterEFBF] excludes U+FFFE and U+FFFF, which XML does not allow. *)
Inductive utf8_state : Type :=
| Between
| Tail (k : nat)
| AfterE0
| AfterED
| AfterEF
| AfterEFBF
| AfterF0
| AfterF4.

Definition within (lo hi b : N) : bool := ((lo <=? b) && (b <=? hi))%N.

Definition utf8_step (st : utf8_state) (c : ascii) : option utf8_state :=
  let b := byte_of c in
  let continue (lo hi : N) (next : utf8_state) :=
    if within lo hi b then Some next else None in
  match st with
  | Between =>
      if (b <? 128)%N then Some Between
      else if within 194 223 b then Some (Tail 1)
      else if (b =? 224)%N then Some AfterE0
      else if within 225 236 b then Some (Tail 2)
      else if (b =? 237)%N then Some AfterED
      else if (b =? 238)%N then Some (Tail 2)
      else if (b =? 239)%N then Some AfterEF
      else if (b =? 240)%N then Some AfterF0
      else if within 241 243 b then Some (Tail 3)
      else if (b =? 244)%N then Some AfterF4
      else None
  | Tail (S (S k)) => continue 128%N 191%N (Tail (S k))
  | Tail _ => continue 128%N 191%N Between
  | AfterE0 => continue 160%N 191%N (Tail 1)
  | AfterED => continue 128%N 159%N (Tail 1)
  | AfterEF =>
      if (b =? 191)%N then Some AfterEFBF else continue 128%N 190%N (Tail 1)
  | AfterEFBF => continue 128%N 189%N Between
  | AfterF0 => continue 144%N 191%N (Tail 2)
  | AfterF4 => continue 128%N 143%N (Tail 2)
  end.

Fixpoint utf8_run (st : utf8_state) (s : string) : option utf8_state :=
  match s with
  | EmptyString => Some st
  | String c r =>
      match utf8_step st c with
      | Some st' => utf8_run st' r
      | None => None
      end
  end.

(** The bytes are the UTF-8 encoding of a sequence of characters none of
    which is a surrogate, U+FFFE or U+FFFF. *)
Definition utf8_ok (s : string) : bool :=
  match utf8_run Between s with
  | Some Between => true
  | _ => false
  end.

(** A byte above the ASCII range: [128 + n], for [n] below 128. *)
Definition high (n : N) : ascii := ascii_of_N (128 + n mod 128).

(** The UTF-8 encoding of the character [cp]. *)
Definition utf8_encode (cp : N) : string :=
  (if cp <? 128 then String (ascii_of_N cp) ""
   else if cp <? 2048 then
     String (high (64 + cp / 64)) (String (high (cp mod 64)) "")
   else if cp <? 65536 then
     String (high (96 + cp / 4096))
       (String (high (cp / 64 mod 64)) (String (high (cp mod 64)) ""))
   else
     String (high (112 + cp / 262144))
       (String (high (cp / 4096 mod 64))
          (String (high (cp / 64 mod 64)) (String (high (cp mod 64)) ""))))%N.

(** * Python integers and their text form *)

(** [str(n)] for an [int]: the decimal digits, with a leading [-] for a
    negative number. *)
Definition str_int (n : Z) : string := NilZero.string_of_int (Z.to_int n).

Definition is_digit (c : ascii) : bool :=
  let n := byte_of c in ((48 <=? n) && (n <=? 57))%N.

Definition underscore : ascii := "_"%char.

(** The digit part of an integer literal given to [int()]: digits, a single
    underscore allowed between two digits.  [prev] says that the previous
    character was a digit. *)
Fixpoint digits_ok (prev : bool) (s : string) : bool :=
  match s with
  | EmptyString => prev
  | String c r =>
      if is_digit c then digits_ok true r
      else if Ascii.eqb c underscore then prev && digits_ok false r
      else false
  end.

Fixpoint drop_underscores (s : string) : string :=
  match s with
  | EmptyString => EmptyString
  | String c r =>
      if Ascii.eqb c underscore then drop_underscores r
      else String c (drop_underscores r)
  end.

Definition int_of_digits (s : string) : res Z :=
  if digits_ok false s then
    match NilZero.uint_of_string (drop_underscores s) with
    | Some u => Ok (Z.of_uint u)
    | None => Raise ValueError
    end
  else Raise ValueError.

(** An optional sign and a digit part. *)
Definition int_of_signed (t : string) : res Z :=
  match t with
  | EmptyString => Raise ValueError
  | String c r =>
      if Ascii.eqb c "-" then (n <- int_of_digits r ;; Ok (- n))%res
      else if Ascii.eqb c "+" then int_of_digits r
      else int_of_digits (String c r)
  end.

(** [Py_ISSPACE]: the whitespace that [int()] drops around an ASCII
    text. *)
Definition c_isspace (c : ascii) : bool :=
  let n := byte_of c in ((9 <=? n) && (n <=? 13) || (n =? 32))%N.

(** [Py_UNICODE_ISSPACE] above the ASCII range. *)
Definition unicode_space (cp : N) : bool :=
  ((cp =? 133) || (cp =? 160) || (cp =? 5760)
   || (8192 <=? cp) && (cp <=? 8202)
   || (cp =? 8232) || (cp =? 8233) || (cp =? 8239) || (cp =? 8287)
   || (cp =? 12288))%N.

(** The first character of each run of ten decimal digits above the ASCII
    range (general category Nd of Unicode 14, the tables of Python 3.11). *)
Definition decimal_runs : list N :=
  [ 0x0660; 0x06F0; 0x07C0; 0x0966; 0x09E6; 0x0A66; 0x0AE6; 0x0B66; 0x0BE6;
    0x0C66; 0x0CE6; 0x0D66; 0x0DE6; 0x0E50; 0x0ED0; 0x0F20; 0x1040; 0x1090;
    0x17E0; 0x1810; 0x1946; 0x19D0; 0x1A80; 0x1A90; 0x1B50; 0x1BB0; 0x1C40;
    0x1C50; 0xA620; 0xA8D0; 0xA900; 0xA9D0; 0xA9F0; 0xAA50; 0xABF0; 0xFF10;
    0x104A0; 0x10D30; 0x11066; 0x110F0; 0x11136; 0x111D0; 0x112F0; 0x11450;
    0x114D0; 0x11650; 0x116C0; 0x11730; 0x118E0; 0x11950; 0x11C50; 0x11D50;
    0x11DA0; 0x16A60; 0x16AC0; 0x16B50; 0x1D7CE; 0x1D7D8; 0x1D7E2; 0x1D7EC;
    0x1D7F6; 0x1E140; 0x1E2F0; 0x1E950; 0x1FBF0 ]%N.

(** [Py_UNICODE_TODECIMAL] above the ASCII range. *)
Definition unicode_decimal (cp : N) : option N :=
  match List.find (fun b => (b <=? cp) && (cp <? b + 10))%N decimal_runs with
  | Some b => Some (cp - b)%N
  | None => None
  end.

(** [_PyUnicode_TransformDecimalAndSpaceToASCII]: what [int()] does to its
    text first.  A character below 127 is kept, a Unicode space becomes a
    space, a Unicode decimal digit becomes the ASCII digit of its value,
    and the text is cut with a question mark at any other character.
    [pending] is the character being decoded from its UTF-8 bytes: the
    bits read so far and the number of bytes still to come after the next
    one. *)
Fixpoint to_ascii (pending : option (N * nat)) (s : string) : string :=
  match s with
  | EmptyString =>
      match pending with
      | None => ""
      | Some _ => "?"
      end
  | String c r =>
      let b := byte_of c in
      match pending with
      | None =>
          if (b <? 127)%N then String c (to_ascii None r)
          else if within 194 223 b then to_ascii (Some (b - 192, 0%nat)%N) r
          else if within 224 239 b then to_ascii (Some (b - 224, 1%nat)%N) r
          else if within 240 244 b then to_ascii (Some (b - 240, 2%nat)%N) r
          else "?"
      | Some (bits, k) =>
          if within 128 191 b then
            let cp := (bits * 64 + (b - 128))%N in
            match k with
            | S k' => to_ascii (Some (cp, k')) r
            | O =>
                if unicode_space cp then String " " (to_ascii None r)
                else
                  match unicode_decimal cp with
                  | Some d => String (ascii_of_N (48 + d)) (to_ascii None r)
                  | None => "?"
                  end
            end
          else "?"
      end
  end.

(** [int(s)] for a [str] in base 10: Unicode spaces and digits are
    brought to ASCII, surrounding whitespace is dropped, one sign is
    allowed, the rest is a digit part; anything else is a [ValueError].
    (The limit on the number of digits is not modelled.) *)
Definition int_of_str (s : string) : res Z :=
  int_of_signed (strip_by c_isspace (to_ascii None s)).

(** * xml.etree.ElementTree *)

Module ET.

(** An element: tag, text before the first child, text after the end tag,
    children.  Attributes are left out: the code never sets or reads one. *)
Inductive Element : Type :=
| mkElement (tag : string) (text tail : option string) (children : list Element).

Definition tag (e : Element) : string :=
  let 'mkElement t _ _ _ := e in t.
Definition text (e : Element) : option string :=
  let 'mkElement _ x _ _ := e in x.
Definition tail (e : Element) : option string :=
  let 'mkElement _ _ x _ := e in x.
Definition children (e : Element) : list Element :=
  let 'mkElement _ _ _ c := e in c.

(** [ET.Element(tag)] *)
Definition new (t : string) : Element := mkElement t None None [].

Definition set_text (e : Element) (x : option string) : Element :=
  mkElement (tag e) x (tail e) (children e).
Definition set_tail (e : Element) (x : option string) : Element :=
  mkElement (tag e) (text e) x (children e).
Definition set_children (e : Element) (c : list Element) : Element :=
  mkElement (tag e) (text e) (tail e) c.

(** [parent.append(child)].  [ET.SubElement(parent, tag)] creates
    [new tag], appends it and hands it back to be filled in through the
    alias; here the child is filled in first and appended afterwards, which
    gives the same tree. *)
Definition append (parent child : Element) : Element :=
  set_children parent (children parent ++ [child]).

(** [elem.find(tag)]: the first direct child with that tag. *)
Definition find (e : Element) (t : string) : option Element :=
  List.find (fun c => String.eqb (tag c) t) (children e).

(** [elem.findall(tag)]: the direct children with that tag, in document
    order. *)
Definition findall (e : Element) (t : string) : list Element :=
  List.filter (fun c => String.eqb (tag c) t) (children e).

(** ** [ET.indent] *)

(** [not t or not t.strip()] *)
Definition blank (t : option string) : bool :=
  match t with
  | None => true
  | Some s => match strip s with EmptyString => true | _ => false end
  end.

(** [indentations[level]] for [space]: a newline and [level] copies of
    [space]. *)
Definition indentation (space : string) (level : nat) : string :=
  String LF (repeat_string space level).

(** The dedent step after the loop: the tail of the last child is
    overwritten when it is blank. *)
Fixpoint dedent_last (ind : string) (l : list Element) : list Element :=
  match l with
  | [] => []
  | [c] => [if blank (tail c) then set_tail c (Some ind) else c]
  | c :: r => c :: dedent_last ind r
  end.

(** [_indent_children(elem, level)] *)
Fixpoint indent_children (space : string) (level : nat) (elem : Element)
  : Element :=
  let 'mkElement t x tl cs := elem in
  let child_indentation := indentation space (S level) in
  let x' := if blank x then Some child_indentation else x in
  let cs' :=
    List.map (fun child =>
      let child1 :=
        match children child with
        | [] => child
        | _ :: _ => indent_children space (S level) child
        end in
      if blank (tail child1) then set_tail child1 (Some child_indentation)
      else child1) cs in
  mkElement t x' tl (dedent_last (indentation space level) cs').

(** [ET.indent(tree, space, level=0)]: nothing happens to a tree whose root
    has no child. *)
Definition indent (space : string) (root : Element) : Element :=
  match children root with
  | [] => root
  | _ :: _ => indent_children space 0 root
  end.

(** ** Serialisation *)

(** [_escape_cdata] *)
Fixpoint escape_cdata (s : string) : string :=
  match s with
  | EmptyString => EmptyString
  | String c r =>
      (if Ascii.eqb c "&" then "&amp;"
       else if Ascii.eqb c "<" then "&lt;"
       else if Ascii.eqb c ">" then "&gt;"
       else String c "") ++ escape_cdata r
  end.

(** A text or tail is written when it is neither [None] nor empty. *)
Definition written (t : option string) : string :=
  match t with
  | None => ""
  | Some s => escape_cdata s
  end.

Definition truthy (t : option string) : bool :=
  match t with
  | None | Some EmptyString => false
  | Some _ => true
  end.

(** [_serialize_xml] with [short_empty_elements=True]: an element with
    neither text nor children is written as [<tag />]. *)
Fixpoint serialize (e : Element) : string :=
  let 'mkElement t x tl cs := e in
  ("<" ++ t ++
   (if truthy x || negb (Nat.eqb (List.length cs) 0)
    then ">" ++ written x ++ String.concat "" (List.map serialize cs)
             ++ "</" ++ t ++ ">"
    else " />")
   ++ written tl)%string.

Definition xml_declaration : string :=
  "<?xml version='1.0' encoding='utf-8'?>".

(** [ElementTree(root).write(path, encoding='utf-8',
    xml_declaration=True)]: the bytes put in the file (where the line
    separator of the platform is the line feed, so that no character is
    translated on the way to the file). *)
Definition write (root : Element) : string :=
  xml_declaration ++ String LF (serialize root).

(** ** Parsing *)

(** [ET.parse] is modelled on a fragment of XML 1.0 in UTF-8: an optional
    XML declaration (version 1.0, UTF-8 when an encoding is named),
    comments, processing instructions, elements whose names and attribute
    names are made of ASCII letters, digits, [_], [-] and [.], character
    data, CDATA sections, the five predefined entity references and the
    numeric character references.  On this fragment the parser builds the
    tree [xml.etree.ElementTree] builds (with the line ends normalised as
    XML prescribes; comments and processing instructions are dropped, and
    so are the attributes, which the program never reads) or reports that
    the text is not well-formed.  DOCTYPE declarations, namespace
    declarations, other versions and encodings, and names with a colon or
    outside ASCII are outside the fragment and reported as such. *)

(** The tokens.  [TReference] marks a reference or a CDATA section met in
    character data: its characters go to a text token, and the mark lets
    the tree builder refuse them outside the document element. *)
Inductive token : Type :=
| TStart (name : string)
| TEmptyTag (name : string)
| TEnd (name : string)
| TText (data : string)
| TReference.

Inductive outcome (A : Type) : Type :=
| Parsed (a : A)
| NotWellFormed
| OutsideFragment.

Arguments Parsed {A} a.
Arguments NotWellFormed {A}.
Arguments OutsideFragment {A}.

Definition xml_space (c : ascii) : bool :=
  let n := byte_of c in ((n =? 32) || (n =? 9) || (n =? 10) || (n =? 13))%N.

Definition is_letter (c : ascii) : bool :=
  let n := byte_of c in
  ((65 <=? n) && (n <=? 90) || (97 <=? n) && (n <=? 122))%N.

Definition name_start (c : ascii) : bool :=
  is_letter c || Ascii.eqb c "_".

Definition name_char (c : ascii) : bool :=
  name_start c || is_digit c || Ascii.eqb c "-" || Ascii.eqb c ".".

(** A character that may start or continue a name of full XML but not of
    the fragment. *)
Definition foreign_name_char (c : ascii) : bool :=
  Ascii.eqb c ":" || (128 <=? byte_of c)%N.

(** A byte that character data may hold, the line ends apart: the
    tabulation and every byte from the space on.  The bytes above the
    ASCII range must also be the UTF-8 encoding of allowed characters;
    [flush] checks that with [utf8_ok] on each run of character data. *)
Definition xml_char (c : ascii) : bool :=
  let n := byte_of c in ((n =? 9) || (32 <=? n))%N.

(** The characters of XML 1.0, by number. *)
Definition char_ok (cp : N) : bool :=
  ((cp =? 9) || (cp =? 10) || (cp =? 13)
   || within 32 55295 cp || within 57344 65533 cp
   || within 65536 1114111 cp)%N.

Definition entity (name : string) : option ascii :=
  if String.eqb name "amp" then Some "&"%char
  else if String.eqb name "lt" then Some "<"%char
  else if String.eqb name "gt" then Some ">"%char
  else if String.eqb name "quot" then Some (ascii_of_N 34)
  else if String.eqb name "apos" then Some "'"%char
  else None.

(** A byte that character data, a comment, a processing instruction or an
    attribute value may hold. *)
Definition readable_char (c : ascii) : bool :=
  xml_char c || Ascii.eqb c LF || Ascii.eqb c CR.

(** The value of a digit of a character reference. *)
Definition digit_value (hex : bool) (c : ascii) : option N :=
  let n := byte_of c in
  if is_digit c then Some (n - 48)%N
  else if hex && within 97 102 n then Some (n - 87)%N
  else if hex && within 65 70 n then Some (n - 55)%N
  else None.

(** Where a reference stands: in character data, or in the value of an
    attribute of the start tag [name] (after the attributes [seen], between
    two [quote]s). *)
Inductive place : Type :=
| Data
| Attribute (name : string) (seen : list string) (quote : ascii).

Inductive mode : Type :=
| InText (cr : bool) (brackets : nat)
| InRef (p : place) (rname : string)
| InCharRef (p : place) (hex : bool) (value : option N)
| AfterLt
| AfterBang
| AfterBangDash
| InComment (dashes : nat)
| InCDataOpen (expected : string)
| InCData (cr : bool) (brackets : nat)
| InPITarget (rname : string)
| InPI (question : bool)
| InPIEnd
| InStartName (rname : string)
| InStartWs (name : string) (seen : list string)
| InAttrName (name : string) (seen : list string) (rattr : string)
| InAttrEq (name : string) (seen : list string)
| InAttrQuote (name : string) (seen : list string)
| InAttrValue (name : string) (seen : list string) (quote : ascii)
| AfterAttrValue (name : string) (seen : list string)
| InStartSlash (name : string)
| AfterLtSlash
| InEndName (rname : string)
| InEndWs (name : string).

Definition emit (t : token) (r : outcome (list token)) : outcome (list token) :=
  match r with
  | Parsed l => Parsed (t :: l)
  | NotWellFormed => NotWellFormed
  | OutsideFragment => OutsideFragment
  end.

(** The character data read so far ([buf], last character first) becomes
    one text token, unless there is none; its bytes must be UTF-8. *)
Definition flush (buf : string) (r : outcome (list token))
  : outcome (list token) :=
  match buf with
  | EmptyString => r
  | _ =>
      if utf8_ok (string_rev buf) then emit (TText (string_rev buf)) r
      else NotWellFormed
  end.

(** The bytes of a comment, of a processing instruction or of an
    attribute value ([buf], last character first) must be UTF-8; they are
    dropped. *)
Definition checked (buf : string) (r : outcome (list token))
  : outcome (list token) :=
  if utf8_ok (string_rev buf) then r else NotWellFormed.

(** The closing brackets of a CDATA section that turned out not to end
    it. *)
Definition pending (brackets : nat) (buf : string) : string :=
  match brackets with
  | O => buf
  | S O => String "]" buf
  | S (S _) => String "]" (String "]" buf)
  end.

(** An attribute name is added to those of the start tag: it must be new,
    and a namespace declaration is outside the fragment. *)
Definition attribute_named (attr : string) (seen : list string)
  : outcome (list string) :=
  if String.eqb attr "xmlns" then OutsideFragment
  else if List.existsb (String.eqb attr) seen then NotWellFormed
  else Parsed (attr :: seen).

Definition lower (c : ascii) : ascii :=
  let n := byte_of c in
  if ((65 <=? n) && (n <=? 90))%N then ascii_of_N (n + 32) else c.

Fixpoint lowercase (s : string) : string :=
  match s with
  | EmptyString => EmptyString
  | String c r => String (lower c) (lowercase r)
  end.

(** The target of a processing instruction cannot be [xml], in any
    case. *)
Definition reserved_target (rname : string) : bool :=
  String.eqb (lowercase (string_rev rname)) "xml".

(** The tokenizer, one character at a time.  In character data, [cr] says
    that the previous character was a carriage return (a line feed that
    follows is dropped: CR LF and CR both become LF) and [brackets] counts
    the closing brackets just read (the sequence of two brackets and [>] is
    not allowed in character data).  A character reference gives its
    character as it is: a carriage return written as a reference stays
    one.  In a comment, [dashes] counts the hyphens just read: two of them
    must end the comment.  In a CDATA section, [brackets] counts the
    closing brackets that may be the start of its end.  In a start tag,
    [seen] holds the names of the attributes read so far. *)
Fixpoint lex (m : mode) (buf : string) (s : string) : outcome (list token) :=
  match s with
  | EmptyString =>
      match m with
      | InText _ _ => flush buf (Parsed [])
      | _ => NotWellFormed
      end
  | String c r =>
      match m with
      | InText cr brackets =>
          if Ascii.eqb c "<" then flush buf (lex AfterLt "" r)
          else if Ascii.eqb c "&" then lex (InRef Data "") buf r
          else if Ascii.eqb c CR then lex (InText true 0) (String LF buf) r
          else if Ascii.eqb c LF then
            if cr then lex (InText false 0) buf r
            else lex (InText false 0) (String LF buf) r
          else if Ascii.eqb c "]" then
            lex (InText false (Nat.min 2 (S brackets))) (String c buf) r
          else if Ascii.eqb c ">" then
            if Nat.eqb brackets 2 then NotWellFormed
            else lex (InText false 0) (String c buf) r
          else if xml_char c then lex (InText false 0) (String c buf) r
          else NotWellFormed
      | InRef p rname =>
          if Ascii.eqb c ";" then
            match entity (string_rev rname) with
            | Some ch =>
                match p with
                | Data =>
                    emit TReference (lex (InText false 0) (String ch buf) r)
                | Attribute name seen quote =>
                    lex (InAttrValue name seen quote) (String ch buf) r
                end
            | None => NotWellFormed
            end
          else if Ascii.eqb c "#" then
            match rname with
            | EmptyString => lex (InCharRef p false None) buf r
            | _ => NotWellFormed
            end
          else if is_letter c then lex (InRef p (String c rname)) buf r
          else NotWellFormed
      | InCharRef p hex value =>
          if Ascii.eqb c ";" then
            match value with
            | Some cp =>
                if char_ok cp then
                  match p with
                  | Data =>
                      emit TReference
                        (lex (InText false 0)
                           (string_rev_onto (utf8_encode cp) buf) r)
                  | Attribute name seen quote =>
                      lex (InAttrValue name seen quote)
                        (string_rev_onto (utf8_encode cp) buf) r
                  end
                else NotWellFormed
            | None => NotWellFormed
            end
          else
            match value, digit_value hex c with
            | _, Some d =>
                let v := match value with Some v => v | None => 0%N end in
                let cp := ((if hex then 16 else 10) * v + d)%N in
                if (cp <? 1114112)%N then lex (InCharRef p hex (Some cp)) buf r
                else NotWellFormed
            | None, None =>
                if Ascii.eqb c "x" && negb hex
                then lex (InCharRef p true None) buf r
                else NotWellFormed
            | Some _, None => NotWellFormed
            end
      | AfterLt =>
          if Ascii.eqb c "/" then lex AfterLtSlash "" r
          else if Ascii.eqb c "!" then lex AfterBang "" r
          else if Ascii.eqb c "?" then lex (InPITarget "") "" r
          else if name_start c then lex (InStartName (String c "")) "" r
          else if foreign_name_char c then OutsideFragment
          else NotWellFormed
      | AfterBang =>
          if Ascii.eqb c "-" then lex AfterBangDash "" r
          else if Ascii.eqb c "[" then lex (InCDataOpen "CDATA[") "" r
          else OutsideFragment
      | AfterBangDash =>
          if Ascii.eqb c "-" then lex (InComment 0) "" r
          else NotWellFormed
      | InComment dashes =>
          if Nat.eqb dashes 2 then
            if Ascii.eqb c ">" then checked buf (lex (InText false 0) "" r)
            else NotWellFormed
          else if Ascii.eqb c "-" then
            lex (InComment (S dashes)) (String c buf) r
          else if readable_char c then lex (InComment 0) (String c buf) r
          else NotWellFormed
      | InCDataOpen expected =>
          match expected with
          | EmptyString => NotWellFormed
          | String e rest =>
              if Ascii.eqb c e then
                match rest with
                | EmptyString => emit TReference (lex (InCData false 0) "" r)
                | _ => lex (InCDataOpen rest) "" r
                end
              else NotWellFormed
          end
      | InCData cr brackets =>
          if Ascii.eqb c "]" then
            if Nat.eqb brackets 2 then lex (InCData false 2) (String c buf) r
            else lex (InCData false (S brackets)) buf r
          else if Ascii.eqb c ">" && Nat.eqb brackets 2 then
            flush buf (lex (InText false 0) "" r)
          else if Ascii.eqb c CR then
            lex (InCData true 0) (String LF (pending brackets buf)) r
          else if Ascii.eqb c LF then
            if cr then lex (InCData false 0) (pending brackets buf) r
            else lex (InCData false 0) (String LF (pending brackets buf)) r
          else if xml_char c then
            lex (InCData false 0) (String c (pending brackets buf)) r
          else NotWellFormed
      | InPITarget rname =>
          match rname with
          | EmptyString =>
              if name_start c then lex (InPITarget (String c "")) "" r
              else if foreign_name_char c then OutsideFragment
              else NotWellFormed
          | _ =>
              if name_char c then lex (InPITarget (String c rname)) "" r
              else if foreign_name_char c then OutsideFragment
              else if reserved_target rname then NotWellFormed
              else if xml_space c then lex (InPI false) "" r
              else if Ascii.eqb c "?" then lex InPIEnd "" r
              else NotWellFormed
          end
      | InPI question =>
          if Ascii.eqb c ">" && question
          then checked buf (lex (InText false 0) "" r)
          else if Ascii.eqb c "?" then lex (InPI true) (String c buf) r
          else if readable_char c then lex (InPI false) (String c buf) r
          else NotWellFormed
      | InPIEnd =>
          if Ascii.eqb c ">" then lex (InText false 0) "" r
          else NotWellFormed
      | InStartName rname =>
          if name_char c then lex (InStartName (String c rname)) "" r
          else if foreign_name_char c then OutsideFragment
          else if Ascii.eqb c ">" then
            emit (TStart (string_rev rname)) (lex (InText false 0) "" r)
          else if Ascii.eqb c "/" then lex (InStartSlash (string_rev rname)) "" r
          else if xml_space c then lex (InStartWs (string_rev rname) []) "" r
          else NotWellFormed
      | InStartWs name seen =>
          if xml_space c then lex (InStartWs name seen) "" r
          else if Ascii.eqb c ">" then
            emit (TStart name) (lex (InText false 0) "" r)
          else if Ascii.eqb c "/" then lex (InStartSlash name) "" r
          else if name_start c then
            lex (InAttrName name seen (String c "")) "" r
          else if foreign_name_char c then OutsideFragment
          else NotWellFormed
      | InAttrName name seen rattr =>
          if name_char c then lex (InAttrName name seen (String c rattr)) "" r
          else if foreign_name_char c then OutsideFragment
          else if Ascii.eqb c "=" then
            match attribute_named (string_rev rattr) seen with
            | Parsed seen' => lex (InAttrQuote name seen') "" r
            | NotWellFormed => NotWellFormed
            | OutsideFragment => OutsideFragment
            end
          else if xml_space c then
            match attribute_named (string_rev rattr) seen with
            | Parsed seen' => lex (InAttrEq name seen') "" r
            | NotWellFormed => NotWellFormed
            | OutsideFragment => OutsideFragment
            end
          else NotWellFormed
      | InAttrEq name seen =>
          if xml_space c then lex (InAttrEq name seen) "" r
          else if Ascii.eqb c "=" then lex (InAttrQuote name seen) "" r
          else NotWellFormed
      | InAttrQuote name seen =>
          if xml_space c then lex (InAttrQuote name seen) "" r
          else if Ascii.eqb c "'" || Ascii.eqb c (ascii_of_N 34)
          then lex (InAttrValue name seen c) "" r
          else NotWellFormed
      | InAttrValue name seen quote =>
          if Ascii.eqb c quote
          then checked buf (lex (AfterAttrValue name seen) "" r)
          else if Ascii.eqb c "<" then NotWellFormed
          else if Ascii.eqb c "&"
          then lex (InRef (Attribute name seen quote) "") buf r
          else if readable_char c
          then lex (InAttrValue name seen quote) (String c buf) r
          else NotWellFormed
      | AfterAttrValue name seen =>
          if xml_space c then lex (InStartWs name seen) "" r
          else if Ascii.eqb c ">" then
            emit (TStart name) (lex (InText false 0) "" r)
          else if Ascii.eqb c "/" then lex (InStartSlash name) "" r
          else NotWellFormed
      | InStartSlash name =>
          if Ascii.eqb c ">" then
            emit (TEmptyTag name) (lex (InText false 0) "" r)
          else NotWellFormed
      | AfterLtSlash =>
          if name_start c then lex (InEndName (String c "")) "" r
          else if foreign_name_char c then OutsideFragment
          else NotWellFormed
      | InEndName rname =>
          if name_char c then lex (InEndName (String c rname)) "" r
          else if foreign_name_char c then OutsideFragment
          else if Ascii.eqb c ">" then
            emit (TEnd (string_rev rname)) (lex (InText false 0) "" r)
          else if xml_space c then lex (InEndWs (string_rev rname)) "" r
          else NotWellFormed
      | InEndWs name =>
          if xml_space c then lex (InEndWs name) "" r
          else if Ascii.eqb c ">" then
            emit (TEnd name) (lex (InText false 0) "" r)
          else NotWellFormed
      end
  end.

(** An element under construction: its tag, its text so far and its
    children so far, the most recent first. *)
Record frame : Type := mkFrame {
  ftag : string;
  ftext : option string;
  fkids : list Element
}.

Definition more (t : option string) (s : string) : option string :=
  match t with
  | None => Some s
  | Some s0 => Some (s0 ++ s)%string
  end.

(** Character data goes to the text of the open element while it has no
    child, and to the tail of its last child afterwards. *)
Definition add_data (s : string) (f : frame) : frame :=
  match fkids f with
  | [] => mkFrame (ftag f) (more (ftext f) s) []
  | k :: ks => mkFrame (ftag f) (ftext f) (set_tail k (more (tail k) s) :: ks)
  end.

Definition add_kid (e : Element) (f : frame) : frame :=
  mkFrame (ftag f) (ftext f) (e :: fkids f).

Definition close (f : frame) : Element :=
  mkElement (ftag f) (ftext f) None (List.rev (fkids f)).

(** The tree builder.  [stack] holds the open elements, the innermost
    first; [root] is the document element once it is closed. *)
Fixpoint build (toks : list token) (stack : list frame) (root : option Element)
  : outcome Element :=
  match toks with
  | [] =>
      match stack, root with
      | [], Some e => Parsed e
      | _, _ => NotWellFormed
      end
  | TText s :: r =>
      match stack with
      | [] =>
          if string_forallb xml_space s then build r [] root
          else if string_forallb (fun c => (byte_of c <? 128)%N) s
          then NotWellFormed
          else OutsideFragment
      | f :: fs => build r (add_data s f :: fs) root
      end
  | TReference :: r =>
      match stack with
      | [] => NotWellFormed
      | _ :: _ => build r stack root
      end
  | TStart n :: r =>
      match stack, root with
      | [], Some _ => NotWellFormed
      | _, _ => build r (mkFrame n None [] :: stack) root
      end
  | TEmptyTag n :: r =>
      match stack, root with
      | [], Some _ => NotWellFormed
      | [], None => build r [] (Some (new n))
      | p :: ps, _ => build r (add_kid (new n) p :: ps) root
      end
  | TEnd n :: r =>
      match stack with
      | [] => NotWellFormed
      | f :: fs =>
          if String.eqb (ftag f) n then
            match fs with
            | [] => build r [] (Some (close f))
            | p :: ps => build r (add_kid (close f) p :: ps) root
            end
          else NotWellFormed
      end
  end.

Fixpoint strip_prefix (p s : string) : option string :=
  match p, s with
  | EmptyString, _ => Some s
  | String a p', String b s' =>
      if Ascii.eqb a b then strip_prefix p' s' else None
  | String _ _, EmptyString => None
  end.

(** *** The XML declaration *)

Definition starts_with_space (s : string) : bool :=
  match s with
  | String c _ => xml_space c
  | EmptyString => false
  end.

(** The value up to the closing quote [q], and what follows the quote. *)
Fixpoint until_quote (q : ascii) (s : string) : option (string * string) :=
  match s with
  | EmptyString => None
  | String c r =>
      if Ascii.eqb c q then Some (EmptyString, r)
      else
        match until_quote q r with
        | Some (v, rest) => Some (String c v, rest)
        | None => None
        end
  end.

(** [name], an equals sign with optional space around it, and a value
    between two quotes of the same kind. *)
Definition pseudo_attribute (name s : string) : option (string * string) :=
  match strip_prefix name s with
  | Some r1 =>
      match lstrip_by xml_space r1 with
      | String eq r2 =>
          if Ascii.eqb eq "=" then
            match lstrip_by xml_space r2 with
            | String q r3 =>
                if Ascii.eqb q "'" || Ascii.eqb q (ascii_of_N 34)
                then until_quote q r3
                else None
            | EmptyString => None
            end
          else None
      | EmptyString => None
      end
  | None => None
  end.

(** A pseudo-attribute that may be left out; it comes after space. *)
Definition optional (name s : string) : option string * string :=
  if starts_with_space s then
    match pseudo_attribute name (lstrip_by xml_space s) with
    | Some (v, rest) => (Some v, rest)
    | None => (None, s)
    end
  else (None, s).

Definition names_utf8 (enc : option string) : bool :=
  match enc with
  | None => true
  | Some e => String.eqb (lowercase e) "utf-8"
  end.

Definition yes_or_no (sd : option string) : bool :=
  match sd with
  | None => true
  | Some v => String.eqb v "yes" || String.eqb v "no"
  end.

(** What follows the XML declaration, when the content starts with one of
    version 1.0 that names no other encoding than UTF-8; the content
    itself, when it does not start with [<?xml] and a space.  A
    declaration of another form is outside the fragment. *)
Definition after_declaration (content : string) : outcome string :=
  match strip_prefix "<?xml" content with
  | Some r0 =>
      if starts_with_space r0 then
        match pseudo_attribute "version" (lstrip_by xml_space r0) with
        | Some (v, r1) =>
            let (enc, r2) := optional "encoding" r1 in
            let (sd, r3) := optional "standalone" r2 in
            match strip_prefix "?>" (lstrip_by xml_space r3) with
            | Some body =>
                if String.eqb v "1.0" && names_utf8 enc && yes_or_no sd
                then Parsed body
                else OutsideFragment
            | None => OutsideFragment
            end
        | None => OutsideFragment
        end
      else Parsed content
  | None => Parsed content
  end.

Definition parse_document (content : string) : outcome Element :=
  match after_declaration content with
  | Parsed body =>
      match lex (InText false 0) "" body with
      | Parsed toks => build toks [] None
      | NotWellFormed => NotWellFormed
      | OutsideFragment => OutsideFragment
      end
  | NotWellFormed => NotWellFormed
  | OutsideFragment => OutsideFragment
  end.

(** [ET.parse(path).getroot()] on the bytes of the file. *)
Definition parse (content : string) : res Element :=
  match parse_document content with
  | Parsed root => Ok root
  | NotWellFormed => Raise ParseError
  | OutsideFragment => Raise Unmodelled
  end.

(** ** Vocabulary for writing and reading back *)

(** A text that can be written as character data and read: allowed
    characters, in UTF-8. *)
Definition readable_text (s : string) : bool :=
  string_forallb readable_char s && utf8_ok s.

Definition readable (t : option string) : bool :=
  match t with
  | None => true
  | Some s => readable_text s
  end.

(** A character that the parser gives back as it is: an allowed character
    other than the carriage return. *)
Definition plain_char (c : ascii) : bool := xml_char c || Ascii.eqb c LF.

(** A text that the parser gives back as it was written: allowed
    characters, in UTF-8, and no carriage return. *)
Definition plain_text (s : string) : bool :=
  string_forallb plain_char s && utf8_ok s.

(** A tag of the fragment. *)
Definition plain_name (t : string) : bool :=
  match t with
  | EmptyString => false
  | String c r => name_start c && string_forallb name_char r
  end.

(** A tree whose tags are names of the fragment and whose texts and tails
    are readable. *)
Fixpoint readable_tree (e : Element) : bool :=
  let 'mkElement t x tl cs := e in
  plain_name t && readable x && readable tl && List.forallb readable_tree cs.

(** The line ends of character data as the parser returns them: a
    carriage return becomes a line feed, and the line feed that follows
    one is dropped.  [cr] says that the previous character was a carriage
    return. *)
Fixpoint newlines (cr : bool) (s : string) : string :=
  match s with
  | EmptyString => EmptyString
  | String c r =>
      if Ascii.eqb c CR then String LF (newlines true r)
      else if Ascii.eqb c LF then
        if cr then newlines false r else String LF (newlines false r)
      else String c (newlines false r)
  end.

(** A text or tail, written and read back: an empty text is not written,
    and so is read back as no text. *)
Definition reread_text (t : option string) : option string :=
  match t with
  | None | Some EmptyString => None
  | Some s => Some (newlines false s)
  end.

(** The tree read back from the serialisation of a tree. *)
Fixpoint reread (e : Element) : Element :=
  let 'mkElement t x tl cs := e in
  mkElement t (reread_text x) (reread_text tl) (List.map reread cs).

(** The marks of the references that [escape_cdata] writes for a text. *)
Fixpoint references (s : string) : list token :=
  match s with
  | EmptyString => []
  | String c r =>
      if Ascii.eqb c "&" || Ascii.eqb c "<" || Ascii.eqb c ">"
      then TReference :: references r
      else references r
  end.

(** The tokens of the serialisation of a text and of a tree. *)
Definition data_tokens (t : option string) : list token :=
  match t with
  | None | Some EmptyString => []
  | Some s => (references s ++ [TText (newlines false s)])%list
  end.

Fixpoint tokens (e : Element) : list token :=
  let 'mkElement t x tl cs := e in
  ((if truthy x || negb (Nat.eqb (List.length cs) 0)
    then TStart t :: data_tokens x ++ List.flat_map tokens cs ++ [TEnd t]
    else [TEmptyTag t])
   ++ data_tokens tl)%list.

(** Tokenizing from the start of character data. *)
Definition scan (s : string) : outcome (list token) :=
  lex (InText false 0) "" s.

Definition prepend (toks : list token) (r : outcome (list token))
  : outcome (list token) :=
  match r with
  | Parsed l => Parsed (toks ++ l)%list
  | NotWellFormed => NotWellFormed
  | OutsideFragment => OutsideFragment
  end.

(** The rest of the input is at a boundary of character data: it is empty
    or starts a tag. *)
Definition boundary (rest : string) : Prop :=
  rest = EmptyString \/ exists r, rest = String "<" r.

(** ** Vocabulary for what the parser returns *)

(** A text as the parser returns it: no text, or a non-empty readable
    text. *)
Definition clean (t : option string) : bool :=
  match t with
  | None => true
  | Some EmptyString => false
  | Some s => readable_text s
  end.

Fixpoint clean_tree (e : Element) : bool :=
  let 'mkElement _ x tl cs := e in
  clean x && clean tl && List.forallb clean_tree cs.

Definition clean_token (t : token) : bool :=
  match t with
  | TText s => clean (Some s)
  | _ => true
  end.

Definition clean_frame (f : frame) : bool :=
  clean (ftext f) && List.forallb clean_tree (fkids f).

Definition clean_root (root : option Element) : bool :=
  match root with
  | None => true
  | Some e => clean_tree e
  end.

End ET.

(** * Python floats *)

(** The price of a device is a Python [float].  Its text form and the
    conversion from text are taken as an interface: [str_float x] is
    [str(x)], and [float_of_str s] is [float(s)], [None] standing for the
    [ValueError] of a text that is not a number. *)
Class PyFloat (pyfloat : Type) : Type := {
  str_float : pyfloat -> string;
  float_of_str : string -> option pyfloat
}.

(** * The application *)

Section Estoque.

Context {pyfloat : Type} {F : PyFloat pyfloat}.

(** ** Values and dictionaries *)

(** The values found in the dictionaries of the program. *)
Inductive value : Type :=
| VInt (n : Z)
| VFloat (x : pyfloat)
| VStr (s : string)
| VNone.

(** [str(v)] *)
Definition str (v : value) : string :=
  match v with
  | VInt n => str_int n
  | VFloat x => str_float x
  | VStr s => s
  | VNone => "None"
  end.

(** [v == n] for an [int] [n].  The values compared by the program are the
    ["id"] entries, which are always [int] (see [id_is_int] below), so the
    comparison of a float with an integer is never needed. *)
Definition eq_int (v : value) (n : Z) : bool :=
  match v with
  | VInt m => Z.eqb m n
  | _ => false
  end.

(** A [dict] with [str] keys: the entries in insertion order, no key
    twice. *)
Definition dict : Type := list (string * value).

(** [d[k]] *)
Fixpoint getitem (d : dict) (k : string) : res value :=
  match d with
  | [] => Raise KeyError
  | (k', v) :: r => if String.eqb k' k then Ok v else getitem r k
  end.

(** [d[k] = v]: an existing key keeps its place, a new key goes last. *)
Fixpoint setitem (d : dict) (k : string) (v : value) : dict :=
  match d with
  | [] => [(k, v)]
  | (k', v') :: r =>
      if String.eqb k' k then (k, v) :: r else (k', v') :: setitem r k v
  end.

(** [class Aparelho(BaseModel)] *)
Record Aparelho : Type := mkAparelho {
  id : Z;
  nome : string;
  marca : string;
  preco : pyfloat;
  categoria : string;
  deposito : string
}.

(** [aparelho.model_dump()]: the fields in declaration order. *)
Definition model_dump (a : Aparelho) : dict :=
  [ ("id", VInt (id a));
    ("nome", VStr (nome a));
    ("marca", VStr (marca a));
    ("preco", VFloat (preco a));
    ("categoria", VStr (categoria a));
    ("deposito", VStr (deposito a)) ].

(** ** The world: the file and the standard output *)

Record world : Type := mkWorld {
  arquivo : option string;   (* the bytes at ARQUIVO_ESTOQUE, if it exists *)
  stdout : list string       (* the lines printed so far *)
}.

(** Computations that read and change the world and may raise.  An
    exception leaves the world as it was when it was raised. *)
Definition M (A : Type) : Type := world -> res A * world.

Definition ret {A} (a : A) : M A := fun w => (Ok a, w).

Definition raise {A} (e : exn) : M A := fun w => (Raise e, w).

Definition bind {A B} (m : M A) (k : A -> M B) : M B :=
  fun w =>
    match m w with
    | (Ok a, w') => k a w'
    | (Raise e, w') => (Raise e, w')
    end.

Definition lift {A} (r : res A) : M A := fun w => (r, w).

Definition write_file (content : string) : M unit :=
  fun w => (Ok tt, mkWorld (Some content) (stdout w)).

Definition print (line : string) : M unit :=
  fun w => (Ok tt, mkWorld (arquivo w) (stdout w ++ [line])).

Declare Scope M_scope.
Delimit Scope M_scope with M.
Notation "x <- m ;; k" := (bind m (fun x => k))
  (at level 61, m at next level, right associativity) : M_scope.
Notation "m ;;; k" := (bind m (fun _ => k))
  (at level 61, right associativity) : M_scope.

(** ** Persistence *)

(** [elem.find(t).text]: an [AttributeError] when there is no such child. *)
Definition find_text (elem : ET.Element) (t : string) : res (option string) :=
  match ET.find elem t with
  | Some c => Ok (ET.text c)
  | None => Raise AttributeError
  end.

(** [int(t)] for a text that may be [None]. *)
Definition py_int (t : option string) : res Z :=
  match t with
  | None => Raise TypeError
  | Some s => int_of_str s
  end.

(** [float(t)] for a text that may be [None]. *)
Definition py_float (t : option string) : res pyfloat :=
  match t with
  | None => Raise TypeError
  | Some s =>
      match float_of_str s with
      | Some x => Ok x
      | None => Raise ValueError
      end
  end.

Definition of_text (t : option string) : value :=
  match t with
  | Some s => VStr s
  | None => VNone
  end.

(** The dictionary display in the loop of [carregar_aparelhos_xml]; its
    entries are evaluated in order. *)
Definition ler_aparelho (aparelho_elem : ET.Element) : res dict :=
  (t_id <- find_text aparelho_elem "id" ;;
   v_id <- py_int t_id ;;
   t_nome <- find_text aparelho_elem "nome" ;;
   t_marca <- find_text aparelho_elem "marca" ;;
   t_preco <- find_text aparelho_elem "preco" ;;
   v_preco <- py_float t_preco ;;
   t_categoria <- find_text aparelho_elem "categoria" ;;
   t_deposito <- find_text aparelho_elem "deposito" ;;
   Ok [ ("id", VInt v_id);
        ("nome", of_text t_nome);
        ("marca", of_text t_marca);
        ("preco", VFloat v_preco);
        ("categoria", of_text t_categoria);
        ("deposito", of_text t_deposito) ])%res.

(** The loop [for aparelho_elem in root.findall('aparelho')], appending to
    [aparelhos]. *)
Fixpoint ler_aparelhos (elems : list ET.Element) (aparelhos : list dict)
  : res (list dict) :=
  match elems with
  | [] => Ok aparelhos
  | aparelho_elem :: r =>
      (ap <- ler_aparelho aparelho_elem ;;
       ler_aparelhos r (aparelhos ++ [ap]))%res
  end.

Definition aviso : string :=
  "Atenção: Erro ao analisar o arquivo XML. Retornando estoque vazio.".

(** [carregar_aparelhos_xml()].  The [try] block covers [ET.parse] and the
    loop; only [ET.ParseError] is caught.  That exception can only come
    from [ET.parse], before anything is appended, so the handler returns
    the empty list. *)
Definition carregar_aparelhos_xml : M (list dict) :=
  fun w =>
    match arquivo w with
    | None =>
        (write_file (ET.write (ET.new "estoque")) ;;; ret [])%M w
    | Some content =>
        match (root <- ET.parse content ;;
               ler_aparelhos (ET.findall root "aparelho") [])%res with
        | Ok aparelhos => (Ok aparelhos, w)
        | Raise ParseError => (print aviso ;;; ret [])%M w
        | Raise e => (Raise e, w)
        end
    end.

(** The inner loop of [salvar_aparelhos_xml]: one child per entry of the
    dictionary, its text the [str] of the value. *)
Definition elemento_de (ap_data : dict) : ET.Element :=
  fold_left
    (fun aparelho_elem kv =>
       ET.append aparelho_elem (ET.set_text (ET.new (fst kv)) (Some (str (snd kv)))))
    ap_data (ET.new "aparelho").

(** The tree built by [salvar_aparelhos_xml]. *)
Definition arvore_de (aparelhos : list dict) : ET.Element :=
  fold_left (fun root ap_data => ET.append root (elemento_de ap_data))
    aparelhos (ET.new "estoque").

(** The tree handed to [tree.write]: the tree built, after
    [ET.indent(tree, space=TAB, level=0)]. *)
Definition arvore_escrita (aparelhos : list dict) : ET.Element :=
  ET.indent (String TAB "") (arvore_de aparelhos).

(** The bytes of the file for a list of dictionaries. *)
Definition documento (aparelhos : list dict) : string :=
  ET.write (arvore_escrita aparelhos).

(** [salvar_aparelhos_xml(aparelhos)] *)
Definition salvar_aparelhos_xml (aparelhos : list dict) : M unit :=
  write_file (documento aparelhos).

(** ** Endpoints *)

Definition nao_encontrado (n : Z) : exn :=
  HTTPException 404 ("Aparelho com ID " ++ str_int n ++ " não encontrado.").

Definition id_ja_existe : exn :=
  HTTPException 400 "ID já existe. Não foi possível adicionar o aparelho.".

Definition id_diferente : exn :=
  HTTPException 400 "O ID no corpo da requisição deve ser igual ao ID na URL.".

(** [any(a["id"] == n for a in aparelhos)] *)
Fixpoint any_id (aparelhos : list dict) (n : Z) : res bool :=
  match aparelhos with
  | [] => Ok false
  | a :: r =>
      (v <- getitem a "id" ;;
       if eq_int v n then Ok true else any_id r n)%res
  end.

Definition adicionado : string := "Aparelho adicionado com sucesso".

(** [POST /aparelhos]; the answer is the message and the device. *)
Definition adicionar_aparelho (aparelho : Aparelho) : M (string * Aparelho) :=
  (aparelhos <- carregar_aparelhos_xml ;;
   existe <- lift (any_id aparelhos (id aparelho)) ;;
   if existe : bool then raise id_ja_existe
   else
     salvar_aparelhos_xml (aparelhos ++ [model_dump aparelho]) ;;;
     ret (adicionado, aparelho))%M.

(** [GET /aparelhos] *)
Definition listar_aparelhos : M (list dict) := carregar_aparelhos_xml.

(** The loop of [buscar_aparelho]: the first dictionary with that id. *)
Fixpoint primeiro_com_id (aparelhos : list dict) (n : Z) : res (option dict) :=
  match aparelhos with
  | [] => Ok None
  | ap :: r =>
      (v <- getitem ap "id" ;;
       if eq_int v n then Ok (Some ap) else primeiro_com_id r n)%res
  end.

(** [GET /aparelhos/{id}] *)
Definition buscar_aparelho (n : Z) : M dict :=
  (aparelhos <- carregar_aparelhos_xml ;;
   achado <- lift (primeiro_com_id aparelhos n) ;;
   match achado with
   | Some ap => ret ap
   | None => raise (nao_encontrado n)
   end)%M.

(** The loop of [atualizar_aparelho] over [enumerate(aparelhos)], from
    index [i]: the index of the first dictionary with that id. *)
Fixpoint indice_com_id (aparelhos : list dict) (n : Z) (i : nat)
  : res (option nat) :=
  match aparelhos with
  | [] => Ok None
  | ap :: r =>
      (v <- getitem ap "id" ;;
       if eq_int v n then Ok (Some i) else indice_com_id r n (S i))%res
  end.

(** [l[i] = x] for an index within the list. *)
Fixpoint list_set {A} (l : list A) (i : nat) (x : A) : list A :=
  match l, i with
  | [], _ => []
  | _ :: r, O => x :: r
  | y :: r, S j => y :: list_set r j x
  end.

(** [PUT /aparelhos/{id}] *)
Definition atualizar_aparelho (n : Z) (aparelho_novo : Aparelho) : M Aparelho :=
  (aparelhos <- carregar_aparelhos_xml ;;
   aparelho_encontrado <- lift (indice_com_id aparelhos n 0) ;;
   match aparelho_encontrado with
   | None => raise (nao_encontrado n)
   | Some i =>
       if negb (Z.eqb (id aparelho_novo) n) then raise id_diferente
       else
         salvar_aparelhos_xml (list_set aparelhos i (model_dump aparelho_novo)) ;;;
         ret aparelho_novo
   end)%M.

(** [[ap for ap in aparelhos if ap["id"] != n]] *)
Fixpoint sem_id (aparelhos : list dict) (n : Z) : res (list dict) :=
  match aparelhos with
  | [] => Ok []
  | ap :: r =>
      (v <- getitem ap "id" ;;
       rest <- sem_id r n ;;
       Ok (if negb (eq_int v n) then ap :: rest else rest))%res
  end.

Definition deletado (n : Z) : string :=
  "Aparelho com ID " ++ str_int n ++ " deletado com sucesso.".

(** [DELETE /aparelhos/{id}]; the answer is the message. *)
Definition deletar_aparelho (n : Z) : M string :=
  (aparelhos <- carregar_aparelhos_xml ;;
   aparelhos_atualizados <- lift (sem_id aparelhos n) ;;
   if Nat.eqb (List.length aparelhos_atualizados) (List.length aparelhos)
   then raise (nao_encontrado n)
   else
     salvar_aparelhos_xml aparelhos_atualizados ;;;
     ret (deletado n))%M.

(** The loop of [transferir_aparelho].  The dictionary it changes is the
    one inside the list, and [aparelho_encontrado] is that same object: the
    loop gives back the list with the change and the changed dictionary. *)
Fixpoint mudar_deposito (aparelhos : list dict) (n : Z) (novo_deposito : string)
  : res (list dict * option dict) :=
  match aparelhos with
  | [] => Ok ([], None)
  | ap :: r =>
      (v <- getitem ap "id" ;;
       if eq_int v n then
         let ap' := setitem ap "deposito" (VStr novo_deposito) in
         Ok (ap' :: r, Some ap')
       else
         p <- mudar_deposito r n novo_deposito ;;
         Ok (ap :: fst p, snd p))%res
  end.

(** [PUT /aparelhos/{id}/transferir/{novo_deposito}] *)
Definition transferir_aparelho (n : Z) (novo_deposito : string) : M dict :=
  (aparelhos <- carregar_aparelhos_xml ;;
   p <- lift (mudar_deposito aparelhos n novo_deposito) ;;
   match snd p with
   | None => raise (nao_encontrado n)
   | Some aparelho_encontrado =>
       salvar_aparelhos_xml (fst p) ;;;
       ret aparelho_encontrado
   end)%M.

(** ** Vocabulary of the properties *)

(** The keys of a device dictionary, in order. *)
Definition campos : list string :=
  ["id"; "nome"; "marca"; "preco"; "categoria"; "deposito"].

(** The dictionary has the ["id"] [n]. *)
Definition com_id (ap : dict) (n : Z) : bool :=
  match getitem ap "id" with
  | Ok v => eq_int v n
  | Raise _ => false
  end.

(** The shape of the dictionaries of the program: the six keys in order,
    and an [int] under ["id"]. *)
Definition forma (ap : dict) : Prop :=
  map fst ap = campos /\ exists n, getitem ap "id" = Ok (VInt n).

(** No dictionary of the list has the id [n]. *)
Definition ausente (n : Z) (aparelhos : list dict) : Prop :=
  forall ap, In ap aparelhos -> com_id ap n = false.

(** Some dictionary of the list has the id [n]. *)
Definition presente (n : Z) (aparelhos : list dict) : Prop :=
  exists ap, In ap aparelhos /\ com_id ap n = true.

(** The leaf written for one entry of a dictionary. *)
Definition folha (kv : string * value) : ET.Element :=
  ET.mkElement (fst kv) (Some (str (snd kv))) None [].

(** An element, and the children of an element, leaving the tails out. *)
Definition sem_cauda (f : ET.Element)
  : string * option string * list ET.Element :=
  (ET.tag f, ET.text f, ET.children f).

Definition filhos_sem_cauda (e : ET.Element)
  : list (string * option string * list ET.Element) :=
  map sem_cauda (ET.children e).

Definition registro_sem_cauda (c : ET.Element)
  : string * list (string * option string * list ET.Element) :=
  (ET.tag c, filhos_sem_cauda c).

(** Tag and text of each child of an element: what
    [carregar_aparelhos_xml] looks at in a record. *)
Definition campos_de (e : ET.Element) : list (string * option string) :=
  map (fun f => (ET.tag f, ET.text f)) (ET.children e).

(** A text that the file gives back as it was saved: not empty, and made
    of characters that XML allows and does not normalise, in UTF-8. *)
Definition texto_fiel (s : string) : Prop :=
  s <> EmptyString /\ ET.plain_text s = true.

Definition aparelho_fiel (a : Aparelho) : Prop :=
  texto_fiel (nome a) /\ texto_fiel (marca a)
  /\ texto_fiel (categoria a) /\ texto_fiel (deposito a).

(** What Python guarantees of the text form of a float: [float(str(x))]
    is [x], and [str(x)] is a non-empty text of digits, signs, a point and
    letters. *)
Definition floats_fieis : Prop :=
  forall x : pyfloat,
    float_of_str (str_float x) = Some x /\ texto_fiel (str_float x).

(** A record element lacks one of the six children. *)
Definition falta_campo (elem : ET.Element) : Prop :=
  exists k, In k campos /\ ET.find elem k = None.

(** The text under ["id"] is not an integer, or the text under ["preco"]
    is not a number. *)
Definition valor_inconvertivel (elem : ET.Element) : Prop :=
  (exists c, ET.find elem "id" = Some c
             /\ forall n, py_int (ET.text c) <> Ok n)
  \/ (exists c, ET.find elem "preco" = Some c
                /\ forall x, py_float (ET.text c) <> Ok x).

(** Removal with first-match semantics, in the words of the specification:
    only the first record with the id [n], in document order, is excluded.
    It is compared below with what [deletar_aparelho] does. *)
Fixpoint remover_primeiro (n : Z) (aparelhos : list dict) : list dict :=
  match aparelhos with
  | [] => []
  | ap :: r => if com_id ap n then r else ap :: remover_primeiro n r
  end.

(** The exceptions raised by the conversion of a record. *)
Definition erro_de_registro (e : exn) : Prop :=
  e = AttributeError \/ e = TypeError \/ e = ValueError.

(** The file of [w] is the document written for [aparelhos]. *)
Definition guarda (w : world) (aparelhos : list dict) : Prop :=
  arquivo w = Some (documento aparelhos).

(** Loading from [w] gives [aparelhos] and leaves the file as it is. *)
Definition carrega (w : world) (aparelhos : list dict) : Prop :=
  exists w', carregar_aparelhos_xml w = (Ok aparelhos, w')
             /\ arquivo w' = arquivo w.

(** The document written when there is no file. *)
Definition documento_vazio : string := ET.write (ET.new "estoque").

(** The three ways [carregar_aparelhos_xml] returns a list: the file was
    missing and is created, the file was read, or the file was not
    well-formed and a warning is printed. *)
Inductive carregado (w : world) (l : list dict) (w1 : world) : Prop :=
| carregado_criado :
    arquivo w = None -> l = [] ->
    w1 = mkWorld (Some documento_vazio) (stdout w) ->
    carregado w l w1
| carregado_lido content root :
    arquivo w = Some content -> ET.parse content = Ok root ->
    ler_aparelhos (ET.findall root "aparelho") [] = Ok l -> w1 = w ->
    carregado w l w1
| carregado_ilegivel content :
    arquivo w = Some content -> ET.parse content = Raise ParseError ->
    l = [] -> w1 = mkWorld (arquivo w) (stdout w ++ [aviso]) ->
    carregado w l w1.

(** ** Vocabulary of the further properties *)

(** A text value that can be written to the file and read: [None], or a
    string (possibly empty) of characters that XML allows, in UTF-8. *)
Definition texto_simples (v : value) : Prop :=
  v = VNone \/ exists s, v = VStr s /\ ET.readable_text s = true.

(** A device dictionary whose texts can be written and read. *)
Definition registro_simples (ap : dict) : Prop :=
  exists n vn vm x vc vd,
    texto_simples vn /\ texto_simples vm
    /\ texto_simples vc /\ texto_simples vd
    /\ ap = [ ("id", VInt n); ("nome", vn); ("marca", vm);
              ("preco", VFloat x); ("categoria", vc); ("deposito", vd) ].

(** A device whose texts are made of characters that XML allows and does
    not normalise, in UTF-8; they may be empty. *)
Definition aparelho_simples (a : Aparelho) : Prop :=
  ET.plain_text (nome a) = true /\ ET.plain_text (marca a) = true
  /\ ET.plain_text (categoria a) = true /\ ET.plain_text (deposito a) = true.

(** A dictionary as the loop of [carregar_aparelhos_xml] builds it: the
    six keys, an [int], a [float], and four texts that are [None] or
    non-empty and made of characters that XML allows. *)
Definition registro_lido (ap : dict) : Prop :=
  exists n tn tm x tc td,
    ET.clean tn = true /\ ET.clean tm = true
    /\ ET.clean tc = true /\ ET.clean td = true
    /\ ap = [ ("id", VInt n); ("nome", of_text tn); ("marca", of_text tm);
              ("preco", VFloat x); ("categoria", of_text tc);
              ("deposito", of_text td) ].

(** What a value is after it has been saved and loaded: [None] was written
    as the text [None], an empty string as an empty element, which is read
    as [None], and the line ends of a string are read normalised. *)
Definition relido_valor (v : value) : value :=
  match v with
  | VNone => VStr "None"
  | VStr EmptyString => VNone
  | VStr s => VStr (ET.newlines false s)
  | _ => v
  end.

Definition relido (ap : dict) : dict :=
  map (fun kv => (fst kv, relido_valor (snd kv))) ap.

(** The ["id"] of a dictionary, when it has one that is an [int]. *)
Definition id_de (ap : dict) : option Z :=
  match getitem ap "id" with
  | Ok (VInt n) => Some n
  | _ => None
  end.

(** No two dictionaries of the list have the same id. *)
Definition ids_distintos (aparelhos : list dict) : Prop :=
  NoDup (map id_de aparelhos).

End Estoque.

(** * A small instance of the float interface

    The examples below are run on the floats of integral value and of
    magnitude below 10^16, each represented by that integer: Python prints
    such a float as the integer followed by [.0], and [float] reads such a
    text back as that number.  Texts of another form are not numbers for
    this instance. *)

Definition str_integral (n : Z) : string := str_int n ++ ".0".

Definition integral_of_str (s : string) : option Z :=
  match string_rev (strip_by c_isspace s) with
  | String c0 (String c1 r) =>
      if Ascii.eqb c0 "0" && Ascii.eqb c1 "." then
        match int_of_signed (string_rev r) with
        | Ok n => Some n
        | Raise _ => None
        end
      else None
  | _ => None
  end.

Definition integral_floats : PyFloat Z :=
  {| str_float := str_integral; float_of_str := integral_of_str |}.

(** * Examples *)

Module Exemplos.

#[local] Existing Instance integral_floats.

Definition telefone : Aparelho :=
  mkAparelho 1 "Phone" "Acme" 200 "electronics" "WH1".

Definition radio : Aparelho :=
  mkAparelho 2 "Radio" "Bolt" 35 "audio" "WH2".

Definition guardados : list (@dict Z) :=
  [model_dump telefone; model_dump radio].

(** A file with the two devices, as [salvar_aparelhos_xml] writes it. *)
Definition mundo : world := mkWorld (Some (documento guardados)) [].

(** A well-formed document whose record has no [deposito] child. *)
Definition sem_deposito : string :=
  "<estoque><aparelho><id>1</id><nome>Phone</nome><marca>Acme</marca>"
  ++ "<preco>200.0</preco><categoria>electronics</categoria>"
  ++ "</aparelho></estoque>".

(** A well-formed document whose record has a price that is not a
    number. *)
Definition preco_invalido : string :=
  "<estoque><aparelho><id>1</id><nome>Phone</nome><marca>Acme</marca>"
  ++ "<preco>abc</preco><categoria>electronics</categoria>"
  ++ "<deposito>WH1</deposito></aparelho></estoque>".

Definition raiz_sem_deposito : ET.Element :=
  Eval vm_compute in
    match ET.parse sem_deposito with
    | Ok root => root
    | Raise _ => ET.new ""
    end.

(** A third device, not in [mundo]. *)
Definition tablet : Aparelho :=
  mkAparelho 3 "Tablet" "Acme" 450 "electronics" "WH1".

(** The phone after a full update. *)
Definition telefone_novo : Aparelho :=
  mkAparelho 1 "Phone 2" "Acme" 250 "electronics" "WH3".

(** A second record with the id of the phone. *)
Definition copia : Aparelho :=
  mkAparelho 1 "Clone" "Bolt" 10 "audio" "WH9".

Definition repetidos : list (@dict Z) :=
  [model_dump telefone; model_dump radio; model_dump copia].

(** A file in which two records share the id 1. *)
Definition mundo_repetido : world := mkWorld (Some (documento repetidos)) [].

(** A device with an empty category. *)
Definition sem_categoria : Aparelho :=
  mkAparelho 1 "Phone" "Acme" 200 "" "WH1".

(** The record of [sem_categoria] as a load returns it once the device
    has been saved: the empty category is read as [None]. *)
Definition lido_sem_categoria : @dict Z :=
  setitem (model_dump sem_categoria) "categoria" VNone.

(** The same record once it has been saved again: the [None] was written
    as a text. *)
Definition lido_None : @dict Z :=
  setitem (model_dump sem_categoria) "categoria" (VStr "None").

(** The radio after a transfer. *)
Definition radio_transferido : @dict Z :=
  setitem (model_dump radio) "deposito" (VStr "WH9").

(** A device whose name holds the control character of code 1. *)
Definition nome_com_controle : Aparelho :=
  mkAparelho 1 (String (ascii_of_N 1) "Phone") "Acme" 200 "electronics" "WH1".

(** A document written by hand: a character reference for the carriage
    return in the name, and an empty category. *)
Definition com_referencia : string :=
  "<estoque><aparelho><id>1</id><nome>a&#13;b</nome><marca>Acme</marca>"
  ++ "<preco>200.0</preco><categoria /><deposito>WH1</deposito>"
  ++ "</aparelho></estoque>".

Definition mundo_com_referencia : world := mkWorld (Some com_referencia) [].

(** The record that is loaded from it. *)
Definition lido_com_retorno : @dict Z :=
  [ ("id", VInt 1); ("nome", VStr (String "a" (String CR "b")));
    ("marca", VStr "Acme"); ("preco", VFloat 200);
    ("categoria", VNone); ("deposito", VStr "WH1") ].

(** A file that is not well-formed: the element is never closed. *)
Definition mundo_ilegivel : world := mkWorld (Some "<estoque><aparelho>") [].

End Exemplos.

(** * Properties *)

(** ** Strings *)

Lemma append_assoc s t u : ((s ++ t) ++ u = s ++ (t ++ u))%string.
Proof. induction s as [ | c r IH ]; simpl; [ | rewrite IH ]; reflexivity. Qed.

Lemma string_rev_onto_app s acc :
  string_rev_onto s acc = (string_rev_onto s "" ++ acc)%string.
Proof.
  revert acc. induction s as [ | c r IH ]; intros acc; simpl; [ reflexivity | ].
  rewrite IH, (IH (String c "")), append_assoc. reflexivity.
Qed.

Lemma string_rev_onto_rev s :
  forall a b, string_rev_onto (string_rev_onto s a) b
              = string_rev_onto a (s ++ b)%string.
Proof.
  induction s as [ | c r IH ]; intros a b; simpl; [ reflexivity | ].
  rewrite IH. reflexivity.
Qed.

Lemma string_rev_involutive s : string_rev (string_rev s) = s.
Proof.
  unfold string_rev. rewrite string_rev_onto_rev. simpl.
  induction s as [ | c r IH ]; simpl; [ reflexivity | ].
  rewrite IH. reflexivity.
Qed.

Lemma append_nil_r s : (s ++ "")%string = s.
Proof. induction s as [ | c r IH ]; simpl; [ | rewrite IH ]; reflexivity. Qed.

Lemma string_rev_app s t :
  string_rev (s ++ t) = (string_rev t ++ string_rev s)%string.
Proof.
  unfold string_rev. revert t. induction s as [ | c r IH ]; intros t; simpl.
  - rewrite append_nil_r. reflexivity.
  - rewrite string_rev_onto_app, IH, (string_rev_onto_app r (String c "")).
    rewrite append_assoc. reflexivity.
Qed.

(** Stripping leaves alone a text that neither starts nor ends with
    whitespace. *)
Lemma strip_clean space c r c' r' :
  space c = false -> string_rev (String c r) = String c' r' ->
  space c' = false ->
  strip_by space (String c r) = String c r.
Proof.
  intros Hc Hr Hc'. unfold strip_by, rstrip_by. cbn [lstrip_by].
  rewrite Hc, Hr. cbn [lstrip_by]. rewrite Hc', <- Hr.
  apply string_rev_involutive.
Qed.

(** ** UTF-8 *)

Lemma utf8_run_app a b st :
  utf8_run st (a ++ b)
  = match utf8_run st a with
    | Some st' => utf8_run st' b
    | None => None
    end.
Proof.
  revert st. induction a as [ | c r IH ]; intros st; simpl; [ reflexivity | ].
  destruct (utf8_step st c); [ apply IH | reflexivity ].
Qed.

Lemma utf8_ok_app a b :
  utf8_ok a = true -> utf8_ok b = true -> utf8_ok (a ++ b) = true.
Proof.
  unfold utf8_ok. rewrite utf8_run_app.
  destruct (utf8_run Between a) as [ [ ] | ]; try discriminate.
  intros _ H. exact H.
Qed.

(** A byte of the ASCII range stands for itself, between two characters
    only. *)
Lemma utf8_step_ascii st c :
  (byte_of c <? 128)%N = true ->
  utf8_step st c = match st with Between => Some Between | _ => None end.
Proof.
  intros H. apply N.ltb_lt in H.
  assert (G : forall lo hi, (128 <= lo)%N -> within lo hi (byte_of c) = false).
  { intros lo hi Hlo. unfold within. apply andb_false_iff. left.
    apply N.leb_gt. lia. }
  assert (E : forall k, (128 <= k)%N -> (byte_of c =? k)%N = false).
  { intros k Hk. apply N.eqb_neq. lia. }
  destruct st as [ | [ | [ | k ] ] | | | | | | ]; cbn [utf8_step];
    rewrite ?G, ?E by lia; try reflexivity.
  apply N.ltb_lt in H. rewrite H. reflexivity.
Qed.

Lemma utf8_ok_ascii s :
  string_forallb (fun c => (byte_of c <? 128)%N) s = true -> utf8_ok s = true.
Proof.
  unfold utf8_ok. induction s as [ | c r IH ];
    cbn [utf8_run string_forallb]; [ reflexivity | ].
  intros H. apply andb_true_iff in H. destruct H as [ Hc Hr ].
  rewrite (utf8_step_ascii Between c Hc). exact (IH Hr).
Qed.

Lemma byte_of_high n : byte_of (high n) = (128 + n mod 128)%N.
Proof.
  unfold byte_of, high. apply N_ascii_embedding.
  pose proof (N.mod_upper_bound n 128). lia.
Qed.

(** ** The text form of an integer *)

Lemma digit_not_space c : is_digit c = true -> c_isspace c = false.
Proof.
  unfold is_digit, c_isspace, byte_of. intros H.
  apply andb_true_iff in H. destruct H as [ H1 H2 ].
  apply N.leb_le in H1, H2.
  apply orb_false_iff. split.
  - apply andb_false_iff. right. apply N.leb_gt. lia.
  - apply N.eqb_neq. lia.
Qed.

Lemma digit_ascii c : is_digit c = true -> (byte_of c <? 127)%N = true.
Proof.
  unfold is_digit. intros H. apply andb_true_iff in H.
  destruct H as [ _ H ]. apply N.leb_le in H. apply N.ltb_lt. lia.
Qed.

(** A text of the ASCII range is not changed on the way to [int()]. *)
Lemma to_ascii_ascii s :
  string_forallb (fun c => (byte_of c <? 127)%N) s = true ->
  to_ascii None s = s.
Proof.
  induction s as [ | c r IH ]; simpl; [ reflexivity | ].
  intros H. apply andb_true_iff in H. destruct H as [ Hc Hr ].
  rewrite Hc, (IH Hr). reflexivity.
Qed.

Lemma forallb_weaken (p q : ascii -> bool) s :
  (forall c, p c = true -> q c = true) ->
  string_forallb p s = true -> string_forallb q s = true.
Proof.
  intros Hpq. induction s as [ | c r IH ]; simpl; [ reflexivity | ].
  intros H. apply andb_true_iff in H. destruct H as [ Hc Hr ].
  rewrite (Hpq c Hc), (IH Hr). reflexivity.
Qed.

Lemma digits_of_uint u :
  string_forallb is_digit (NilEmpty.string_of_uint u) = true.
Proof. induction u; simpl; try reflexivity; exact IHu. Qed.

Lemma digits_ok_digits s :
  string_forallb is_digit s = true -> digits_ok true s = true.
Proof.
  induction s as [ | c r IH ]; simpl; [ reflexivity | ].
  intros H. apply andb_true_iff in H. destruct H as [ Hc Hr ].
  rewrite Hc. exact (IH Hr).
Qed.

Lemma drop_underscores_digits s :
  string_forallb is_digit s = true -> drop_underscores s = s.
Proof.
  induction s as [ | c r IH ]; simpl; [ reflexivity | ].
  intros H. apply andb_true_iff in H. destruct H as [ Hc Hr ].
  destruct (Ascii.eqb c underscore) eqn:E.
  - apply Ascii.eqb_eq in E. subst c. discriminate Hc.
  - rewrite (IH Hr). reflexivity.
Qed.

Lemma string_of_uint_nonnil u :
  u <> Nil ->
  exists c r, NilEmpty.string_of_uint u = String c r /\ is_digit c = true.
Proof.
  destruct u; intros H; [ contradiction | .. ]; simpl; eauto.
Qed.

Lemma int_of_digits_uint u :
  u <> Nil ->
  int_of_digits (NilEmpty.string_of_uint u) = Ok (Z.of_uint u).
Proof.
  intros Hu. unfold int_of_digits.
  pose proof (digits_of_uint u) as Hd.
  destruct (string_of_uint_nonnil u Hu) as [ c [ r [ E Hc ] ] ].
  rewrite (drop_underscores_digits _ Hd).
  assert (Hok : digits_ok false (NilEmpty.string_of_uint u) = true).
  { rewrite E in Hd |- *. simpl in Hd |- *. rewrite Hc.
    apply andb_true_iff in Hd. apply digits_ok_digits. exact (proj2 Hd). }
  rewrite Hok. unfold NilZero.uint_of_string. rewrite E, <- E.
  rewrite NilEmpty.usu. reflexivity.
Qed.

(** The last character of the digits of a number is a digit. *)
Lemma last_of_digits s :
  string_forallb is_digit s = true -> s <> EmptyString ->
  exists c r, string_rev s = String c r /\ is_digit c = true.
Proof.
  intros Hd Hs.
  assert (G : forall t acc,
             string_forallb is_digit t = true ->
             string_forallb is_digit acc = true ->
             string_forallb is_digit (string_rev_onto t acc) = true).
  { induction t as [ | c r IH ]; intros acc Ht Hacc; simpl; [ exact Hacc | ].
    simpl in Ht. apply andb_true_iff in Ht. destruct Ht as [ Hc Hr ].
    apply IH; [ exact Hr | ]. simpl. rewrite Hc. exact Hacc. }
  pose proof (G s "" Hd eq_refl) as Hrev. fold (string_rev s) in Hrev.
  destruct (string_rev s) as [ | c r ] eqn:E.
  - apply (f_equal string_rev) in E. rewrite string_rev_involutive in E.
    contradiction.
  - simpl in Hrev. apply andb_true_iff in Hrev. exists c, r.
    split; [ reflexivity | exact (proj1 Hrev) ].
Qed.

Lemma str_int_pos p :
  str_int (Z.pos p) = NilEmpty.string_of_uint (Pos.to_uint p).
Proof.
  unfold str_int. cbn [Z.to_int NilZero.string_of_int].
  unfold NilZero.string_of_uint.
  pose proof (DecimalPos.Unsigned.to_uint_nonnil p) as H.
  destruct (Pos.to_uint p); [ contradiction | reflexivity .. ].
Qed.

Lemma str_int_neg p :
  str_int (Z.neg p) = String "-" (NilEmpty.string_of_uint (Pos.to_uint p)).
Proof.
  rewrite <- str_int_pos. reflexivity.
Qed.

Lemma of_uint_to_uint p : Z.of_uint (Pos.to_uint p) = Z.pos p.
Proof.
  unfold Z.of_uint. rewrite DecimalPos.Unsigned.of_to. reflexivity.
Qed.

(** The text of an integer starts with a sign or a digit and ends with a
    digit. *)
Lemma str_int_ends n :
  exists c r c' r',
    str_int n = String c r /\ c_isspace c = false
    /\ string_rev (str_int n) = String c' r' /\ c_isspace c' = false.
Proof.
  destruct n as [ | p | p ].
  - exists "0"%char, ""%string, "0"%char, ""%string. repeat split; reflexivity.
  - rewrite str_int_pos.
    pose proof (DecimalPos.Unsigned.to_uint_nonnil p) as Hn.
    pose proof (digits_of_uint (Pos.to_uint p)) as Hd.
    destruct (string_of_uint_nonnil _ Hn) as [ c [ r [ E Hc ] ] ].
    destruct (last_of_digits _ Hd) as [ c' [ r' [ E' Hc' ] ] ].
    { rewrite E. discriminate. }
    exists c, r, c', r'. split; [ exact E | ].
    split; [ exact (digit_not_space c Hc) | ].
    split; [ exact E' | exact (digit_not_space c' Hc') ].
  - rewrite str_int_neg.
    pose proof (DecimalPos.Unsigned.to_uint_nonnil p) as Hn.
    pose proof (digits_of_uint (Pos.to_uint p)) as Hd.
    destruct (last_of_digits _ Hd) as [ c' [ r' [ E' Hc' ] ] ].
    { destruct (string_of_uint_nonnil _ Hn) as [ c [ r [ E _ ] ] ].
      rewrite E. discriminate. }
    exists "-"%char, (NilEmpty.string_of_uint (Pos.to_uint p)), c',
      (r' ++ "-")%string.
    split; [ reflexivity | ]. split; [ reflexivity | ].
    split; [ | exact (digit_not_space c' Hc') ].
    change (String "-" (NilEmpty.string_of_uint (Pos.to_uint p)))
      with ("-" ++ NilEmpty.string_of_uint (Pos.to_uint p))%string.
    rewrite string_rev_app, E'. reflexivity.
Qed.

Lemma strip_str_int n : strip_by c_isspace (str_int n) = str_int n.
Proof.
  destruct (str_int_ends n) as [ c [ r [ c' [ r' [ E [ Hc [ E' Hc' ] ] ] ] ] ] ].
  rewrite E in E' |- *. exact (strip_clean c_isspace c r c' r' Hc E' Hc').
Qed.

(** The text of an integer is made of a sign and digits. *)
Lemma str_int_ascii n :
  string_forallb (fun c => (byte_of c <? 127)%N) (str_int n) = true.
Proof.
  destruct n as [ | p | p ]; [ reflexivity | | ].
  - rewrite str_int_pos.
    exact (forallb_weaken _ _ _ digit_ascii (digits_of_uint _)).
  - rewrite str_int_neg. cbn [string_forallb].
    rewrite (forallb_weaken _ _ _ digit_ascii (digits_of_uint _)).
    reflexivity.
Qed.

Lemma int_of_signed_str_int n : int_of_signed (str_int n) = Ok n.
Proof.
  destruct n as [ | p | p ]; [ reflexivity | | ].
  - rewrite str_int_pos.
    pose proof (DecimalPos.Unsigned.to_uint_nonnil p) as Hn.
    destruct (string_of_uint_nonnil _ Hn) as [ c [ r [ E Hc ] ] ].
    unfold int_of_signed. rewrite E.
    destruct (Ascii.eqb c "-") eqn:E1.
    { apply Ascii.eqb_eq in E1. subst c. discriminate Hc. }
    destruct (Ascii.eqb c "+") eqn:E2.
    { apply Ascii.eqb_eq in E2. subst c. discriminate Hc. }
    rewrite <- E, (int_of_digits_uint _ Hn), of_uint_to_uint. reflexivity.
  - rewrite str_int_neg.
    pose proof (DecimalPos.Unsigned.to_uint_nonnil p) as Hn.
    unfold int_of_signed. cbn [Ascii.eqb Bool.eqb].
    rewrite (int_of_digits_uint _ Hn), of_uint_to_uint. reflexivity.
Qed.

(** [int(str(n)) == n] *)
Lemma int_of_str_str_int n : int_of_str (str_int n) = Ok n.
Proof.
  unfold int_of_str. rewrite (to_ascii_ascii _ (str_int_ascii n)).
  rewrite strip_str_int. apply int_of_signed_str_int.
Qed.

(** * Writing a tree and reading it back *)

Module ETFacts.

Import ET.

(** Induction on trees, with the hypothesis on every child. *)
Lemma Element_induction (P : Element -> Prop) :
  (forall t x tl cs, Forall P cs -> P (mkElement t x tl cs)) ->
  forall e, P e.
Proof.
  intros H. fix IH 1. intros [ t x tl cs ]. apply H.
  induction cs as [ | c r IHr ]; constructor; [ apply IH | exact IHr ].
Qed.

(** ** Line ends *)

Lemma newlines_nonempty c r : newlines false (String c r) <> EmptyString.
Proof.
  cbn [newlines]. destruct (Ascii.eqb c CR); [ discriminate | ].
  destruct (Ascii.eqb c LF); discriminate.
Qed.

Lemma plain_not_cr c : plain_char c = true -> Ascii.eqb c CR = false.
Proof.
  intros H. destruct (Ascii.eqb c CR) eqn:E; [ | reflexivity ].
  apply Ascii.eqb_eq in E. subst c. discriminate H.
Qed.

(** A text without carriage return is read back as it is. *)
Lemma newlines_plain s :
  string_forallb plain_char s = true -> newlines false s = s.
Proof.
  induction s as [ | c r IH ]; cbn [newlines string_forallb];
    [ reflexivity | ].
  intros H. apply andb_true_iff in H. destruct H as [ Hc Hr ].
  rewrite (plain_not_cr c Hc), (IH Hr).
  destruct (Ascii.eqb c LF) eqn:E; [ | reflexivity ].
  apply Ascii.eqb_eq in E. subst c. reflexivity.
Qed.

Lemma newlines_without_cr s :
  string_forallb (fun c => negb (Ascii.eqb c CR)) s = true ->
  newlines false s = s.
Proof.
  induction s as [ | c r IH ]; cbn [newlines string_forallb];
    [ reflexivity | ].
  intros H. apply andb_true_iff in H. destruct H as [ Hc Hr ].
  apply negb_true_iff in Hc. rewrite Hc, (IH Hr).
  destruct (Ascii.eqb c LF) eqn:E; [ | reflexivity ].
  apply Ascii.eqb_eq in E. subst c. reflexivity.
Qed.

Lemma plain_readable_char c : plain_char c = true -> readable_char c = true.
Proof.
  unfold plain_char, readable_char. intros ->. reflexivity.
Qed.

Lemma plain_readable s : plain_text s = true -> readable_text s = true.
Proof.
  unfold plain_text, readable_text. intros H. apply andb_true_iff in H.
  destruct H as [ Hc Hu ].
  rewrite (forallb_weaken _ _ _ plain_readable_char Hc), Hu. reflexivity.
Qed.

Lemma newlines_plain_text s : plain_text s = true -> newlines false s = s.
Proof.
  unfold plain_text. intros H. apply andb_true_iff in H.
  exact (newlines_plain s (proj1 H)).
Qed.

(** The line ends are bytes of the ASCII range: normalising them keeps
    the text UTF-8. *)
Lemma utf8_run_newlines s :
  forall st cr,
    (cr = true -> st = Between) ->
    utf8_run st (newlines cr s) = utf8_run st s.
Proof.
  induction s as [ | c r IH ]; intros st cr Hcr; [ reflexivity | ].
  cbn [newlines].
  destruct (Ascii.eqb c CR) eqn:Ecr.
  { apply Ascii.eqb_eq in Ecr. subst c. cbn [utf8_run].
    rewrite (utf8_step_ascii st LF eq_refl), (utf8_step_ascii st CR eq_refl).
    destruct st; try reflexivity. apply IH. reflexivity. }
  destruct (Ascii.eqb c LF) eqn:Elf.
  { apply Ascii.eqb_eq in Elf. subst c. cbn [utf8_run].
    rewrite (utf8_step_ascii st LF eq_refl).
    destruct cr.
    - rewrite (Hcr eq_refl). apply IH. discriminate.
    - cbn [utf8_run]. rewrite (utf8_step_ascii st LF eq_refl).
      destruct st; try reflexivity. apply IH. discriminate. }
  cbn [utf8_run]. destruct (utf8_step st c); [ | reflexivity ].
  apply IH. discriminate.
Qed.

Lemma utf8_ok_newlines s : utf8_ok (newlines false s) = utf8_ok s.
Proof.
  unfold utf8_ok. rewrite utf8_run_newlines; [ reflexivity | discriminate ].
Qed.

Lemma readable_newlines s :
  forall cr, string_forallb readable_char s = true ->
             string_forallb plain_char (newlines cr s) = true.
Proof.
  induction s as [ | c r IH ]; intros cr; cbn [newlines string_forallb];
    [ reflexivity | ].
  intros H. apply andb_true_iff in H. destruct H as [ Hc Hr ].
  destruct (Ascii.eqb c CR) eqn:Ecr.
  { cbn [string_forallb]. rewrite (IH true Hr). reflexivity. }
  destruct (Ascii.eqb c LF) eqn:Elf.
  { destruct cr; [ exact (IH false Hr) | ].
    cbn [string_forallb]. rewrite (IH false Hr). reflexivity. }
  cbn [string_forallb]. rewrite (IH false Hr), andb_true_r.
  unfold readable_char in Hc. rewrite Ecr, orb_false_r in Hc. exact Hc.
Qed.

(** What is read back has no carriage return. *)
Lemma plain_newlines s :
  readable_text s = true -> plain_text (newlines false s) = true.
Proof.
  unfold readable_text, plain_text. intros H. apply andb_true_iff in H.
  destruct H as [ Hc Hu ].
  rewrite (readable_newlines s false Hc), utf8_ok_newlines, Hu. reflexivity.
Qed.

(** ** Character data *)

Lemma emit_prepend t l r : emit t (prepend l r) = prepend (t :: l) r.
Proof. destruct r; reflexivity. Qed.

Lemma prepend_prepend l1 l2 r :
  prepend l1 (prepend l2 r) = prepend (l1 ++ l2) r.
Proof. destruct r; simpl; [ rewrite app_assoc | | ]; reflexivity. Qed.

Lemma prepend_nil r : prepend [] r = r.
Proof. destruct r; reflexivity. Qed.

Lemma lex_at_boundary cr brackets buf rest :
  boundary rest ->
  lex (InText cr brackets) buf rest = flush buf (scan rest).
Proof.
  intros [ -> | [ r -> ] ]; reflexivity.
Qed.

(** Escaped character data is read back with its line ends normalised.
    [buf] holds what was read before, last character first. *)
Lemma lex_escaped s :
  string_forallb readable_char s = true ->
  forall cr brackets buf rest,
    boundary rest ->
    lex (InText cr brackets) buf (escape_cdata s ++ rest)
    = prepend (references s)
        (flush (string_rev_onto (newlines cr s) buf) (scan rest)).
Proof.
  induction s as [ | c r IH ]; intros Hs cr brackets buf rest Hb.
  - simpl. rewrite prepend_nil. apply lex_at_boundary. exact Hb.
  - cbn [string_forallb] in Hs. apply andb_true_iff in Hs.
    destruct Hs as [ Hc Hr ].
    cbn [escape_cdata references].
    destruct (Ascii.eqb c "&") eqn:Eamp.
    { apply Ascii.eqb_eq in Eamp. subst c. cbn.
      rewrite IH by assumption. apply emit_prepend. }
    destruct (Ascii.eqb c "<") eqn:Elt.
    { apply Ascii.eqb_eq in Elt. subst c. cbn.
      rewrite IH by assumption. apply emit_prepend. }
    destruct (Ascii.eqb c ">") eqn:Egt.
    { apply Ascii.eqb_eq in Egt. subst c. cbn.
      rewrite IH by assumption. apply emit_prepend. }
    cbn [String.append lex newlines orb]. rewrite Elt, Eamp, Egt.
    unfold readable_char in Hc.
    destruct (Ascii.eqb c CR) eqn:Ecr.
    { cbn [string_rev_onto]. apply IH; assumption. }
    destruct (Ascii.eqb c LF) eqn:Elf.
    { apply Ascii.eqb_eq in Elf. subst c.
      destruct cr; cbn [string_rev_onto]; apply IH; assumption. }
    rewrite !orb_false_r in Hc. rewrite Hc. cbn [string_rev_onto].
    destruct (Ascii.eqb c "]"); apply IH; assumption.
Qed.

(** ** Tags *)

Lemma name_start_not c d :
  name_start c = true -> name_start d = false -> Ascii.eqb c d = false.
Proof.
  intros Hc Hd. destruct (Ascii.eqb c d) eqn:E; [ | reflexivity ].
  apply Ascii.eqb_eq in E. subst d. congruence.
Qed.

Lemma name_char_not c d :
  name_char c = true -> name_char d = false -> Ascii.eqb c d = false.
Proof.
  intros Hc Hd. destruct (Ascii.eqb c d) eqn:E; [ | reflexivity ].
  apply Ascii.eqb_eq in E. subst d. congruence.
Qed.

Lemma lex_start_name_chars r :
  string_forallb name_char r = true ->
  forall rname rest,
    lex (InStartName rname) "" (r ++ rest)
    = lex (InStartName (string_rev_onto r rname)) "" rest.
Proof.
  induction r as [ | c r IH ]; intros H rname rest; [ reflexivity | ].
  simpl in H. apply andb_true_iff in H. destruct H as [ Hc Hr ].
  cbn [String.append lex string_rev_onto]. rewrite Hc. apply IH. exact Hr.
Qed.

Lemma lex_end_name_chars r :
  string_forallb name_char r = true ->
  forall rname rest,
    lex (InEndName rname) "" (r ++ rest)
    = lex (InEndName (string_rev_onto r rname)) "" rest.
Proof.
  induction r as [ | c r IH ]; intros H rname rest; [ reflexivity | ].
  simpl in H. apply andb_true_iff in H. destruct H as [ Hc Hr ].
  cbn [String.append lex string_rev_onto]. rewrite Hc. apply IH. exact Hr.
Qed.

Lemma string_rev_name c r :
  string_rev (string_rev_onto r (String c "")) = String c r.
Proof.
  unfold string_rev. rewrite string_rev_onto_rev. simpl.
  rewrite append_nil_r. reflexivity.
Qed.

Lemma lex_start_tag t rest :
  plain_name t = true ->
  lex AfterLt "" (t ++ String ">" rest) = emit (TStart t) (scan rest).
Proof.
  destruct t as [ | c r ]; [ discriminate | ]. intros H.
  simpl in H. apply andb_true_iff in H. destruct H as [ Hc Hr ].
  cbn [String.append lex].
  rewrite (name_start_not c "/" Hc eq_refl), (name_start_not c "?" Hc eq_refl),
    (name_start_not c "!" Hc eq_refl), Hc.
  cbn [orb]. rewrite (lex_start_name_chars _ Hr). cbn [lex].
  change (name_char ">") with false. change (foreign_name_char ">") with false.
  cbn [Ascii.eqb Bool.eqb]. rewrite string_rev_name. reflexivity.
Qed.

Lemma lex_empty_tag t rest :
  plain_name t = true ->
  lex AfterLt "" (t ++ String " " (String "/" (String ">" rest)))
  = emit (TEmptyTag t) (scan rest).
Proof.
  destruct t as [ | c r ]; [ discriminate | ]. intros H.
  simpl in H. apply andb_true_iff in H. destruct H as [ Hc Hr ].
  cbn [String.append lex].
  rewrite (name_start_not c "/" Hc eq_refl), (name_start_not c "?" Hc eq_refl),
    (name_start_not c "!" Hc eq_refl), Hc.
  cbn [orb]. rewrite (lex_start_name_chars _ Hr). cbn [lex].
  change (name_char " ") with false. change (foreign_name_char " ") with false.
  change (xml_space " ") with true. change (xml_space "/") with false.
  cbn [Ascii.eqb Bool.eqb]. rewrite string_rev_name. reflexivity.
Qed.

Lemma lex_end_tag t rest :
  plain_name t = true ->
  lex AfterLt "" (String "/" (t ++ String ">" rest))
  = emit (TEnd t) (scan rest).
Proof.
  destruct t as [ | c r ]; [ discriminate | ]. intros H.
  simpl in H. apply andb_true_iff in H. destruct H as [ Hc Hr ].
  cbn [String.append lex Ascii.eqb Bool.eqb]. rewrite Hc.
  rewrite (lex_end_name_chars _ Hr). cbn [lex].
  change (name_char ">") with false. change (foreign_name_char ">") with false.
  cbn [Ascii.eqb Bool.eqb]. rewrite string_rev_name. reflexivity.
Qed.

Lemma scan_end_tag t rest :
  plain_name t = true ->
  scan (String "<" (String "/" (t ++ String ">" rest)))
  = emit (TEnd t) (scan rest).
Proof.
  intros H. rewrite <- (lex_end_tag t rest H). reflexivity.
Qed.

(** ** Tokens of a serialised tree *)

Lemma string_rev_nonempty s :
  s <> EmptyString -> exists c r, string_rev s = String c r.
Proof.
  intros Hs. destruct (string_rev s) as [ | c r ] eqn:E; [ | eauto ].
  apply (f_equal string_rev) in E. rewrite string_rev_involutive in E.
  contradiction.
Qed.

(** A non-empty run of character data in UTF-8 becomes one token. *)
Lemma flush_rev s r :
  s <> EmptyString -> utf8_ok s = true ->
  flush (string_rev s) r = emit (TText s) r.
Proof.
  intros Hs Hu. destruct (string_rev_nonempty s Hs) as [ c [ b E ] ].
  rewrite E. cbn [flush]. rewrite <- E, string_rev_involutive, Hu.
  reflexivity.
Qed.

Lemma scan_data x rest :
  readable x = true -> boundary rest ->
  scan (written x ++ rest) = prepend (data_tokens x) (scan rest).
Proof.
  intros Hx Hb. destruct x as [ s | ]; [ | simpl; rewrite prepend_nil; reflexivity ].
  cbn [readable] in Hx. unfold readable_text in Hx.
  apply andb_true_iff in Hx. destruct Hx as [ Hc Hu ].
  unfold scan at 1. cbn [written].
  rewrite (lex_escaped s Hc false 0 "" rest Hb).
  destruct s as [ | c r ]; [ simpl; rewrite prepend_nil; reflexivity | ].
  fold (string_rev (newlines false (String c r))).
  rewrite flush_rev.
  - cbn [data_tokens].
    destruct (scan rest); cbn [emit prepend]; [ rewrite <- app_assoc | | ];
      reflexivity.
  - apply newlines_nonempty.
  - rewrite utf8_ok_newlines. exact Hu.
Qed.

Lemma serialize_app t x tl cs rest :
  (serialize (mkElement t x tl cs) ++ rest)%string
  = String "<"
      (t ++ (if truthy x || negb (Nat.eqb (List.length cs) 0)
             then String ">"
                    (written x
                     ++ (String.concat "" (List.map serialize cs)
                         ++ String "<" (String "/"
                              (t ++ String ">" (written tl ++ rest)))))
             else String " " (String "/" (String ">" (written tl ++ rest)))))%string.
Proof.
  cbn [serialize].
  destruct (truthy x || negb (Nat.eqb (List.length cs) 0));
    repeat (first [ rewrite append_assoc | progress cbn [String.append] ]);
    reflexivity.
Qed.

Lemma serialize_starts e rest : boundary (serialize e ++ rest).
Proof.
  destruct e as [ t x tl cs ]. right. rewrite serialize_app. eauto.
Qed.

Lemma concat_cons x l :
  String.concat "" (x :: l) = (x ++ String.concat "" l)%string.
Proof.
  destruct l as [ | y r ]; simpl; [ rewrite append_nil_r | ]; reflexivity.
Qed.

Lemma scan_children cs :
  Forall (fun c => readable_tree c = true ->
                   forall rest, boundary rest ->
                     scan (serialize c ++ rest) = prepend (tokens c) (scan rest))
    cs ->
  List.forallb readable_tree cs = true ->
  forall rest, boundary rest ->
    scan (String.concat "" (List.map serialize cs) ++ rest)
    = prepend (List.flat_map tokens cs) (scan rest).
Proof.
  induction 1 as [ | c r Hc _ IH ]; intros Hp rest Hb.
  - simpl. rewrite prepend_nil. reflexivity.
  - simpl in Hp. apply andb_true_iff in Hp. destruct Hp as [ Hpc Hpr ].
    cbn [List.map List.flat_map]. rewrite concat_cons, append_assoc.
    rewrite (Hc Hpc).
    + rewrite (IH Hpr rest Hb), prepend_prepend. reflexivity.
    + destruct r as [ | c' r' ]; [ exact Hb | ].
      cbn [List.map]. rewrite concat_cons, append_assoc.
      apply serialize_starts.
Qed.

(** The tokenizer reads the serialisation of a readable tree as the
    tokens of the tree. *)
Lemma scan_tree e :
  readable_tree e = true ->
  forall rest, boundary rest ->
    scan (serialize e ++ rest) = prepend (tokens e) (scan rest).
Proof.
  induction e as [ t x tl cs IH ] using Element_induction.
  intros Hp rest Hb. cbn [readable_tree] in Hp.
  repeat (apply andb_true_iff in Hp; destruct Hp as [ Hp ? ]).
  rewrite serialize_app. unfold scan at 1. cbn [lex Ascii.eqb Bool.eqb flush].
  cbn [tokens].
  assert (Htl : scan (written tl ++ rest) = prepend (data_tokens tl) (scan rest))
    by (apply scan_data; assumption).
  destruct (truthy x || negb (Nat.eqb (List.length cs) 0)).
  - rewrite lex_start_tag by assumption.
    rewrite scan_data; [ | assumption | ].
    + rewrite scan_children; [ | assumption | assumption | right; eauto ].
      rewrite scan_end_tag by assumption. rewrite Htl.
      destruct (scan rest); cbn [prepend emit]; try reflexivity.
      f_equal. repeat (first [ rewrite <- app_assoc | progress simpl ]).
      reflexivity.
    + destruct cs as [ | c r ]; [ right; simpl; eauto | ].
      cbn [List.map]. rewrite concat_cons, append_assoc. apply serialize_starts.
  - rewrite lex_empty_tag by assumption. rewrite Htl, emit_prepend. reflexivity.
Qed.

(** ** The tree built from the tokens *)

Lemma reread_truthy x : truthy x = false -> reread_text x = None.
Proof. destruct x as [ [ | c r ] | ]; [ reflexivity | discriminate | reflexivity ]. Qed.

(** Inside an element the marks of the references are passed over. *)
Lemma build_references s toks f fs root :
  build (references s ++ toks) (f :: fs) root = build toks (f :: fs) root.
Proof.
  induction s as [ | c r IH ]; [ reflexivity | ]. cbn [references].
  destruct (Ascii.eqb c "&" || Ascii.eqb c "<" || Ascii.eqb c ">");
    [ cbn [List.app build] | ]; exact IH.
Qed.

(** The text of an element that has just been opened. *)
Lemma build_text x toks t fs root :
  build (data_tokens x ++ toks) (mkFrame t None [] :: fs) root
  = build toks (mkFrame t (reread_text x) [] :: fs) root.
Proof.
  destruct x as [ [ | c r ] | ]; try reflexivity.
  cbn [data_tokens]. rewrite <- app_assoc, build_references. reflexivity.
Qed.

(** The tail of the child that has just been closed. *)
Lemma build_tail tl toks t x cs p ps root :
  build (data_tokens tl ++ toks)
    (add_kid (mkElement t x None cs) p :: ps) root
  = build toks (add_kid (mkElement t x (reread_text tl) cs) p :: ps) root.
Proof.
  destruct tl as [ [ | c r ] | ]; try reflexivity.
  cbn [data_tokens]. rewrite <- app_assoc, build_references. reflexivity.
Qed.

Lemma build_children cs :
  Forall (fun c => forall toks p ps root,
              build (tokens c ++ toks) (p :: ps) root
              = build toks (add_kid (reread c) p :: ps) root) cs ->
  forall toks f fs root,
    build (List.flat_map tokens cs ++ toks) (f :: fs) root
    = build toks
        (mkFrame (ftag f) (ftext f) (List.rev (List.map reread cs) ++ fkids f)
         :: fs) root.
Proof.
  induction 1 as [ | c r Hc _ IH ]; intros toks f fs root.
  - destruct f; reflexivity.
  - cbn [List.flat_map List.map List.rev]. rewrite <- app_assoc, Hc, IH.
    unfold add_kid. cbn [ftag ftext fkids]. rewrite <- app_assoc. reflexivity.
Qed.

Lemma build_tree e :
  forall toks p ps root,
    build (tokens e ++ toks) (p :: ps) root
    = build toks (add_kid (reread e) p :: ps) root.
Proof.
  induction e as [ t x tl cs IH ] using Element_induction.
  intros toks p ps root. cbn [tokens reread].
  destruct (truthy x || negb (Nat.eqb (List.length cs) 0)) eqn:E.
  - repeat (first [ rewrite <- app_assoc | progress cbn [List.app] ]).
    cbn [build]. rewrite build_text, (build_children cs IH).
    cbn [ftag ftext fkids List.app build]. rewrite String.eqb_refl.
    unfold close. cbn [ftag ftext fkids].
    rewrite app_nil_r, rev_involutive. apply build_tail.
  - apply orb_false_iff in E. destruct E as [ Ex Ec ].
    destruct cs as [ | c r ]; [ | discriminate Ec ].
    rewrite (reread_truthy x Ex). cbn [List.app build List.map]. unfold new.
    apply build_tail.
Qed.

(** The document element. *)
Lemma build_root e :
  truthy (tail e) = false ->
  build (tokens e) [] None = Parsed (reread e).
Proof.
  destruct e as [ t x tl cs ]. cbn [tail]. intros Htl.
  assert (Hd : data_tokens tl = []).
  { destruct tl as [ [ | c r ] | ]; [ reflexivity | discriminate | reflexivity ]. }
  cbn [tokens reread]. rewrite Hd, app_nil_r, (reread_truthy tl Htl).
  destruct (truthy x || negb (Nat.eqb (List.length cs) 0)) eqn:E.
  - cbn [build]. rewrite build_text.
    rewrite (build_children cs).
    + cbn [ftag ftext fkids build]. rewrite String.eqb_refl.
      unfold close. cbn [ftag ftext fkids].
      rewrite app_nil_r, rev_involutive. reflexivity.
    + apply Forall_forall. intros c _. apply build_tree.
  - apply orb_false_iff in E. destruct E as [ Ex Ec ].
    destruct cs as [ | c r ]; [ | discriminate Ec ].
    rewrite (reread_truthy x Ex). reflexivity.
Qed.

(** ** Writing then parsing *)

Lemma after_declaration_written body :
  after_declaration (xml_declaration ++ body) = Parsed body.
Proof. reflexivity. Qed.

(** The bytes written for a readable tree parse to the tree, up to the
    line ends, which come back normalised, and the empty texts, which come
    back as no text. *)
Theorem parse_write e :
  readable_tree e = true ->
  truthy (tail e) = false ->
  parse (write e) = Ok (reread e).
Proof.
  intros Hp Ht. unfold parse, parse_document, write.
  rewrite after_declaration_written.
  assert (Hs : scan (serialize e) = Parsed (tokens e)).
  { rewrite <- (append_nil_r (serialize e)).
    rewrite (scan_tree e Hp "" (or_introl eq_refl)).
    cbn. rewrite app_nil_r. reflexivity. }
  assert (Hl : lex (InText false 0) "" (String LF (serialize e))
               = Parsed (TText (String LF "") :: tokens e)).
  { cbn [lex]. change (Ascii.eqb LF "<") with false.
    change (Ascii.eqb LF "&") with false. change (Ascii.eqb LF CR) with false.
    change (Ascii.eqb LF LF) with true. cbv iota.
    rewrite (lex_at_boundary false 0 (String LF "") (serialize e)).
    - rewrite Hs. reflexivity.
    - rewrite <- (append_nil_r (serialize e)). apply serialize_starts. }
  rewrite Hl. cbn [build]. change (string_forallb xml_space (String LF "")) with true.
  cbv iota. rewrite (build_root e Ht). reflexivity.
Qed.

(** ** [indent] keeps a tree readable *)

Lemma forallb_app p a b :
  string_forallb p a = true -> string_forallb p b = true ->
  string_forallb p (a ++ b) = true.
Proof.
  induction a as [ | c r IH ]; intros Ha Hb; simpl; [ exact Hb | ].
  simpl in Ha. apply andb_true_iff in Ha. destruct Ha as [ Hc Hr ].
  rewrite Hc. exact (IH Hr Hb).
Qed.

Lemma plain_text_app a b :
  plain_text a = true -> plain_text b = true -> plain_text (a ++ b) = true.
Proof.
  unfold plain_text. intros Ha Hb. apply andb_true_iff in Ha, Hb.
  destruct Ha as [ Ha Ha' ], Hb as [ Hb Hb' ].
  rewrite (forallb_app _ a b Ha Hb), (utf8_ok_app a b Ha' Hb'). reflexivity.
Qed.

Lemma readable_text_app a b :
  readable_text a = true -> readable_text b = true ->
  readable_text (a ++ b) = true.
Proof.
  unfold readable_text. intros Ha Hb. apply andb_true_iff in Ha, Hb.
  destruct Ha as [ Ha Ha' ], Hb as [ Hb Hb' ].
  rewrite (forallb_app _ a b Ha Hb), (utf8_ok_app a b Ha' Hb'). reflexivity.
Qed.

Lemma readable_indentation space level :
  readable_text space = true ->
  readable_text (indentation space level) = true.
Proof.
  intros Hs. unfold indentation.
  change (String LF (repeat_string space level))
    with (String LF "" ++ repeat_string space level)%string.
  apply readable_text_app; [ reflexivity | ].
  induction level as [ | n IH ]; simpl; [ reflexivity | ].
  apply readable_text_app; assumption.
Qed.

Lemma readable_set_tail c s :
  readable_tree c = true -> readable_text s = true ->
  readable_tree (set_tail c (Some s)) = true.
Proof.
  destruct c as [ t x tl cs ]. cbn [set_tail tag text children readable_tree].
  intros H Hs. repeat (apply andb_true_iff in H; destruct H as [ H ? ]).
  cbn [readable]. rewrite H, Hs. cbn [andb].
  repeat (apply andb_true_iff; split); first [ assumption | reflexivity ].
Qed.

Lemma readable_dedent_last ind l :
  readable_text ind = true ->
  List.forallb readable_tree l = true ->
  List.forallb readable_tree (dedent_last ind l) = true.
Proof.
  intros Hi. induction l as [ | c r IH ]; [ reflexivity | ].
  intros H. cbn [List.forallb] in H. apply andb_true_iff in H.
  destruct H as [ Hc Hr ]. destruct r as [ | c' r' ].
  - cbn [dedent_last List.forallb]. rewrite andb_true_r.
    destruct (blank (tail c)); [ apply readable_set_tail; assumption | exact Hc ].
  - change (dedent_last ind (c :: c' :: r'))
      with (c :: dedent_last ind (c' :: r')).
    cbn [List.forallb]. rewrite Hc. exact (IH Hr).
Qed.

Lemma readable_indent_children space :
  readable_text space = true ->
  forall e level,
    readable_tree e = true ->
    readable_tree (indent_children space level e) = true.
Proof.
  intros Hs. induction e as [ t x tl cs IH ] using Element_induction.
  intros level H. cbn [readable_tree] in H.
  repeat (apply andb_true_iff in H; destruct H as [ H ? ]).
  cbn [indent_children readable_tree].
  repeat (apply andb_true_iff; split); try assumption.
  - destruct (blank x); [ | assumption ].
    exact (readable_indentation space (S level) Hs).
  - apply readable_dedent_last; [ exact (readable_indentation space level Hs) | ].
    rewrite forallb_forall. intros c' Hin. apply in_map_iff in Hin.
    destruct Hin as [ c [ <- Hin ] ].
    rewrite Forall_forall in IH. rewrite forallb_forall in H0.
    assert (Hc1 : readable_tree
                    match children c with
                    | [] => c
                    | _ :: _ => indent_children space (S level) c
                    end = true).
    { destruct (children c); [ exact (H0 c Hin) | ].
      exact (IH c Hin (S level) (H0 c Hin)). }
    destruct (blank _); [ | exact Hc1 ].
    apply readable_set_tail; [ exact Hc1 | ].
    exact (readable_indentation space (S level) Hs).
Qed.

Lemma readable_indent space root :
  readable_text space = true ->
  readable_tree root = true -> readable_tree (indent space root) = true.
Proof.
  intros Hs H. unfold indent. destruct (children root); [ exact H | ].
  exact (readable_indent_children space Hs root 0%nat H).
Qed.

Lemma tail_indent space root : tail (indent space root) = tail root.
Proof.
  unfold indent. destruct (children root); [ reflexivity | ].
  destruct root. reflexivity.
Qed.

(** ** Reading back: tags and texts of the children *)

Lemma tag_reread e : tag (reread e) = tag e.
Proof. destruct e. reflexivity. Qed.

Lemma children_reread e : children (reread e) = List.map reread (children e).
Proof. destruct e. reflexivity. Qed.

Lemma text_reread e : text (reread e) = reread_text (text e).
Proof. destruct e. reflexivity. Qed.

Lemma findall_all e t :
  Forall (fun c => tag c = t) (children e) -> findall e t = children e.
Proof.
  unfold findall. induction 1 as [ | c r Hc _ IH ]; [ reflexivity | ].
  cbn [List.filter]. rewrite Hc, String.eqb_refl, IH. reflexivity.
Qed.

(** A text without carriage return that is not empty is read back as it
    is. *)
Lemma reread_text_plain s :
  s <> EmptyString -> plain_text s = true -> reread_text (Some s) = Some s.
Proof.
  intros Hn Hp. destruct s as [ | c r ]; [ contradiction | ].
  cbn [reread_text]. rewrite (newlines_plain_text _ Hp). reflexivity.
Qed.

(** ** What the parser returns is clean *)

Lemma emit_parsed t r toks :
  emit t r = Parsed toks -> exists l, r = Parsed l /\ toks = t :: l.
Proof.
  destruct r as [ l | | ]; simpl; intros H; try discriminate H.
  injection H as <-. exists l. split; reflexivity.
Qed.

Lemma forallb_rev_onto p s :
  forall acc, string_forallb p s = true -> string_forallb p acc = true ->
              string_forallb p (string_rev_onto s acc) = true.
Proof.
  induction s as [ | c r IH ]; intros acc Hs Ha; simpl; [ exact Ha | ].
  simpl in Hs. apply andb_true_iff in Hs. destruct Hs as [ Hc Hr ].
  apply IH; [ exact Hr | ]. simpl. rewrite Hc. exact Ha.
Qed.

(** [buf] holds bytes that character data may hold. *)
Definition readable_bytes (buf : string) : Prop :=
  string_forallb readable_char buf = true.

Lemma flush_clean buf r toks :
  readable_bytes buf ->
  flush buf r = Parsed toks ->
  exists l, r = Parsed l
            /\ (List.forallb clean_token l = true ->
                List.forallb clean_token toks = true).
Proof.
  intros Hb. destruct buf as [ | c b ]; cbn [flush]; intros H.
  - exists toks. split; [ exact H | exact (fun x => x) ].
  - destruct (utf8_ok (string_rev (String c b))) eqn:Hu; [ | discriminate H ].
    apply emit_parsed in H. destruct H as [ l [ -> -> ] ]. exists l.
    split; [ reflexivity | ]. intros Hl. cbn [List.forallb clean_token].
    rewrite Hl, andb_true_r.
    destruct (string_rev_nonempty (String c b)) as [ c' [ b' E ] ];
      [ discriminate | ].
    assert (Hr : string_forallb readable_char (string_rev (String c b)) = true)
      by (apply forallb_rev_onto; [ exact Hb | reflexivity ]).
    rewrite E in Hu, Hr |- *. cbn [clean]. unfold readable_text.
    rewrite Hr, Hu. reflexivity.
Qed.

Lemma readable_push c buf :
  readable_char c = true -> readable_bytes buf -> readable_bytes (String c buf).
Proof.
  intros Hc Hb. unfold readable_bytes in *. simpl. rewrite Hc. exact Hb.
Qed.

Ltac caso_lex :=
  match goal with
  | |- (if ?b then _ else _) = Parsed _ -> _ => destruct b eqn:?
  | |- match ?o with Some _ => _ | None => _ end = Parsed _ -> _ =>
      destruct o eqn:?
  | |- match ?o with EmptyString => _ | String _ _ => _ end = Parsed _ -> _ =>
      destruct o eqn:?
  | |- match ?o with
       | Parsed _ => _ | NotWellFormed => _ | OutsideFragment => _
       end = Parsed _ -> _ =>
      destruct o eqn:?
  | |- match ?p with Data => _ | Attribute _ _ _ => _ end = Parsed _ -> _ =>
      destruct p
  | |- NotWellFormed = Parsed _ -> _ => discriminate
  | |- OutsideFragment = Parsed _ -> _ => discriminate
  end.

Lemma entity_readable name ch :
  entity name = Some ch -> readable_char ch = true.
Proof.
  unfold entity.
  repeat match goal with
         | |- (if ?b then _ else _) = _ -> _ => destruct b
         end; intros H; try discriminate H; injection H as <-; reflexivity.
Qed.

Lemma readable_high n : readable_char (high n) = true.
Proof.
  unfold readable_char, xml_char. rewrite byte_of_high.
  assert (H : (32 <=? 128 + n mod 128)%N = true).
  { apply N.leb_le. generalize (n mod 128)%N. intros k. lia. }
  rewrite H, orb_true_r. reflexivity.
Qed.

(** The bytes of an allowed character are bytes of character data. *)
Lemma readable_encode cp :
  char_ok cp = true -> string_forallb readable_char (utf8_encode cp) = true.
Proof.
  intros H. unfold utf8_encode.
  destruct (cp <? 128)%N eqn:E1.
  - cbn [string_forallb]. rewrite andb_true_r.
    apply N.ltb_lt in E1.
    unfold readable_char, xml_char, byte_of, LF, CR.
    rewrite N_ascii_embedding by lia.
    assert (H32 : cp = 9%N \/ cp = 10%N \/ cp = 13%N \/ (32 <= cp)%N).
    { unfold char_ok, within in H.
      rewrite !orb_true_iff, !andb_true_iff, !N.eqb_eq, !N.leb_le in H. lia. }
    destruct H32 as [ -> | [ -> | [ -> | H32 ] ] ]; try reflexivity.
    apply N.leb_le in H32.
    rewrite H32, orb_true_r. reflexivity.
  - destruct (cp <? 2048)%N; [ | destruct (cp <? 65536)%N ];
      cbn [string_forallb]; rewrite !readable_high; reflexivity.
Qed.

Lemma readable_pending brackets buf :
  readable_bytes buf -> readable_bytes (pending brackets buf).
Proof. intros H. destruct brackets as [ | [ | n ] ]; exact H. Qed.

Lemma checked_parsed buf r toks : checked buf r = Parsed toks -> r = Parsed toks.
Proof.
  unfold checked. destruct (utf8_ok _); [ exact (fun H => H) | discriminate ].
Qed.

Lemma emit_clean t r toks :
  clean_token t = true ->
  emit t r = Parsed toks ->
  exists l, r = Parsed l
            /\ (List.forallb clean_token l = true ->
                List.forallb clean_token toks = true).
Proof.
  intros Ht H. apply emit_parsed in H. destruct H as [ l [ -> -> ] ].
  exists l. split; [ reflexivity | ]. intros Hl.
  cbn [List.forallb]. rewrite Ht. exact Hl.
Qed.

(** The character that has just been read may stand in character data. *)
Ltac caractere :=
  first
    [ reflexivity
    | assumption
    | match goal with
      | E : xml_char ?c = true |- readable_char ?c = true =>
          unfold readable_char; rewrite E; reflexivity
      | E : Ascii.eqb ?c _ = true |- readable_char ?c = true =>
          apply Ascii.eqb_eq in E; subst c; reflexivity
      | E : entity _ = Some ?c |- readable_char ?c = true =>
          exact (entity_readable _ _ E)
      end ].

Ltac legivel Hb :=
  first
    [ exact Hb
    | reflexivity
    | apply readable_push; [ caractere | legivel Hb ]
    | apply readable_pending; legivel Hb
    | apply forallb_rev_onto; [ apply readable_encode; assumption | exact Hb ] ].

(** Every text token is a non-empty readable text.  [buf] is what has
    been read so far of the character data, or of the comment, processing
    instruction or attribute value. *)
Lemma lex_clean s :
  forall m buf toks,
    readable_bytes buf ->
    lex m buf s = Parsed toks ->
    List.forallb clean_token toks = true.
Proof.
  induction s as [ | c r IH ]; intros m buf toks Hb.
  - destruct m; cbn [lex]; try discriminate.
    intros H. apply (flush_clean buf _ toks Hb) in H.
    destruct H as [ l [ E Hl ] ]. injection E as <-. exact (Hl eq_refl).
  - destruct m; cbn [lex]; repeat caso_lex; intros H;
      repeat first
        [ apply checked_parsed in H
        | apply emit_clean in H;
          [ let l := fresh "l" in
            let Hl := fresh "Hl" in
            destruct H as [ l [ H Hl ] ]; apply Hl; clear Hl
          | reflexivity ]
        | apply flush_clean in H;
          [ let l := fresh "l" in
            let Hl := fresh "Hl" in
            destruct H as [ l [ H Hl ] ]; apply Hl; clear Hl
          | exact Hb ] ];
      refine (IH _ _ _ _ H); legivel Hb.
Qed.

Lemma clean_more t s :
  clean t = true -> clean (Some s) = true -> clean (more t s) = true.
Proof.
  destruct t as [ s0 | ]; [ | intros _ H; exact H ].
  destruct s0 as [ | c r ]; [ discriminate | ].
  destruct s as [ | c' r' ]; [ discriminate | ].
  cbn [clean more String.append]. intros H0 H.
  exact (readable_text_app (String c r) (String c' r') H0 H).
Qed.

Lemma clean_add_data s f :
  clean (Some s) = true -> clean_frame f = true ->
  clean_frame (add_data s f) = true.
Proof.
  intros Hs Hf. unfold clean_frame in *. apply andb_true_iff in Hf.
  destruct Hf as [ Ht Hk ]. unfold add_data.
  destruct (fkids f) as [ | k ks ]; cbn [ftext fkids List.forallb].
  - rewrite (clean_more _ _ Ht Hs). reflexivity.
  - rewrite Ht. cbn [List.forallb] in Hk. apply andb_true_iff in Hk.
    destruct Hk as [ Hk Hks ]. rewrite Hks, andb_true_r. cbn [andb].
    destruct k as [ t x tl cs ]. cbn [set_tail tag text tail children clean_tree] in *.
    repeat (apply andb_true_iff in Hk; destruct Hk as [ Hk ? ]).
    rewrite Hk, (clean_more _ _ H0 Hs). cbn [andb]. assumption.
Qed.

Lemma clean_add_kid e f :
  clean_tree e = true -> clean_frame f = true ->
  clean_frame (add_kid e f) = true.
Proof.
  intros He Hf. unfold clean_frame in *. apply andb_true_iff in Hf.
  destruct Hf as [ Ht Hk ]. cbn [add_kid ftext fkids List.forallb].
  rewrite Ht, He, Hk. reflexivity.
Qed.

Lemma clean_close f : clean_frame f = true -> clean_tree (close f) = true.
Proof.
  intros Hf. unfold clean_frame in Hf. apply andb_true_iff in Hf.
  destruct Hf as [ Ht Hk ]. cbn [close clean_tree clean]. rewrite Ht.
  cbn [andb]. rewrite forallb_forall in *. intros e He.
  apply Hk. apply in_rev. exact He.
Qed.

(** The tree built from clean tokens is clean. *)
Lemma build_clean toks :
  List.forallb clean_token toks = true ->
  forall stack root e,
    List.forallb clean_frame stack = true -> clean_root root = true ->
    build toks stack root = Parsed e ->
    clean_tree e = true.
Proof.
  induction toks as [ | t r IH ]; intros Ht stack root e Hs Hr.
  - cbn [build]. destruct stack; [ | discriminate ].
    destruct root as [ e0 | ]; [ | discriminate ].
    intros H. injection H as <-. exact Hr.
  - cbn [List.forallb] in Ht. apply andb_true_iff in Ht.
    destruct Ht as [ Ht Htr ]. specialize (IH Htr).
    assert (Hn : forall n, clean_frame (mkFrame n None []) = true)
      by reflexivity.
    destruct t as [ n | n | n | s | ]; cbn [build].
    + destruct stack as [ | f fs ].
      * destruct root; [ discriminate | ].
        apply IH; [ | exact Hr ]. cbn [List.forallb]. rewrite Hn. reflexivity.
      * apply IH; [ | exact Hr ]. cbn [List.forallb]. rewrite Hn. exact Hs.
    + destruct stack as [ | p ps ].
      * destruct root; [ discriminate | ]. apply IH; reflexivity.
      * cbn [List.forallb] in Hs. apply andb_true_iff in Hs.
        destruct Hs as [ Hp Hps ]. apply IH; [ | exact Hr ].
        cbn [List.forallb]. rewrite (clean_add_kid (new n) p eq_refl Hp).
        exact Hps.
    + destruct stack as [ | f fs ]; [ discriminate | ].
      cbn [List.forallb] in Hs. apply andb_true_iff in Hs.
      destruct Hs as [ Hf Hfs ].
      destruct (String.eqb (ftag f) n); [ | discriminate ].
      destruct fs as [ | p ps ].
      * apply IH; [ reflexivity | ]. exact (clean_close f Hf).
      * cbn [List.forallb] in Hfs. apply andb_true_iff in Hfs.
        destruct Hfs as [ Hp Hps ]. apply IH; [ | exact Hr ].
        cbn [List.forallb].
        rewrite (clean_add_kid (close f) p (clean_close f Hf) Hp). exact Hps.
    + destruct stack as [ | f fs ].
      * destruct (string_forallb xml_space s); [ apply IH; assumption | ].
        destruct (string_forallb _ s); discriminate.
      * cbn [List.forallb] in Hs. apply andb_true_iff in Hs.
        destruct Hs as [ Hf Hfs ]. apply IH; [ | exact Hr ].
        cbn [List.forallb]. rewrite (clean_add_data s f Ht Hf). exact Hfs.
    + destruct stack as [ | f fs ]; [ discriminate | ].
      apply IH; assumption.
Qed.

(** The texts and tails of a tree that [parse] returns are absent or
    non-empty and readable: an empty element has no text, and no forbidden
    character comes through. *)
Lemma parse_clean content root :
  parse content = Ok root -> clean_tree root = true.
Proof.
  unfold parse, parse_document.
  destruct (after_declaration content) as [ body | | ]; try discriminate.
  destruct (lex _ _ _) as [ toks | | ] eqn:Hl; try discriminate.
  destruct (build toks [] None) as [ e | | ] eqn:Hb; try discriminate.
  intros H. injection H as <-.
  refine (build_clean toks _ [] None e eq_refl eq_refl Hb).
  refine (lex_clean _ (InText false 0) ""%string toks _ Hl). reflexivity.
Qed.

Lemma clean_children e :
  clean_tree e = true -> List.forallb clean_tree (children e) = true.
Proof.
  destruct e as [ t x tl cs ]. cbn [clean_tree children]. intros H.
  apply andb_true_iff in H. exact (proj2 H).
Qed.

Lemma clean_text e : clean_tree e = true -> clean (text e) = true.
Proof.
  destruct e as [ t x tl cs ]. cbn [clean_tree text]. intros H.
  repeat (apply andb_true_iff in H; destruct H as [ H ? ]). exact H.
Qed.

Lemma clean_readable t : clean t = true -> readable t = true.
Proof. destruct t as [ [ | c r ] | ]; [ discriminate | | ]; intros H; exact H. Qed.

End ETFacts.


Section Propriedades.

Context {pyfloat : Type} {F : PyFloat pyfloat}.

Local Open Scope list_scope.

Local Abbreviation dict := (@dict pyfloat).
Local Abbreviation forma := (@forma pyfloat).
Local Abbreviation com_id := (@com_id pyfloat).
Local Abbreviation ausente := (@ausente pyfloat).
Local Abbreviation presente := (@presente pyfloat).
Local Abbreviation of_text := (@of_text pyfloat).
Local Abbreviation texto_simples := (@texto_simples pyfloat).
Local Abbreviation registro_simples := (@registro_simples pyfloat).
Local Abbreviation registro_lido := (@registro_lido pyfloat).
Local Abbreviation relido_valor := (@relido_valor pyfloat).
Local Abbreviation relido := (@relido pyfloat).
Local Abbreviation id_de := (@id_de pyfloat).
Local Abbreviation ids_distintos := (@ids_distintos pyfloat).

(** ** The monad *)

Lemma bind_ok {A B} (m : M A) (k : A -> M B) w a w' :
  m w = (Ok a, w') -> bind m k w = k a w'.
Proof. intros H. unfold bind. rewrite H. reflexivity. Qed.

Lemma bind_raise {A B} (m : M A) (k : A -> M B) w e w' :
  m w = (Raise e, w') -> bind m k w = (Raise e, w').
Proof. intros H. unfold bind. rewrite H. reflexivity. Qed.

(** ** Dictionaries read from the file have the expected shape *)

Lemma ler_aparelho_forma elem ap :
  ler_aparelho elem = Ok ap -> forma ap.
Proof.
  unfold ler_aparelho, res_bind. intros H.
  repeat match type of H with
         | match ?r with Ok _ => _ | Raise _ => _ end = _ =>
             destruct r; [ | discriminate H ]
         end.
  injection H as <-. split; [ reflexivity | ].
  eexists. reflexivity.
Qed.

Lemma ler_aparelhos_forma elems :
  forall acc l,
    Forall forma acc -> ler_aparelhos elems acc = Ok l -> Forall forma l.
Proof.
  induction elems as [ | e r IH ]; intros acc l Hacc H; simpl in H.
  - injection H as <-. exact Hacc.
  - unfold res_bind in H. destruct (ler_aparelho e) as [ ap | ] eqn:He;
      [ | discriminate H ].
    apply (IH (acc ++ [ap])%list l); [ | exact H ].
    apply Forall_app. split; [ exact Hacc | ].
    constructor; [ exact (ler_aparelho_forma _ _ He) | constructor ].
Qed.

Lemma model_dump_forma a : forma (model_dump a).
Proof. split; [ reflexivity | exists (id a); reflexivity ]. Qed.

(** ** The exceptions of a load *)

Lemma int_of_digits_exn s e : int_of_digits s = Raise e -> e = ValueError.
Proof.
  unfold int_of_digits. destruct (digits_ok false s).
  - destruct (NilZero.uint_of_string _); [ discriminate | ].
    intros H. injection H as <-. reflexivity.
  - intros H. injection H as <-. reflexivity.
Qed.

Lemma int_of_str_exn s e : int_of_str s = Raise e -> e = ValueError.
Proof.
  unfold int_of_str, int_of_signed.
  assert (G : forall t, (n <- int_of_digits t ;; Ok (- n))%res = Raise e ->
                        e = ValueError).
  { intros t. unfold res_bind. destruct (int_of_digits t) eqn:E;
      [ discriminate | ].
    intros H. injection H as <-. exact (int_of_digits_exn _ _ E). }
  destruct (strip_by c_isspace (to_ascii None s)) as [ | c r ].
  - intros H. injection H as <-. reflexivity.
  - destruct (Ascii.eqb c "-"); [ apply G | ].
    destruct (Ascii.eqb c "+"); apply int_of_digits_exn.
Qed.

Lemma py_int_exn t e : py_int t = Raise e -> erro_de_registro e.
Proof.
  destruct t as [ s | ]; simpl.
  - intros H. right. right. exact (int_of_str_exn _ _ H).
  - intros H. injection H as <-. right. left. reflexivity.
Qed.

Lemma py_float_exn t e : py_float t = Raise e -> erro_de_registro e.
Proof.
  destruct t as [ s | ]; simpl.
  - destruct (float_of_str s); [ discriminate | ].
    intros H. injection H as <-. right. right. reflexivity.
  - intros H. injection H as <-. right. left. reflexivity.
Qed.

Lemma find_text_exn elem t e :
  find_text elem t = Raise e -> erro_de_registro e.
Proof.
  unfold find_text. destruct (ET.find elem t); [ discriminate | ].
  intros H. injection H as <-. left. reflexivity.
Qed.

Ltac passo_de_leitura H :=
  match type of H with
  | res_bind ?r _ = Raise _ =>
      let E := fresh "E" in
      destruct r eqn:E;
      [ cbn [res_bind] in H
      | cbn [res_bind] in H; injection H as <-;
        first [ exact (find_text_exn _ _ _ E)
              | exact (py_int_exn _ _ E)
              | exact (py_float_exn _ _ E) ] ]
  end.

Lemma ler_aparelho_exn elem e :
  ler_aparelho elem = Raise e -> erro_de_registro e.
Proof.
  unfold ler_aparelho. intros H.
  repeat passo_de_leitura H. discriminate H.
Qed.

Lemma ler_aparelhos_exn elems :
  forall acc e, ler_aparelhos elems acc = Raise e -> erro_de_registro e.
Proof.
  induction elems as [ | x r IH ]; intros acc e H; simpl in H.
  - discriminate H.
  - destruct (ler_aparelho x) as [ ap | ex ] eqn:Hx; cbn [res_bind] in H.
    + exact (IH _ _ H).
    + injection H as <-. exact (ler_aparelho_exn _ _ Hx).
Qed.

Lemma erro_de_registro_nao_ParseError e :
  erro_de_registro e -> e <> ParseError.
Proof. intros [ -> | [ -> | -> ] ]; discriminate. Qed.

(** ** What a successful load tells *)

Lemma carregar_inv w l w1 :
  carregar_aparelhos_xml w = (Ok l, w1) -> carregado w l w1.
Proof.
  unfold carregar_aparelhos_xml. destruct (arquivo w) as [ content | ] eqn:Ha.
  - unfold res_bind. destruct (ET.parse content) as [ root | e ] eqn:Hp.
    + destruct (ler_aparelhos _ _) as [ l' | e ] eqn:Hl.
      * intros H. injection H as <- <-. eapply carregado_lido; eauto.
      * pose proof (erro_de_registro_nao_ParseError _ (ler_aparelhos_exn _ _ _ Hl)).
        destruct e; intros H'; try discriminate H'. congruence.
    + destruct e; intros H; try discriminate H.
      cbn in H. injection H as <- <-.
      eapply carregado_ilegivel; eauto.
  - intros H. cbn in H. injection H as <- <-.
    apply carregado_criado; auto.
Qed.

Lemma carregar_forma w l w1 :
  carregar_aparelhos_xml w = (Ok l, w1) -> Forall forma l.
Proof.
  intros H. destruct (carregar_inv _ _ _ H) as [ _ -> _ | c root _ _ Hl _ | _ _ _ -> _ ];
    try constructor.
  exact (ler_aparelhos_forma _ _ _ (Forall_nil _) Hl).
Qed.

(** A load changes the file only by creating it. *)
Lemma carregar_arquivo w l w1 :
  carregar_aparelhos_xml w = (Ok l, w1) ->
  arquivo w <> None -> arquivo w1 = arquivo w.
Proof.
  intros H Hex. destruct (carregar_inv _ _ _ H) as [ Ha _ _ | c root _ _ _ -> | c _ _ _ -> ].
  - contradiction.
  - reflexivity.
  - reflexivity.
Qed.

(** After a load, loading again gives the same list and leaves the file
    alone. *)
Lemma carregar_de_novo w l w1 :
  carregar_aparelhos_xml w = (Ok l, w1) -> carrega w1 l.
Proof.
  intros H. destruct (carregar_inv _ _ _ H) as [ Ha -> -> | c root Ha Hp Hl -> | c Ha Hp -> -> ].
  - eexists. split; [ reflexivity | reflexivity ].
  - exists w. split; [ exact H | reflexivity ].
  - unfold carrega, carregar_aparelhos_xml. cbn [arquivo]. rewrite Ha.
    unfold res_bind. rewrite Hp. cbn. eexists. split; reflexivity.
Qed.

(** ** The loops of the endpoints on well-shaped lists *)

Lemma com_id_forma ap n :
  forma ap -> exists m, getitem ap "id" = Ok (VInt m) /\ com_id ap n = Z.eqb m n.
Proof.
  intros [ _ [ m Hm ] ]. exists m. split; [ exact Hm | ].
  unfold com_id. rewrite Hm. reflexivity.
Qed.

Ltac passo_id Hf n :=
  let m := fresh "m" in
  let Hm := fresh "Hm" in
  let Hc := fresh "Hc" in
  destruct (com_id_forma _ n Hf) as [ m [ Hm Hc ] ];
  simpl; rewrite Hm; cbn [res_bind eq_int]; rewrite <- Hc.

Lemma any_id_forma l n :
  Forall forma l -> any_id l n = Ok (existsb (fun a => com_id a n) l).
Proof.
  induction 1 as [ | ap r Hf _ IH ]; [ reflexivity | ].
  passo_id Hf n. destruct (com_id ap n); [ reflexivity | exact IH ].
Qed.

Lemma primeiro_com_id_forma l n :
  Forall forma l ->
  primeiro_com_id l n = Ok (List.find (fun a => com_id a n) l).
Proof.
  induction 1 as [ | ap r Hf _ IH ]; [ reflexivity | ].
  passo_id Hf n. destruct (com_id ap n); [ reflexivity | exact IH ].
Qed.

Lemma sem_id_forma l n :
  Forall forma l ->
  sem_id l n = Ok (filter (fun a => negb (com_id a n)) l).
Proof.
  induction 1 as [ | ap r Hf _ IH ]; [ reflexivity | ].
  passo_id Hf n. rewrite IH. cbn [res_bind]. reflexivity.
Qed.

Lemma indice_com_id_ausente l n :
  Forall forma l -> ausente n l ->
  forall i, indice_com_id l n i = Ok None.
Proof.
  induction 1 as [ | ap r Hf _ IH ]; intros Ha i; [ reflexivity | ].
  passo_id Hf n. rewrite (Ha ap (or_introl eq_refl)).
  apply IH. intros x Hx. apply Ha. right. exact Hx.
Qed.

Lemma indice_com_id_presente l1 old l2 n :
  Forall forma (l1 ++ old :: l2) -> ausente n l1 -> com_id old n = true ->
  forall i, indice_com_id (l1 ++ old :: l2) n i = Ok (Some (i + length l1)%nat).
Proof.
  induction l1 as [ | ap r IH ]; intros Hf Ha Ho i.
  - apply Forall_inv in Hf. passo_id Hf n. rewrite Ho.
    rewrite Nat.add_0_r. reflexivity.
  - pose proof (Forall_inv Hf) as Hap. apply Forall_inv_tail in Hf.
    rewrite <- app_comm_cons. passo_id Hap n.
    rewrite (Ha ap (or_introl eq_refl)).
    rewrite (IH Hf (fun x Hx => Ha x (or_intror Hx)) Ho (S i)).
    simpl. rewrite Nat.add_succ_r. reflexivity.
Qed.

Lemma mudar_deposito_ausente l n dep :
  Forall forma l -> ausente n l -> mudar_deposito l n dep = Ok (l, None).
Proof.
  induction 1 as [ | ap r Hf _ IH ]; intros Ha; [ reflexivity | ].
  passo_id Hf n. rewrite (Ha ap (or_introl eq_refl)).
  rewrite (IH (fun x Hx => Ha x (or_intror Hx))). reflexivity.
Qed.

Lemma mudar_deposito_presente l1 old l2 n dep :
  Forall forma (l1 ++ old :: l2) -> ausente n l1 -> com_id old n = true ->
  mudar_deposito (l1 ++ old :: l2) n dep
  = Ok (l1 ++ setitem old "deposito" (VStr dep) :: l2,
        Some (setitem old "deposito" (VStr dep))).
Proof.
  induction l1 as [ | ap r IH ]; intros Hf Ha Ho.
  - apply Forall_inv in Hf. passo_id Hf n. rewrite Ho. reflexivity.
  - pose proof (Forall_inv Hf) as Hap. apply Forall_inv_tail in Hf.
    rewrite <- app_comm_cons. passo_id Hap n.
    rewrite (Ha ap (or_introl eq_refl)).
    rewrite (IH Hf (fun x Hx => Ha x (or_intror Hx)) Ho). reflexivity.
Qed.

Lemma list_set_meio {A} (l1 : list A) old l2 x :
  list_set (l1 ++ old :: l2) (length l1) x = l1 ++ x :: l2.
Proof.
  induction l1 as [ | y r IH ]; simpl; [ reflexivity | ].
  rewrite IH. reflexivity.
Qed.

(** ** Present and absent ids *)

Lemma ausente_existsb n l :
  ausente n l <-> existsb (fun a => com_id a n) l = false.
Proof.
  unfold ausente. induction l as [ | ap r IH ]; simpl.
  - split; [ reflexivity | intros _ x [] ].
  - rewrite orb_false_iff, <- IH. split.
    + intros H. split; [ apply H; left; reflexivity | ].
      intros x Hx. apply H. right. exact Hx.
    + intros [ H1 H2 ] x [ <- | Hx ]; [ exact H1 | exact (H2 x Hx) ].
Qed.

Lemma presente_existsb n l :
  presente n l <-> existsb (fun a => com_id a n) l = true.
Proof.
  unfold presente. rewrite existsb_exists. reflexivity.
Qed.

Lemma ausente_nao_presente n l : ausente n l -> ~ presente n l.
Proof.
  intros Ha [ ap [ Hin Hc ] ]. rewrite (Ha ap Hin) in Hc. discriminate Hc.
Qed.

(** The first dictionary with the id [n] splits the list. *)
Lemma primeira_ocorrencia n l :
  presente n l ->
  exists l1 old l2,
    l = l1 ++ old :: l2 /\ ausente n l1 /\ com_id old n = true.
Proof.
  induction l as [ | ap r IH ]; intros [ x [ Hin Hx ] ]; [ destruct Hin | ].
  destruct (com_id ap n) eqn:Hap.
  - exists [], ap, r. split; [ reflexivity | ].
    split; [ intros y [] | exact Hap ].
  - destruct Hin as [ <- | Hin ]; [ congruence | ].
    destruct (IH (ex_intro _ x (conj Hin Hx))) as [ l1 [ old [ l2 [ -> [ Ha Ho ] ] ] ] ].
    exists (ap :: l1), old, l2. split; [ reflexivity | ].
    split; [ | exact Ho ].
    intros y [ <- | Hy ]; [ exact Hap | exact (Ha y Hy) ].
Qed.

Lemma ausente_filter n l :
  ausente n (filter (fun a => negb (com_id a n)) l).
Proof.
  intros ap Hin. apply filter_In in Hin. destruct Hin as [ _ H ].
  apply negb_true_iff in H. exact H.
Qed.

Lemma filter_ausente n l :
  ausente n l -> filter (fun a => negb (com_id a n)) l = l.
Proof.
  induction l as [ | ap r IH ]; intros Ha; simpl; [ reflexivity | ].
  rewrite (Ha ap (or_introl eq_refl)). simpl.
  rewrite (IH (fun x Hx => Ha x (or_intror Hx))). reflexivity.
Qed.

Lemma filter_presente n l :
  presente n l ->
  (length (filter (fun a => negb (com_id a n)) l) < length l)%nat.
Proof.
  induction l as [ | ap r IH ]; intros [ x [ Hin Hx ] ]; [ destruct Hin | ].
  simpl. pose proof (filter_length_le (fun a => negb (com_id a n)) r) as Hle.
  destruct (com_id ap n) eqn:Hap; simpl.
  - lia.
  - destruct Hin as [ <- | Hin ]; [ congruence | ].
    apply -> Nat.succ_lt_mono. apply IH. exists x. split; assumption.
Qed.

(** ** Saving *)

Lemma salvar_guarda l w :
  exists w', salvar_aparelhos_xml l w = (Ok tt, w')
             /\ guarda w' l /\ stdout w' = stdout w.
Proof.
  eexists. split; [ reflexivity | ]. split; reflexivity.
Qed.

(** ** The endpoints after a successful load *)

Lemma buscar_ausente w l w1 n :
  carregar_aparelhos_xml w = (Ok l, w1) -> ausente n l ->
  buscar_aparelho n w = (Raise (nao_encontrado n), w1).
Proof.
  intros H Ha. unfold buscar_aparelho. rewrite (bind_ok _ _ _ _ _ H).
  unfold bind, lift.
  rewrite (primeiro_com_id_forma _ n (carregar_forma _ _ _ H)).
  destruct (List.find _ l) as [ ap | ] eqn:Hf; [ | reflexivity ].
  apply find_some in Hf. destruct Hf as [ Hin Hc ].
  rewrite (Ha ap Hin) in Hc. discriminate Hc.
Qed.

Lemma atualizar_ausente w l w1 n novo :
  carregar_aparelhos_xml w = (Ok l, w1) -> ausente n l ->
  atualizar_aparelho n novo w = (Raise (nao_encontrado n), w1).
Proof.
  intros H Ha. unfold atualizar_aparelho. rewrite (bind_ok _ _ _ _ _ H).
  unfold bind, lift.
  rewrite (indice_com_id_ausente _ _ (carregar_forma _ _ _ H) Ha).
  reflexivity.
Qed.

Lemma deletar_ausente w l w1 n :
  carregar_aparelhos_xml w = (Ok l, w1) -> ausente n l ->
  deletar_aparelho n w = (Raise (nao_encontrado n), w1).
Proof.
  intros H Ha. unfold deletar_aparelho. rewrite (bind_ok _ _ _ _ _ H).
  unfold bind, lift.
  rewrite (sem_id_forma _ n (carregar_forma _ _ _ H)).
  rewrite (filter_ausente _ _ Ha), Nat.eqb_refl. reflexivity.
Qed.

Lemma transferir_ausente w l w1 n dep :
  carregar_aparelhos_xml w = (Ok l, w1) -> ausente n l ->
  transferir_aparelho n dep w = (Raise (nao_encontrado n), w1).
Proof.
  intros H Ha. unfold transferir_aparelho. rewrite (bind_ok _ _ _ _ _ H).
  unfold bind, lift.
  rewrite (mudar_deposito_ausente _ _ dep (carregar_forma _ _ _ H) Ha).
  reflexivity.
Qed.

(** A failed call that only loaded leaves the stored collection as it
    was. *)
Lemma so_carregou w l w1 :
  carregar_aparelhos_xml w = (Ok l, w1) ->
  carrega w1 l /\ (arquivo w <> None -> arquivo w1 = arquivo w).
Proof.
  intros H. split; [ exact (carregar_de_novo _ _ _ H) | ].
  exact (carregar_arquivo _ _ _ H).
Qed.

(** ** Dictionaries: assignment to a key *)

Lemma getitem_setitem_eq (d : dict) k v :
  getitem (setitem d k v) k = Ok v.
Proof.
  induction d as [ | [ k' v' ] r IH ]; simpl.
  - rewrite String.eqb_refl. reflexivity.
  - destruct (String.eqb k' k) eqn:E; simpl.
    + rewrite String.eqb_refl. reflexivity.
    + rewrite E. exact IH.
Qed.

Lemma getitem_setitem_ne (d : dict) k v k0 :
  k0 <> k -> getitem (setitem d k v) k0 = getitem d k0.
Proof.
  intros Hne. induction d as [ | [ k' v' ] r IH ]; simpl.
  - destruct (String.eqb k k0) eqn:E; [ | reflexivity ].
    apply String.eqb_eq in E. congruence.
  - destruct (String.eqb k' k) eqn:E; simpl.
    + apply String.eqb_eq in E. subst k'.
      destruct (String.eqb k k0) eqn:E0; [ | reflexivity ].
      apply String.eqb_eq in E0. congruence.
    + rewrite IH. reflexivity.
Qed.

Lemma keys_setitem (d : dict) k v :
  In k (map fst d) -> map fst (setitem d k v) = map fst d.
Proof.
  induction d as [ | [ k' v' ] r IH ]; simpl; [ intros [] | ].
  intros Hin. destruct (String.eqb k' k) eqn:E; simpl.
  - apply String.eqb_eq in E. subst k'. reflexivity.
  - destruct Hin as [ -> | Hin ].
    + rewrite String.eqb_refl in E. discriminate E.
    + rewrite (IH Hin). reflexivity.
Qed.

(** ** The tree that is saved *)

Lemma elemento_de_folhas (d : dict) :
  elemento_de d = ET.mkElement "aparelho" None None (map folha d).
Proof.
  unfold elemento_de.
  assert (G : forall (d : dict) cs,
             fold_left
               (fun aparelho_elem kv =>
                  ET.append aparelho_elem
                    (ET.set_text (ET.new (fst kv)) (Some (str (snd kv)))))
               d (ET.mkElement "aparelho" None None cs)
             = ET.mkElement "aparelho" None None (cs ++ map folha d)).
  { induction d0 as [ | kv r IH ]; intros cs; cbn [fold_left map].
    - rewrite app_nil_r. reflexivity.
    - change (ET.append (ET.mkElement "aparelho" None None cs)
                (ET.set_text (ET.new (fst kv)) (Some (str (snd kv)))))
        with (ET.mkElement "aparelho" None None (cs ++ [folha kv])).
      rewrite IH, <- app_assoc. reflexivity. }
  exact (G d []).
Qed.

Lemma arvore_de_registros (l : list dict) :
  arvore_de l = ET.mkElement "estoque" None None (map elemento_de l).
Proof.
  unfold arvore_de.
  assert (G : forall (l : list dict) cs,
             fold_left (fun root ap_data => ET.append root (elemento_de ap_data))
               l (ET.mkElement "estoque" None None cs)
             = ET.mkElement "estoque" None None (cs ++ map elemento_de l)).
  { induction l0 as [ | ap r IH ]; intros cs; cbn [fold_left map].
    - rewrite app_nil_r. reflexivity.
    - change (ET.append (ET.mkElement "estoque" None None cs) (elemento_de ap))
        with (ET.mkElement "estoque" None None (cs ++ [elemento_de ap])).
      rewrite IH, <- app_assoc. reflexivity. }
  exact (G l []).
Qed.

(** ** [ET.indent] changes only tails and the text of inner elements *)

Lemma map_dedent_last {A} (p : ET.Element -> A) ind l :
  (forall c x, p (ET.set_tail c x) = p c) ->
  map p (ET.dedent_last ind l) = map p l.
Proof.
  intros Hp. induction l as [ | c r IH ]; [ reflexivity | ].
  destruct r as [ | c' r' ].
  - simpl. destruct (ET.blank (ET.tail c)); [ rewrite Hp | ]; reflexivity.
  - change (ET.dedent_last ind (c :: c' :: r'))
      with (c :: ET.dedent_last ind (c' :: r')).
    cbn [map]. rewrite IH. reflexivity.
Qed.

Lemma sem_cauda_set_tail c x : sem_cauda (ET.set_tail c x) = sem_cauda c.
Proof. destruct c. reflexivity. Qed.

Lemma tag_indent_children space level e :
  ET.tag (ET.indent_children space level e) = ET.tag e.
Proof. destruct e. reflexivity. Qed.

Lemma tail_indent_children space level e :
  ET.tail (ET.indent_children space level e) = ET.tail e.
Proof. destruct e. reflexivity. Qed.

(** Indenting an element whose children are leaves keeps tag, text and
    (absent) children of each child. *)
Lemma filhos_indent_children space level e :
  Forall (fun f => ET.children f = []) (ET.children e) ->
  filhos_sem_cauda (ET.indent_children space level e) = filhos_sem_cauda e.
Proof.
  destruct e as [ t x tl cs ]. unfold filhos_sem_cauda. cbn [ET.children].
  intros Hl. cbn [ET.indent_children ET.children].
  rewrite (map_dedent_last sem_cauda); [ | exact sem_cauda_set_tail ].
  rewrite map_map. apply map_ext_in. intros f Hf.
  rewrite Forall_forall in Hl. rewrite (Hl f Hf).
  destruct (ET.blank (ET.tail f)); [ apply sem_cauda_set_tail | reflexivity ].
Qed.

Lemma registro_sem_cauda_set_tail c x :
  registro_sem_cauda (ET.set_tail c x) = registro_sem_cauda c.
Proof. destruct c. reflexivity. Qed.

(** The same, one level up: [ET.indent] on a tree of depth two. *)
Lemma registros_indent space root :
  Forall (fun c => Forall (fun f => ET.children f = []) (ET.children c))
    (ET.children root) ->
  ET.tag (ET.indent space root) = ET.tag root
  /\ map registro_sem_cauda (ET.children (ET.indent space root))
     = map registro_sem_cauda (ET.children root).
Proof.
  destruct root as [ t x tl cs ]. unfold ET.indent. cbn [ET.children].
  intros Hl. destruct cs as [ | c0 r0 ]; [ split; reflexivity | ].
  split; [ reflexivity | ].
  set (cs := c0 :: r0) in *. cbn [ET.indent_children ET.children].
  rewrite (map_dedent_last registro_sem_cauda);
    [ | exact registro_sem_cauda_set_tail ].
  rewrite map_map. apply map_ext_in. intros c Hc.
  rewrite Forall_forall in Hl. specialize (Hl c Hc).
  assert (G : registro_sem_cauda
                match ET.children c with
                | [] => c
                | _ :: _ => ET.indent_children space 1 c
                end = registro_sem_cauda c).
  { pose proof (filhos_indent_children space 1 c Hl) as Hi.
    destruct (ET.children c) eqn:E; [ reflexivity | ].
    unfold registro_sem_cauda. rewrite tag_indent_children, Hi.
    reflexivity. }
  destruct (ET.blank _); [ rewrite registro_sem_cauda_set_tail | ]; exact G.
Qed.

Lemma filhos_elemento_de (d : dict) :
  filhos_sem_cauda (elemento_de d)
  = map (fun kv => (fst kv, Some (str (snd kv)), [])) d.
Proof.
  rewrite elemento_de_folhas. unfold filhos_sem_cauda. cbn [ET.children].
  rewrite map_map. reflexivity.
Qed.

(** The tree handed to [tree.write], tails left out. *)
Lemma arvore_escrita_registros (l : list dict) :
  ET.tag (arvore_escrita l) = "estoque"%string
  /\ map registro_sem_cauda (ET.children (arvore_escrita l))
     = map (fun ap => ("aparelho"%string,
                        map (fun kv => (fst kv, Some (str (snd kv)), [])) ap)) l.
Proof.
  unfold arvore_escrita.
  destruct (registros_indent (String TAB "") (arvore_de l)) as [ Ht Hc ].
  { rewrite arvore_de_registros. cbn [ET.children].
    apply Forall_map, Forall_forall. intros d _.
    rewrite elemento_de_folhas. cbn [ET.children].
    apply Forall_map, Forall_forall. intros kv _. reflexivity. }
  rewrite Ht, Hc, arvore_de_registros. cbn [ET.tag ET.children].
  split; [ reflexivity | ].
  rewrite map_map. apply map_ext. intros d.
  unfold registro_sem_cauda. rewrite filhos_elemento_de.
  rewrite elemento_de_folhas. reflexivity.
Qed.

(** ** Saving and loading back *)

Lemma digit_plain c : is_digit c = true -> ET.plain_char c = true.
Proof.
  unfold is_digit, ET.plain_char, ET.xml_char. intros Hc.
  apply andb_true_iff in Hc. destruct Hc as [ H1 _ ]. apply N.leb_le in H1.
  apply orb_true_iff. left. apply orb_true_iff. right. apply N.leb_le. lia.
Qed.

Lemma digit_below_128 c : is_digit c = true -> (byte_of c <? 128)%N = true.
Proof.
  intros H. apply digit_ascii in H. apply N.ltb_lt in H. apply N.ltb_lt. lia.
Qed.

Lemma plain_of_digits s :
  string_forallb is_digit s = true -> ET.plain_text s = true.
Proof.
  intros H. unfold ET.plain_text.
  rewrite (forallb_weaken _ _ _ digit_plain H).
  rewrite (utf8_ok_ascii s (forallb_weaken _ _ _ digit_below_128 H)).
  reflexivity.
Qed.

Lemma texto_fiel_str_int n : texto_fiel (str_int n).
Proof.
  destruct n as [ | p | p ].
  - split; [ discriminate | reflexivity ].
  - rewrite str_int_pos. split.
    + destruct (string_of_uint_nonnil _ (DecimalPos.Unsigned.to_uint_nonnil p))
        as [ c [ r [ -> _ ] ] ]. discriminate.
    + apply plain_of_digits, digits_of_uint.
  - rewrite str_int_neg. split; [ discriminate | ].
    apply (ETFacts.plain_text_app "-"); [ reflexivity | ].
    apply plain_of_digits, digits_of_uint.
Qed.

Lemma reread_fiel s : texto_fiel s -> ET.reread_text (Some s) = Some s.
Proof. intros [ Hn Hp ]. exact (ETFacts.reread_text_plain s Hn Hp). Qed.

Lemma find_text_campos e k :
  find_text e k
  = match List.find (fun p => String.eqb (fst p) k) (campos_de e) with
    | Some p => Ok (snd p)
    | None => Raise AttributeError
    end.
Proof.
  unfold find_text, ET.find, campos_de.
  induction (ET.children e) as [ | f r IH ]; [ reflexivity | ].
  cbn [List.find map fst]. destruct (String.eqb (ET.tag f) k); [ reflexivity | ].
  exact IH.
Qed.

(** A record is read from the tags and texts of its children. *)
Lemma ler_aparelho_campos e ti tn tm tp tc td :
  campos_de e
  = [ ("id"%string, ti); ("nome"%string, tn); ("marca"%string, tm);
      ("preco"%string, tp); ("categoria"%string, tc); ("deposito"%string, td) ] ->
  ler_aparelho e
  = (v_id <- py_int ti ;;
     v_preco <- py_float tp ;;
     Ok [ ("id"%string, VInt v_id); ("nome"%string, of_text tn);
          ("marca"%string, of_text tm); ("preco"%string, VFloat v_preco);
          ("categoria"%string, of_text tc);
          ("deposito"%string, of_text td) ])%res.
Proof.
  intros H. unfold ler_aparelho. rewrite !find_text_campos, H.
  cbn [List.find fst snd String.eqb Ascii.eqb Bool.eqb res_bind].
  destruct (py_int ti); [ | reflexivity ]. cbn [res_bind].
  reflexivity.
Qed.

Lemma campos_de_reread c :
  campos_de (ET.reread c)
  = map (fun y : string * option string * list ET.Element =>
           (fst (fst y), ET.reread_text (snd (fst y)))) (filhos_sem_cauda c).
Proof.
  unfold campos_de, filhos_sem_cauda. rewrite ETFacts.children_reread.
  rewrite !map_map. apply map_ext. intros f. unfold sem_cauda. cbn [fst snd].
  rewrite ETFacts.tag_reread, ETFacts.text_reread. reflexivity.
Qed.

(** The record written for a faithful device is read back as the
    dictionary of the device. *)
Lemma ler_aparelho_reread c a :
  floats_fieis -> aparelho_fiel a ->
  filhos_sem_cauda c
  = map (fun kv => (fst kv, Some (str (snd kv)), [])) (model_dump a) ->
  ler_aparelho (ET.reread c) = Ok (model_dump a).
Proof.
  intros Hf [ Hn [ Hm [ Hc Hd ] ] ] H.
  destruct (Hf (preco a)) as [ Hp Hpt ].
  rewrite (ler_aparelho_campos (ET.reread c)
             (Some (str_int (id a))) (Some (nome a)) (Some (marca a))
             (Some (str_float (preco a))) (Some (categoria a))
             (Some (deposito a))).
  - cbn [py_int py_float]. rewrite int_of_str_str_int, Hp. reflexivity.
  - rewrite campos_de_reread, H. cbn [model_dump map fst snd str].
    rewrite (reread_fiel _ (texto_fiel_str_int (id a))), (reread_fiel _ Hn),
      (reread_fiel _ Hm), (reread_fiel _ Hpt), (reread_fiel _ Hc),
      (reread_fiel _ Hd).
    reflexivity.
Qed.

Lemma ler_aparelhos_reread cs devs :
  floats_fieis -> Forall aparelho_fiel devs ->
  map filhos_sem_cauda cs
  = map (fun ap : dict => map (fun kv => (fst kv, Some (str (snd kv)), [])) ap)
      (map model_dump devs) ->
  forall acc,
    ler_aparelhos (map ET.reread cs) acc = Ok (acc ++ map model_dump devs).
Proof.
  intros Hf Hd. revert cs.
  induction Hd as [ | a r Ha _ IH ]; intros cs H acc.
  - destruct cs; [ | discriminate H ]. simpl. rewrite app_nil_r. reflexivity.
  - destruct cs as [ | c cs ]; [ discriminate H | ].
    cbn [map] in H. injection H as Hc Hr.
    cbn [map ler_aparelhos]. rewrite (ler_aparelho_reread c a Hf Ha Hc).
    cbn [res_bind]. rewrite (IH cs Hr), <- app_assoc. reflexivity.
Qed.

Lemma readable_fiel s : texto_fiel s -> ET.readable_text s = true.
Proof. intros [ _ H ]. exact (ETFacts.plain_readable s H). Qed.

(** The tree saved for faithful devices is readable. *)
Lemma plain_arvore_de devs :
  floats_fieis -> Forall aparelho_fiel devs ->
  ET.readable_tree (arvore_de (map model_dump devs)) = true.
Proof.
  intros Hf Hd. rewrite arvore_de_registros. cbn [ET.readable_tree].
  change (ET.plain_name "estoque") with true. cbn [ET.readable andb].
  rewrite forallb_forall. intros e Hin.
  rewrite map_map in Hin. apply in_map_iff in Hin.
  destruct Hin as [ a [ <- Hin ] ].
  rewrite Forall_forall in Hd. destruct (Hd a Hin) as [ Hn [ Hm [ Hc Hdp ] ] ].
  destruct (Hf (preco a)) as [ _ Hp ].
  rewrite elemento_de_folhas.
  cbn [model_dump map folha fst snd str ET.readable_tree forallb ET.readable].
  rewrite (readable_fiel _ (texto_fiel_str_int (id a))), (readable_fiel _ Hn),
    (readable_fiel _ Hm), (readable_fiel _ Hp), (readable_fiel _ Hc),
    (readable_fiel _ Hdp).
  reflexivity.
Qed.

(** The document saved for faithful devices parses to the tree that was
    written, read back. *)
Lemma parse_documento devs :
  floats_fieis -> Forall aparelho_fiel devs ->
  ET.parse (documento (map model_dump devs))
  = Ok (ET.reread (arvore_escrita (map model_dump devs))).
Proof.
  intros Hf Hd. unfold documento. apply ETFacts.parse_write.
  - unfold arvore_escrita. apply ETFacts.readable_indent; [ reflexivity | ].
    exact (plain_arvore_de devs Hf Hd).
  - unfold arvore_escrita. rewrite ETFacts.tail_indent, arvore_de_registros.
    reflexivity.
Qed.

(** Loading a file that holds the document of faithful devices gives
    their dictionaries, and changes nothing. *)
Lemma carregar_documento devs out :
  floats_fieis -> Forall aparelho_fiel devs ->
  carregar_aparelhos_xml (mkWorld (Some (documento (map model_dump devs))) out)
  = (Ok (map model_dump devs),
     mkWorld (Some (documento (map model_dump devs))) out).
Proof.
  intros Hf Hd.
  unfold carregar_aparelhos_xml. cbn [arquivo].
  rewrite (parse_documento devs Hf Hd). cbn [res_bind].
  destruct (arvore_escrita_registros (map model_dump devs)) as [ _ Hr ].
  set (T := arvore_escrita (map model_dump devs)) in *.
  assert (Htags : Forall (fun c => ET.tag c = "aparelho"%string)
                    (ET.children (ET.reread T))).
  { rewrite ETFacts.children_reread. apply Forall_map, Forall_forall.
    intros c Hin. rewrite ETFacts.tag_reread.
    assert (Hm : In (ET.tag c) (map fst (map registro_sem_cauda (ET.children T)))).
    { rewrite map_map. apply in_map_iff. exists c. split; [ reflexivity | exact Hin ]. }
    rewrite Hr, map_map in Hm. apply in_map_iff in Hm.
    destruct Hm as [ ap [ <- _ ] ]. reflexivity. }
  rewrite (ETFacts.findall_all _ _ Htags), ETFacts.children_reread.
  rewrite (ler_aparelhos_reread (ET.children T) devs Hf Hd); [ reflexivity | ].
  transitivity (map snd (map registro_sem_cauda (ET.children T))).
  - rewrite map_map. reflexivity.
  - rewrite Hr, !map_map. reflexivity.
Qed.

(** The two ways of saying what the file holds agree on faithful devices:
    a file that is the document written for them loads as them. *)
Lemma guarda_carrega w devs :
  floats_fieis -> Forall aparelho_fiel devs ->
  guarda w (map model_dump devs) -> carrega w (map model_dump devs).
Proof.
  intros Hf Hd Hg. destruct w as [ a out ]. unfold guarda in Hg.
  cbn [arquivo] in Hg. subst a. eexists.
  split; [ exact (carregar_documento devs out Hf Hd) | reflexivity ].
Qed.

(** Saving faithful devices and loading: the list comes back.  This is
    the round trip on the inputs on which it holds; the empty texts and the
    characters that XML forbids or normalises are where it fails. *)
Theorem round_trip_of_faithful_devices devs w :
  floats_fieis -> Forall aparelho_fiel devs ->
  exists w1,
    salvar_aparelhos_xml (map model_dump devs) w = (Ok tt, w1)
    /\ guarda w1 (map model_dump devs)
    /\ carregar_aparelhos_xml w1 = (Ok (map model_dump devs), w1).
Proof.
  intros Hf Hd. eexists. split; [ reflexivity | ]. split; [ reflexivity | ].
  exact (carregar_documento devs (stdout w) Hf Hd).
Qed.

(** ** Records that cannot be converted *)

Lemma find_text_ok elem k t :
  find_text elem k = Ok t -> exists c, ET.find elem k = Some c /\ ET.text c = t.
Proof.
  unfold find_text. destruct (ET.find elem k) as [ c | ]; [ | discriminate ].
  intros H. injection H as <-. exists c. split; reflexivity.
Qed.

Ltac passo_ok H :=
  match type of H with
  | res_bind ?r _ = Ok _ =>
      let E := fresh "E" in
      destruct r eqn:E; cbn [res_bind] in H; [ | discriminate H ]
  end.

Lemma ler_aparelho_ok elem ap :
  ler_aparelho elem = Ok ap ->
  (forall k, In k campos -> ET.find elem k <> None)
  /\ (forall c, ET.find elem "id" = Some c -> exists n, py_int (ET.text c) = Ok n)
  /\ (forall c, ET.find elem "preco" = Some c ->
                exists x, py_float (ET.text c) = Ok x).
Proof.
  unfold ler_aparelho. intros H. repeat passo_ok H.
  repeat match goal with
         | E : find_text _ _ = Ok _ |- _ =>
             apply find_text_ok in E; destruct E as [ ? [ ? ? ] ]
         end.
  subst. split; [ | split ].
  - intros k Hk. simpl in Hk.
    repeat (destruct Hk as [ <- | Hk ]; [ congruence | ]). destruct Hk.
  - intros c Hc.
    match goal with
    | H1 : ET.find elem "id" = Some ?y, H2 : py_int (ET.text ?y) = Ok ?n |- _ =>
        exists n; rewrite Hc in H1; injection H1 as <-; exact H2
    end.
  - intros c Hc.
    match goal with
    | H1 : ET.find elem "preco" = Some ?y,
      H2 : py_float (ET.text ?y) = Ok ?n |- _ =>
        exists n; rewrite Hc in H1; injection H1 as <-; exact H2
    end.
Qed.

Lemma registro_defeituoso elem :
  falta_campo elem \/ valor_inconvertivel elem ->
  exists e, ler_aparelho elem = Raise e.
Proof.
  intros Hd. destruct (ler_aparelho elem) as [ ap | e ] eqn:H;
    [ exfalso | exists e; reflexivity ].
  destruct (ler_aparelho_ok _ _ H) as [ Hk [ Hi Hp ] ].
  destruct Hd as [ [ k [ Hin Hnone ] ] | [ [ c [ Hc Hbad ] ] | [ c [ Hc Hbad ] ] ] ].
  - exact (Hk k Hin Hnone).
  - destruct (Hi c Hc) as [ n Hn ]. exact (Hbad n Hn).
  - destruct (Hp c Hc) as [ x Hx ]. exact (Hbad x Hx).
Qed.

Lemma ler_aparelhos_defeituoso elems :
  Exists (fun elem => exists e, ler_aparelho elem = Raise e) elems ->
  forall acc, exists e, ler_aparelhos elems acc = Raise e.
Proof.
  induction 1 as [ x r [ e He ] | x r _ IH ]; intros acc; simpl.
  - rewrite He. exists e. reflexivity.
  - destruct (ler_aparelho x) as [ ap | e ]; cbn [res_bind].
    + apply IH.
    + exists e. reflexivity.
Qed.

(** ** What a load returns, and what a saved list is read as *)

Lemma find_text_clean elem k t :
  ET.clean_tree elem = true -> find_text elem k = Ok t -> ET.clean t = true.
Proof.
  intros Hc H. apply find_text_ok in H. destruct H as [ c [ Hf <- ] ].
  apply ETFacts.clean_text. apply ETFacts.clean_children in Hc.
  rewrite forallb_forall in Hc. apply Hc.
  unfold ET.find in Hf. apply find_some in Hf. exact (proj1 Hf).
Qed.

Lemma ler_aparelho_lido elem ap :
  ET.clean_tree elem = true -> ler_aparelho elem = Ok ap -> registro_lido ap.
Proof.
  intros Hc H. unfold ler_aparelho in H. repeat passo_ok H.
  injection H as <-.
  repeat match goal with
         | E : find_text elem _ = Ok _ |- _ =>
             apply (find_text_clean elem _ _ Hc) in E
         end.
  unfold registro_lido. do 6 eexists.
  split; [ | split; [ | split; [ | split; [ | reflexivity ] ] ] ]; assumption.
Qed.

Lemma ler_aparelhos_lido elems :
  forallb ET.clean_tree elems = true ->
  forall acc l,
    Forall registro_lido acc -> ler_aparelhos elems acc = Ok l ->
    Forall registro_lido l.
Proof.
  induction elems as [ | e r IH ]; intros Hc acc l Hacc H; simpl in H.
  - injection H as <-. exact Hacc.
  - cbn [forallb] in Hc. apply andb_true_iff in Hc. destruct Hc as [ He Hr ].
    destruct (ler_aparelho e) as [ ap | ] eqn:Hap; cbn [res_bind] in H;
      [ | discriminate H ].
    apply (IH Hr (acc ++ [ap]) l); [ | exact H ].
    apply Forall_app. split; [ exact Hacc | ].
    constructor; [ exact (ler_aparelho_lido e ap He Hap) | constructor ].
Qed.

Lemma carregar_lido w l w1 :
  carregar_aparelhos_xml w = (Ok l, w1) -> Forall registro_lido l.
Proof.
  intros H.
  destruct (carregar_inv _ _ _ H) as [ _ -> _ | c root _ Hp Hl _ | _ _ _ -> _ ];
    try constructor.
  apply (ler_aparelhos_lido _) with (acc := []) (l := l) in Hl; [ exact Hl | | constructor ].
  pose proof (ETFacts.clean_children _ (ETFacts.parse_clean _ _ Hp)) as Hc.
  rewrite forallb_forall in Hc |- *. intros e He. apply Hc.
  unfold ET.findall in He. apply filter_In in He. exact (proj1 He).
Qed.

Lemma of_text_simples t : ET.clean t = true -> texto_simples (of_text t).
Proof.
  destruct t as [ s | ]; [ | left; reflexivity ].
  intros H. right. exists s. split; [ reflexivity | ].
  exact (ETFacts.clean_readable _ H).
Qed.

Lemma registro_lido_simples ap : registro_lido ap -> registro_simples ap.
Proof.
  intros [ n [ tn [ tm [ x [ tc [ td [ Hn [ Hm [ Hc [ Hd -> ] ] ] ] ] ] ] ] ] ].
  exists n, (of_text tn), (of_text tm), x, (of_text tc), (of_text td).
  repeat (split; [ apply of_text_simples; assumption | ]). reflexivity.
Qed.

Lemma model_dump_simples a : aparelho_simples a -> registro_simples (model_dump a).
Proof.
  intros [ Hn [ Hm [ Hc Hd ] ] ].
  exists (id a), (VStr (nome a)), (VStr (marca a)), (preco a),
    (VStr (categoria a)), (VStr (deposito a)).
  repeat (split; [ right; eexists; split;
                   [ reflexivity | apply ETFacts.plain_readable; assumption ] | ]).
  reflexivity.
Qed.

Lemma registro_simples_forma ap : registro_simples ap -> forma ap.
Proof.
  intros [ n [ vn [ vm [ x [ vc [ vd [ _ [ _ [ _ [ _ -> ] ] ] ] ] ] ] ] ] ].
  split; [ reflexivity | exists n; reflexivity ].
Qed.

(** The text saved for a text value is readable, and is read as the value
    [relido_valor] gives. *)
Lemma texto_simples_relido v :
  texto_simples v ->
  ET.readable_text (str v) = true
  /\ of_text (ET.reread_text (Some (str v))) = relido_valor v.
Proof.
  intros [ -> | [ s [ -> Hs ] ] ].
  - split; reflexivity.
  - split; [ exact Hs | ]. destruct s; reflexivity.
Qed.

Lemma ler_aparelho_relido c ap :
  floats_fieis -> registro_simples ap ->
  filhos_sem_cauda c = map (fun kv => (fst kv, Some (str (snd kv)), [])) ap ->
  ler_aparelho (ET.reread c) = Ok (relido ap).
Proof.
  intros Hf [ n [ vn [ vm [ x [ vc [ vd [ Hn [ Hm [ Hc [ Hd -> ] ] ] ] ] ] ] ] ] ] H.
  destruct (Hf x) as [ Hp Hpt ].
  rewrite (ler_aparelho_campos (ET.reread c)
             (Some (str_int n)) (ET.reread_text (Some (str vn)))
             (ET.reread_text (Some (str vm))) (Some (str_float x))
             (ET.reread_text (Some (str vc))) (ET.reread_text (Some (str vd)))).
  - cbn [py_int py_float]. rewrite int_of_str_str_int, Hp. cbn [res_bind].
    rewrite (proj2 (texto_simples_relido vn Hn)),
      (proj2 (texto_simples_relido vm Hm)),
      (proj2 (texto_simples_relido vc Hc)),
      (proj2 (texto_simples_relido vd Hd)).
    reflexivity.
  - rewrite campos_de_reread, H. cbn [map fst snd str].
    rewrite (reread_fiel _ (texto_fiel_str_int n)), (reread_fiel _ Hpt).
    reflexivity.
Qed.

Lemma ler_aparelhos_relido cs :
  floats_fieis ->
  forall l,
    Forall registro_simples l ->
    map filhos_sem_cauda cs
    = map (fun ap : dict => map (fun kv => (fst kv, Some (str (snd kv)), [])) ap) l ->
    forall acc, ler_aparelhos (map ET.reread cs) acc = Ok (acc ++ map relido l).
Proof.
  intros Hf l Hl. revert cs.
  induction Hl as [ | ap r Hap _ IH ]; intros cs H acc.
  - destruct cs; [ | discriminate H ]. simpl. rewrite app_nil_r. reflexivity.
  - destruct cs as [ | c cs ]; [ discriminate H | ].
    cbn [map] in H. injection H as Hc Hr.
    cbn [map ler_aparelhos]. rewrite (ler_aparelho_relido c ap Hf Hap Hc).
    cbn [res_bind]. rewrite (IH cs Hr), <- app_assoc. reflexivity.
Qed.

Lemma plain_arvore_de_simples l :
  floats_fieis -> Forall registro_simples l ->
  ET.readable_tree (arvore_de l) = true.
Proof.
  intros Hf Hl. rewrite arvore_de_registros. cbn [ET.readable_tree].
  change (ET.plain_name "estoque") with true. cbn [ET.readable andb].
  rewrite forallb_forall. intros e Hin. apply in_map_iff in Hin.
  destruct Hin as [ ap [ <- Hin ] ].
  rewrite Forall_forall in Hl.
  destruct (Hl ap Hin)
    as [ n [ vn [ vm [ x [ vc [ vd [ Hn [ Hm [ Hc [ Hd -> ] ] ] ] ] ] ] ] ] ].
  destruct (Hf x) as [ _ Hp ].
  rewrite elemento_de_folhas.
  cbn [map folha fst snd ET.readable_tree forallb ET.readable].
  cbn [str].
  rewrite (readable_fiel _ (texto_fiel_str_int n)),
    (proj1 (texto_simples_relido vn Hn)), (proj1 (texto_simples_relido vm Hm)),
    (readable_fiel _ Hp), (proj1 (texto_simples_relido vc Hc)),
    (proj1 (texto_simples_relido vd Hd)).
  reflexivity.
Qed.

(** The document written for a list of device dictionaries with readable
    texts parses to the tree that was written, read back. *)
Lemma parse_documento_simples l :
  floats_fieis -> Forall registro_simples l ->
  ET.parse (documento l) = Ok (ET.reread (arvore_escrita l)).
Proof.
  intros Hf Hl. unfold documento. apply ETFacts.parse_write.
  - unfold arvore_escrita. apply ETFacts.readable_indent; [ reflexivity | ].
    exact (plain_arvore_de_simples l Hf Hl).
  - unfold arvore_escrita. rewrite ETFacts.tail_indent, arvore_de_registros.
    reflexivity.
Qed.

(** Loading a file that holds the document written for a list of device
    dictionaries with readable texts: every record comes back, with
    [None] for an empty text, the text [None] for a [None], and the line
    ends normalised. *)
Lemma carregar_documento_simples l out :
  floats_fieis -> Forall registro_simples l ->
  carregar_aparelhos_xml (mkWorld (Some (documento l)) out)
  = (Ok (map relido l), mkWorld (Some (documento l)) out).
Proof.
  intros Hf Hl.
  pose proof (parse_documento_simples l Hf Hl) as Hp.
  unfold carregar_aparelhos_xml. cbn [arquivo]. rewrite Hp. cbn [res_bind].
  destruct (arvore_escrita_registros l) as [ _ Hr ].
  set (T := arvore_escrita l) in *.
  assert (Htags : Forall (fun c => ET.tag c = "aparelho"%string)
                    (ET.children (ET.reread T))).
  { rewrite ETFacts.children_reread. apply Forall_map, Forall_forall.
    intros c Hin. rewrite ETFacts.tag_reread.
    assert (Hm : In (ET.tag c) (map fst (map registro_sem_cauda (ET.children T)))).
    { rewrite map_map. apply in_map_iff. exists c. split; [ reflexivity | exact Hin ]. }
    rewrite Hr, map_map in Hm. apply in_map_iff in Hm.
    destruct Hm as [ ap [ <- _ ] ]. reflexivity. }
  rewrite (ETFacts.findall_all _ _ Htags), ETFacts.children_reread.
  rewrite (ler_aparelhos_relido (ET.children T) Hf l Hl); [ reflexivity | ].
  transitivity (map snd (map registro_sem_cauda (ET.children T))).
  - rewrite map_map. reflexivity.
  - rewrite Hr, !map_map. reflexivity.
Qed.

(** Reading back does not change the ids. *)
Lemma getitem_relido (ap : dict) k :
  getitem (relido ap) k
  = match getitem ap k with
    | Ok v => Ok (relido_valor v)
    | Raise e => Raise e
    end.
Proof.
  induction ap as [ | [ k' v ] r IH ]; [ reflexivity | ].
  cbn [relido map getitem fst snd]. destruct (String.eqb k' k); [ reflexivity | ].
  exact IH.
Qed.

Lemma com_id_relido (ap : dict) n : com_id (relido ap) n = com_id ap n.
Proof.
  unfold com_id. rewrite getitem_relido.
  destruct (getitem ap "id") as [ [ m | x | [ | c s ] | ] | e ]; reflexivity.
Qed.

Lemma ausente_relido n (l : list dict) : ausente n l -> ausente n (map relido l).
Proof.
  intros Ha ap Hin. apply in_map_iff in Hin. destruct Hin as [ ap0 [ <- Hin ] ].
  rewrite com_id_relido. exact (Ha ap0 Hin).
Qed.

(** A faithful text is read back as it is. *)
Lemma relido_valor_fiel s : texto_fiel s -> relido_valor (VStr s) = VStr s.
Proof.
  intros [ Hn Hp ]. destruct s as [ | c r ]; [ contradiction | ].
  cbn [relido_valor]. rewrite (ETFacts.newlines_plain_text _ Hp). reflexivity.
Qed.

(** A text without carriage return is read back as it is, unless it is
    empty. *)
Lemma relido_valor_plain s :
  ET.plain_text s = true ->
  relido_valor (VStr s)
  = match s with
    | EmptyString => VNone
    | _ => VStr s
    end.
Proof.
  intros Hp. destruct s as [ | c r ]; [ reflexivity | ].
  cbn [relido_valor]. rewrite (ETFacts.newlines_plain_text _ Hp). reflexivity.
Qed.

Lemma relido_fiel a : aparelho_fiel a -> relido (model_dump a) = model_dump a.
Proof.
  intros [ Hn [ Hm [ Hc Hd ] ] ].
  destruct a as [ i n m p c d ]. cbn [nome marca categoria deposito] in *.
  cbn [relido model_dump map fst snd id nome marca preco categoria deposito].
  rewrite (relido_valor_fiel n Hn), (relido_valor_fiel m Hm),
    (relido_valor_fiel c Hc), (relido_valor_fiel d Hd).
  reflexivity.
Qed.



(** ** What each endpoint does after a load *)

Lemma carregar_exn w e w' :
  carregar_aparelhos_xml w = (Raise e, w') ->
  w' = w /\ (erro_de_registro e \/ e = Unmodelled).
Proof.
  unfold carregar_aparelhos_xml. destruct (arquivo w) as [ content | ];
    [ | discriminate ].
  unfold ET.parse. destruct (ET.parse_document content) as [ root | | ];
    cbn [res_bind].
  - destruct (ler_aparelhos _ _) as [ l | e0 ] eqn:Hl; [ discriminate | ].
    pose proof (ler_aparelhos_exn _ _ _ Hl) as Hk.
    destruct Hk as [ -> | [ -> | -> ] ]; intros H; injection H as <- <-;
      (split; [ reflexivity | left ]); unfold erro_de_registro; tauto.
  - discriminate.
  - intros H. injection H as <- <-. split; [ reflexivity | right; reflexivity ].
Qed.

Lemma buscar_resultado w l w1 n :
  carregar_aparelhos_xml w = (Ok l, w1) ->
  buscar_aparelho n w
  = match List.find (fun a => com_id a n) l with
    | Some ap => (Ok ap, w1)
    | None => (Raise (nao_encontrado n), w1)
    end.
Proof.
  intros H. unfold buscar_aparelho. rewrite (bind_ok _ _ _ _ _ H).
  unfold bind, lift.
  rewrite (primeiro_com_id_forma _ n (carregar_forma _ _ _ H)).
  destruct (List.find _ l); reflexivity.
Qed.

Lemma adicionar_resultado w l w1 d :
  carregar_aparelhos_xml w = (Ok l, w1) ->
  adicionar_aparelho d w
  = if existsb (fun a => com_id a (id d)) l
    then (Raise id_ja_existe, w1)
    else (Ok (adicionado, d),
          mkWorld (Some (documento (l ++ [model_dump d]))) (stdout w1)).
Proof.
  intros H. unfold adicionar_aparelho. rewrite (bind_ok _ _ _ _ _ H).
  unfold bind, lift. rewrite (any_id_forma _ (id d) (carregar_forma _ _ _ H)).
  destruct (existsb _ l); reflexivity.
Qed.

Lemma atualizar_presente w l1 old l2 w1 n novo :
  carregar_aparelhos_xml w = (Ok (l1 ++ old :: l2), w1) ->
  ausente n l1 -> com_id old n = true ->
  atualizar_aparelho n novo w
  = if negb (Z.eqb (id novo) n)
    then (Raise id_diferente, w1)
    else (Ok novo,
          mkWorld (Some (documento (l1 ++ model_dump novo :: l2))) (stdout w1)).
Proof.
  intros H Ha Ho. unfold atualizar_aparelho. rewrite (bind_ok _ _ _ _ _ H).
  unfold bind, lift.
  rewrite (indice_com_id_presente _ _ _ _ (carregar_forma _ _ _ H) Ha Ho 0%nat).
  cbn [Nat.add]. destruct (negb (Z.eqb (id novo) n)); [ reflexivity | ].
  rewrite list_set_meio. reflexivity.
Qed.

Lemma deletar_resultado w l w1 n :
  carregar_aparelhos_xml w = (Ok l, w1) ->
  deletar_aparelho n w
  = if Nat.eqb (length (filter (fun ap => negb (com_id ap n)) l)) (length l)
    then (Raise (nao_encontrado n), w1)
    else (Ok (deletado n),
          mkWorld (Some (documento (filter (fun ap => negb (com_id ap n)) l)))
            (stdout w1)).
Proof.
  intros H. unfold deletar_aparelho. rewrite (bind_ok _ _ _ _ _ H).
  unfold bind, lift. rewrite (sem_id_forma _ n (carregar_forma _ _ _ H)).
  destruct (Nat.eqb _ _); reflexivity.
Qed.

Lemma deletar_presente w l w1 n :
  carregar_aparelhos_xml w = (Ok l, w1) -> presente n l ->
  deletar_aparelho n w
  = (Ok (deletado n),
     mkWorld (Some (documento (filter (fun ap => negb (com_id ap n)) l)))
       (stdout w1)).
Proof.
  intros H Hp. rewrite (deletar_resultado _ _ _ n H).
  pose proof (filter_presente _ _ Hp) as Hlt.
  destruct (Nat.eqb_spec (length (filter (fun ap => negb (com_id ap n)) l))
              (length l)) as [ E | _ ]; [ lia | reflexivity ].
Qed.

Lemma transferir_presente w l1 old l2 w1 n dep :
  carregar_aparelhos_xml w = (Ok (l1 ++ old :: l2), w1) ->
  ausente n l1 -> com_id old n = true ->
  transferir_aparelho n dep w
  = (Ok (setitem old "deposito" (VStr dep)),
     mkWorld
       (Some (documento (l1 ++ setitem old "deposito" (VStr dep) :: l2)))
       (stdout w1)).
Proof.
  intros H Ha Ho. unfold transferir_aparelho. rewrite (bind_ok _ _ _ _ _ H).
  unfold bind, lift.
  rewrite (mudar_deposito_presente _ _ _ _ dep (carregar_forma _ _ _ H) Ha Ho).
  reflexivity.
Qed.

Lemma find_primeira (l1 : list dict) old l2 n :
  ausente n l1 -> com_id old n = true ->
  List.find (fun a => com_id a n) (l1 ++ old :: l2) = Some old.
Proof.
  intros Ha Ho. induction l1 as [ | ap r IH ]; cbn [List.app List.find].
  - rewrite Ho. reflexivity.
  - rewrite (Ha ap (or_introl eq_refl)).
    exact (IH (fun x Hx => Ha x (or_intror Hx))).
Qed.

Lemma find_ausente (l : list dict) n :
  ausente n l -> List.find (fun a => com_id a n) l = None.
Proof.
  intros Ha. induction l as [ | ap r IH ]; [ reflexivity | ].
  cbn [List.find]. rewrite (Ha ap (or_introl eq_refl)).
  exact (IH (fun x Hx => Ha x (or_intror Hx))).
Qed.

Lemma find_relido (l : list dict) n :
  List.find (fun a => com_id a n) (map relido l)
  = option_map relido (List.find (fun a => com_id a n) l).
Proof.
  induction l as [ | ap r IH ]; [ reflexivity | ].
  cbn [map List.find]. rewrite com_id_relido.
  destruct (com_id ap n); [ reflexivity | exact IH ].
Qed.

Lemma Forall_simples_lidos (l : list dict) :
  Forall registro_lido l -> Forall registro_simples l.
Proof.
  intros H. eapply Forall_impl; [ | exact H ]. exact registro_lido_simples.
Qed.

Lemma Forall_filter {A} (P : A -> Prop) f (l : list A) :
  Forall P l -> Forall P (filter f l).
Proof.
  intros H. rewrite Forall_forall in *. intros x Hx.
  apply filter_In in Hx. exact (H x (proj1 Hx)).
Qed.

(** Assigning a readable location to a device dictionary gives a device
    dictionary. *)
Lemma setitem_deposito_simples (ap : dict) dep :
  registro_simples ap -> ET.plain_text dep = true ->
  registro_simples (setitem ap "deposito" (VStr dep))
  /\ id_de (setitem ap "deposito" (VStr dep)) = id_de ap.
Proof.
  intros [ n [ vn [ vm [ x [ vc [ vd [ Hn [ Hm [ Hc [ Hd -> ] ] ] ] ] ] ] ] ] ] Hdep.
  split; [ | reflexivity ].
  exists n, vn, vm, x, vc, (VStr dep).
  repeat (split; [ assumption | ]).
  split; [ right; exists dep; split;
           [ reflexivity | exact (ETFacts.plain_readable dep Hdep) ]
         | reflexivity ].
Qed.

(** ** Ids *)

Lemma id_de_forma (ap : dict) n :
  forma ap -> (id_de ap = Some n <-> com_id ap n = true).
Proof.
  intros Hf. destruct (com_id_forma ap n Hf) as [ m [ Hm Hc ] ].
  unfold id_de. rewrite Hm, Hc. split.
  - intros H. injection H as ->. apply Z.eqb_refl.
  - intros H. apply Z.eqb_eq in H. subst m. reflexivity.
Qed.

Lemma ausente_ids (l : list dict) n :
  Forall forma l -> ausente n l -> ~ In (Some n) (map id_de l).
Proof.
  intros Hf Ha Hin. apply in_map_iff in Hin. destruct Hin as [ ap [ Hid Hin ] ].
  rewrite Forall_forall in Hf.
  apply (id_de_forma ap n (Hf ap Hin)) in Hid.
  rewrite (Ha ap Hin) in Hid. discriminate Hid.
Qed.

Lemma NoDup_map_filter {A B} (g : A -> B) f (l : list A) :
  NoDup (map g l) -> NoDup (map g (filter f l)).
Proof.
  induction l as [ | x r IH ]; intros H; [ exact H | ].
  cbn [map] in H. apply NoDup_cons_iff in H. destruct H as [ Hx Hr ].
  cbn [filter]. destruct (f x); [ | exact (IH Hr) ].
  cbn [map]. constructor; [ | exact (IH Hr) ].
  intros Hin. apply Hx. apply in_map_iff in Hin.
  destruct Hin as [ y [ Hy Hin ] ]. apply filter_In in Hin.
  apply in_map_iff. exists y. split; [ exact Hy | exact (proj1 Hin) ].
Qed.

(** ** The claims *)

(** C2.  Not-found consistency.  When the stored collection loads as [l]
    and no record of [l] has the id [n], each of get ([buscar_aparelho]),
    replace ([atualizar_aparelho], whatever the body), remove
    ([deletar_aparelho]) and transfer ([transferir_aparelho], whatever the
    location) raises the 404 exception [nao_encontrado n], and ends in the
    world the load left: nothing is saved.  Loading again from that world
    gives [l] again, and a file that existed has the bytes it had. *)
Theorem not_found_leaves_store w l w1 n :
  carregar_aparelhos_xml w = (Ok l, w1) ->
  ausente n l ->
  (buscar_aparelho n w = (Raise (nao_encontrado n), w1)
   /\ (forall novo, atualizar_aparelho n novo w = (Raise (nao_encontrado n), w1))
   /\ deletar_aparelho n w = (Raise (nao_encontrado n), w1)
   /\ (forall dep, transferir_aparelho n dep w = (Raise (nao_encontrado n), w1)))
  /\ (exists detail, nao_encontrado n = HTTPException 404 detail)
  /\ carrega w1 l
  /\ (arquivo w <> None -> arquivo w1 = arquivo w).
Proof.
  intros H Ha. split; [ | split; [ eexists; reflexivity | exact (so_carregou _ _ _ H) ] ].
  split; [ exact (buscar_ausente _ _ _ _ H Ha) | ].
  split; [ intros novo; exact (atualizar_ausente _ _ _ _ novo H Ha) | ].
  split; [ exact (deletar_ausente _ _ _ _ H Ha) | ].
  intros dep. exact (transferir_ausente _ _ _ _ dep H Ha).
Qed.

(** Add, up to the save.  When the stored collection loads as [l]: if a
    record of [l] has the id of [d], [adicionar_aparelho d] raises the 400
    exception [id_ja_existe], nothing is saved and the stored collection
    still loads as [l]; otherwise it answers with [d], and the list it
    hands to [salvar_aparelhos_xml] is [l] with the dictionary of [d]
    appended as the last element.  (What that file is then read as is
    another matter: see [round_trip_up_to_empty_texts] and
    [add_then_get_and_list].) *)
Theorem add_rejects_duplicate_or_appends w l w1 d :
  carregar_aparelhos_xml w = (Ok l, w1) ->
  (presente (id d) l ->
   adicionar_aparelho d w = (Raise id_ja_existe, w1)
   /\ (exists detail, id_ja_existe = HTTPException 400 detail)
   /\ carrega w1 l
   /\ (arquivo w <> None -> arquivo w1 = arquivo w))
  /\ (ausente (id d) l ->
      exists w2,
        adicionar_aparelho d w = (Ok (adicionado, d), w2)
        /\ guarda w2 (l ++ [model_dump d])
        /\ stdout w2 = stdout w1).
Proof.
  intros H. pose proof (carregar_forma _ _ _ H) as Hf. split.
  - intros Hp. split; [ | split; [ eexists; reflexivity | exact (so_carregou _ _ _ H) ] ].
    unfold adicionar_aparelho. rewrite (bind_ok _ _ _ _ _ H).
    unfold bind, lift. rewrite (any_id_forma _ (id d) Hf).
    rewrite (proj1 (presente_existsb _ _) Hp). reflexivity.
  - intros Ha.
    destruct (salvar_guarda (l ++ [model_dump d]) w1) as [ w2 [ Hs [ Hg Ho ] ] ].
    exists w2. split; [ | split; assumption ].
    unfold adicionar_aparelho. rewrite (bind_ok _ _ _ _ _ H).
    unfold bind at 1. unfold lift. rewrite (any_id_forma _ (id d) Hf).
    rewrite (proj1 (ausente_existsb _ _) Ha).
    rewrite (bind_ok _ _ _ _ _ Hs). reflexivity.
Qed.

(** Replace, up to the save.  When the stored collection loads as [l] and
    a record of [l] has the path id [n]: with a body whose id differs from
    [n], [atualizar_aparelho] raises the 400 exception [id_diferente],
    nothing is saved and the stored collection still loads as [l]; with a
    body whose id is [n], it answers with the body, and the list it hands
    to [salvar_aparelhos_xml] is [l] with the first record of id [n]
    replaced, at its place, by the dictionary of the body.  (What that
    file is then read as is stated in [replace_then_get].) *)
Theorem replace_checks_id_then_replaces_in_place w l w1 n novo :
  carregar_aparelhos_xml w = (Ok l, w1) ->
  presente n l ->
  (id novo <> n ->
   atualizar_aparelho n novo w = (Raise id_diferente, w1)
   /\ (exists detail, id_diferente = HTTPException 400 detail)
   /\ carrega w1 l
   /\ (arquivo w <> None -> arquivo w1 = arquivo w))
  /\ (id novo = n ->
      exists l1 old l2 w2,
        l = l1 ++ old :: l2 /\ ausente n l1 /\ com_id old n = true
        /\ atualizar_aparelho n novo w = (Ok novo, w2)
        /\ guarda w2 (l1 ++ model_dump novo :: l2)
        /\ stdout w2 = stdout w1).
Proof.
  intros H Hp. pose proof (carregar_forma _ _ _ H) as Hf.
  destruct (primeira_ocorrencia _ _ Hp) as [ l1 [ old [ l2 [ El [ Ha Ho ] ] ] ] ].
  assert (Hi : indice_com_id l n 0 = Ok (Some (length l1))).
  { subst l. exact (indice_com_id_presente _ _ _ _ Hf Ha Ho 0%nat). }
  split.
  - intros Hne. split; [ | split; [ eexists; reflexivity | exact (so_carregou _ _ _ H) ] ].
    unfold atualizar_aparelho. rewrite (bind_ok _ _ _ _ _ H).
    unfold bind, lift. rewrite Hi.
    apply Z.eqb_neq in Hne. rewrite Hne. reflexivity.
  - intros He.
    destruct (salvar_guarda (l1 ++ model_dump novo :: l2) w1) as [ w2 [ Hs [ Hg Hout ] ] ].
    exists l1, old, l2, w2.
    split; [ exact El | ]. split; [ exact Ha | ]. split; [ exact Ho | ].
    split; [ | split; assumption ].
    unfold atualizar_aparelho. rewrite (bind_ok _ _ _ _ _ H).
    unfold bind at 1. unfold lift. rewrite Hi.
    apply Z.eqb_eq in He. rewrite He. cbn [negb].
    rewrite El, list_set_meio.
    rewrite (bind_ok _ _ _ _ _ Hs). reflexivity.
Qed.

(** Transfer, up to the save.  When the stored collection loads as [l]
    and a record of [l] has the id [n], [transferir_aparelho n dep]
    succeeds.  The list it hands to [salvar_aparelhos_xml] is [l] with
    the first record of id [n] changed, at its place, and nothing else;
    the changed record has the same keys in the same order, [dep] under
    ["deposito"] and its former value under every other key; it is the
    answer of the call.  (What that file is then read as is stated in
    [transfer_then_get].) *)
Theorem transfer_changes_only_the_location w l w1 n dep :
  carregar_aparelhos_xml w = (Ok l, w1) ->
  presente n l ->
  exists l1 old l2 w2,
    let mudado := setitem old "deposito" (VStr dep) in
    l = l1 ++ old :: l2 /\ ausente n l1 /\ com_id old n = true
    /\ transferir_aparelho n dep w = (Ok mudado, w2)
    /\ guarda w2 (l1 ++ mudado :: l2)
    /\ stdout w2 = stdout w1
    /\ map fst mudado = map fst old
    /\ getitem mudado "deposito" = Ok (VStr dep)
    /\ (forall k, k <> "deposito"%string -> getitem mudado k = getitem old k).
Proof.
  intros H Hp. pose proof (carregar_forma _ _ _ H) as Hf.
  destruct (primeira_ocorrencia _ _ Hp) as [ l1 [ old [ l2 [ El [ Ha Ho ] ] ] ] ].
  set (mudado := setitem old "deposito" (VStr dep)).
  destruct (salvar_guarda (l1 ++ mudado :: l2) w1) as [ w2 [ Hs [ Hg Hout ] ] ].
  exists l1, old, l2, w2. cbv zeta. fold mudado.
  split; [ exact El | ]. split; [ exact Ha | ]. split; [ exact Ho | ].
  split.
  { unfold transferir_aparelho. rewrite (bind_ok _ _ _ _ _ H).
    unfold bind at 1. unfold lift. subst l.
    rewrite (mudar_deposito_presente _ _ _ _ dep Hf Ha Ho).
    cbn [snd fst]. fold mudado.
    rewrite (bind_ok _ _ _ _ _ Hs). reflexivity. }
  split; [ exact Hg | ]. split; [ exact Hout | ].
  assert (Hold : forma old).
  { subst l. apply Forall_app in Hf. destruct Hf as [ _ Hf ].
    exact (Forall_inv Hf). }
  split.
  { apply keys_setitem. destruct Hold as [ -> _ ]. simpl. tauto. }
  split; [ apply getitem_setitem_eq | ].
  intros k Hk. apply getitem_setitem_ne. exact Hk.
Qed.

(** The tree that is serialised.  For every list [l] of device
    dictionaries (the six keys in order), [salvar_aparelhos_xml l] puts in
    the file the serialisation of one tree [T]: its root is [estoque]; it
    has one [aparelho] child per dictionary, in order; each child has
    exactly the six children [id], [nome], [marca], [preco], [categoria],
    [deposito], in this order; each of them is a leaf, and its text is the
    [str] of the value under that key.  (Whether the bytes written are a
    document with that content depends on the texts: see
    [saved_document_parses_to_six_leaves_per_device].) *)
Theorem saved_document_has_six_leaves_per_device (l : list dict) w :
  Forall (fun ap => map fst ap = campos) l ->
  exists T,
    salvar_aparelhos_xml l w = (Ok tt, mkWorld (Some (ET.write T)) (stdout w))
    /\ ET.tag T = "estoque"%string
    /\ map ET.tag (ET.children T) = map (fun _ => "aparelho"%string) l
    /\ map (fun c => map ET.tag (ET.children c)) (ET.children T)
       = map (fun _ => campos) l
    /\ map (fun c => map ET.text (ET.children c)) (ET.children T)
       = map (fun ap => map (fun kv => Some (str (snd kv))) ap) l
    /\ Forall (fun c => Forall (fun f => ET.children f = []) (ET.children c))
         (ET.children T).
Proof.
  intros Hk. exists (arvore_escrita l).
  destruct (arvore_escrita_registros l) as [ Ht Hc ].
  split; [ reflexivity | ]. split; [ exact Ht | ].
  set (cs := ET.children (arvore_escrita l)) in *.
  assert (P1 : map ET.tag cs = map fst (map registro_sem_cauda cs)).
  { rewrite map_map. reflexivity. }
  assert (P2 : map filhos_sem_cauda cs = map snd (map registro_sem_cauda cs)).
  { rewrite map_map. reflexivity. }
  rewrite Hc in P1, P2. rewrite map_map in P1, P2. cbn [fst snd] in P1, P2.
  split; [ exact P1 | ].
  split.
  { transitivity (map (fun x => map (fun y => fst (fst y)) x) (map filhos_sem_cauda cs)).
    - rewrite map_map. apply map_ext. intros c. unfold filhos_sem_cauda.
      rewrite map_map. reflexivity.
    - rewrite P2, map_map. apply map_ext_in. intros ap Hap.
      rewrite Forall_forall in Hk. rewrite <- (Hk ap Hap).
      rewrite map_map. reflexivity. }
  split.
  { transitivity (map (fun x => map (fun y => snd (fst y)) x) (map filhos_sem_cauda cs)).
    - rewrite map_map. apply map_ext. intros c. unfold filhos_sem_cauda.
      rewrite map_map. reflexivity.
    - rewrite P2, map_map. apply map_ext. intros ap.
      rewrite map_map. reflexivity. }
  assert (P3 : Forall (fun fs => Forall (fun y : string * option string * list ET.Element => snd y = []) fs)
                 (map filhos_sem_cauda cs)).
  { rewrite P2. apply Forall_map, Forall_forall. intros ap _.
    apply Forall_map, Forall_forall. intros kv _. reflexivity. }
  rewrite Forall_map in P3. eapply Forall_impl; [ | exact P3 ].
  intros c H. unfold filhos_sem_cauda in H. rewrite Forall_map in H. exact H.
Qed.


(** C10.  Replace checks for the record first.  When the path id [n] is
    absent from the stored collection and the body's id differs from [n],
    [atualizar_aparelho] raises the 404 exception [nao_encontrado n], which
    is not [id_diferente]. *)
Theorem replace_reports_not_found_before_id_mismatch w l w1 n novo :
  carregar_aparelhos_xml w = (Ok l, w1) ->
  ausente n l ->
  id novo <> n ->
  atualizar_aparelho n novo w = (Raise (nao_encontrado n), w1)
  /\ (exists detail, nao_encontrado n = HTTPException 404 detail)
  /\ nao_encontrado n <> id_diferente.
Proof.
  intros H Ha _. split; [ exact (atualizar_ausente _ _ _ _ novo H Ha) | ].
  split; [ eexists; reflexivity | ]. discriminate.
Qed.

(** C5, as amended.  When the stored collection loads as [l] and a record
    of [l] has the id [n], [deletar_aparelho n] succeeds, whether one or
    several records have that id, and the file it leaves is the document
    written for the records of [l] whose id is not [n], in their order:
    every record with the id [n] is excluded. *)
Theorem remove_excludes_every_match w l w1 n :
  carregar_aparelhos_xml w = (Ok l, w1) ->
  presente n l ->
  exists w2,
    deletar_aparelho n w = (Ok (deletado n), w2)
    /\ guarda w2 (filter (fun ap => negb (com_id ap n)) l)
    /\ ausente n (filter (fun ap => negb (com_id ap n)) l)
    /\ stdout w2 = stdout w1.
Proof.
  intros H Hp. pose proof (carregar_forma _ _ _ H) as Hf.
  destruct (salvar_guarda (filter (fun ap => negb (com_id ap n)) l) w1)
    as [ w2 [ Hs [ Hg Hout ] ] ].
  exists w2. split; [ | split; [ exact Hg | split; [ apply ausente_filter | exact Hout ] ] ].
  unfold deletar_aparelho. rewrite (bind_ok _ _ _ _ _ H).
  unfold bind at 1. unfold lift. rewrite (sem_id_forma _ n Hf).
  pose proof (filter_presente _ _ Hp) as Hlt.
  destruct (Nat.eqb_spec (length (filter (fun ap => negb (com_id ap n)) l)) (length l))
    as [ E | _ ]; [ lia | ].
  rewrite (bind_ok _ _ _ _ _ Hs). reflexivity.
Qed.

(** C4, as amended.  When the file parses as well-formed XML and one of
    its records lacks one of the six fields or holds a text that does not
    convert (an ["id"] that is not an integer, a ["preco"] that is not a
    number), [carregar_aparelhos_xml] does not return a collection: an
    [AttributeError], [TypeError] or [ValueError] leaves the function, the
    handler of [ET.ParseError] does not apply, and the world is as it
    was. *)
Theorem load_propagates_record_errors w content root :
  arquivo w = Some content ->
  ET.parse content = Ok root ->
  Exists (fun elem => falta_campo elem \/ valor_inconvertivel elem)
    (ET.findall root "aparelho") ->
  exists e,
    carregar_aparelhos_xml w = (Raise e, w)
    /\ erro_de_registro e
    /\ e <> ParseError.
Proof.
  intros Ha Hp Hd.
  assert (Hd' : Exists (fun elem => exists e, ler_aparelho elem = Raise e)
                  (ET.findall root "aparelho")).
  { eapply Exists_impl; [ | exact Hd ]. exact registro_defeituoso. }
  destruct (ler_aparelhos_defeituoso _ Hd' []) as [ e He ].
  pose proof (ler_aparelhos_exn _ _ _ He) as Hk.
  exists e. split; [ | split; [ exact Hk | ] ].
  - unfold carregar_aparelhos_xml. rewrite Ha, Hp. cbn [res_bind]. rewrite He.
    destruct Hk as [ -> | [ -> | -> ] ]; reflexivity.
  - exact (erro_de_registro_nao_ParseError _ Hk).
Qed.

(** C8.  When there is no file, [carregar_aparelhos_xml] returns the empty
    list and leaves a file; its bytes are the XML declaration and an empty
    [estoque] element, a well-formed document whose root has no child. *)
Theorem load_creates_empty_document out :
  carregar_aparelhos_xml (mkWorld None out)
  = (Ok [], mkWorld (Some documento_vazio) out)
  /\ documento_vazio
     = ("<?xml version='1.0' encoding='utf-8'?>" ++ String LF "<estoque />")%string
  /\ ET.parse documento_vazio = Ok (ET.mkElement "estoque" None None []).
Proof.
  split; [ reflexivity | ]. split; reflexivity.
Qed.

(** ** Further properties: saving and loading *)

(** X2.  Saving devices whose texts, empty or not, are UTF-8 texts of
    characters that XML allows, without carriage return, and loading:
    every record comes back in order with the same keys, each empty text
    read as [None] and every other value as it was saved. *)
Theorem round_trip_up_to_empty_texts devs w :
  floats_fieis -> Forall aparelho_simples devs ->
  exists w1,
    salvar_aparelhos_xml (map model_dump devs) w = (Ok tt, w1)
    /\ carregar_aparelhos_xml w1
       = (Ok (map (fun a => relido (model_dump a)) devs), w1)
    /\ forall a k v,
         In a devs ->
         getitem (model_dump a) k = Ok v ->
         getitem (relido (model_dump a)) k
         = Ok match v with
              | VStr EmptyString => VNone
              | _ => v
              end.
Proof.
  intros Hf Hd. eexists. split; [ reflexivity | ]. split.
  - unfold salvar_aparelhos_xml, write_file. cbn [snd].
    rewrite (carregar_documento_simples (map model_dump devs) (stdout w) Hf).
    + rewrite map_map. reflexivity.
    + apply Forall_map. eapply Forall_impl; [ | exact Hd ].
      exact model_dump_simples.
  - intros a k v Hin H. rewrite getitem_relido, H. f_equal.
    rewrite Forall_forall in Hd.
    destruct (Hd a Hin) as [ Hn [ Hm [ Hc Hdp ] ] ].
    destruct a as [ i n m p c d ].
    cbn [model_dump getitem id nome marca preco categoria deposito] in *.
    repeat match type of H with
           | (if ?b then _ else _) = _ => destruct b
           end;
      try discriminate H; injection H as <-;
      first [ reflexivity | apply relido_valor_plain; assumption ].
Qed.

(** X15.  The document that is saved, for texts that XML can carry.  For
    every list [l] of device dictionaries whose texts are [None] or UTF-8
    texts of characters that XML allows, the bytes that
    [salvar_aparelhos_xml l] puts in the file are a well-formed document:
    they parse to a tree whose root is [estoque]; it has one [aparelho]
    child per dictionary, in order; each child has exactly the six
    children [id], [nome], [marca], [preco], [categoria], [deposito], in
    this order; each of them is a leaf, and its text is the [str] of the
    value under that key as XML gives it back: no text for the empty
    string, and line ends normalised. *)
Theorem saved_document_parses_to_six_leaves_per_device (l : list dict) w :
  floats_fieis -> Forall registro_simples l ->
  exists content root,
    salvar_aparelhos_xml l w = (Ok tt, mkWorld (Some content) (stdout w))
    /\ ET.parse content = Ok root
    /\ ET.tag root = "estoque"%string
    /\ map ET.tag (ET.children root) = map (fun _ => "aparelho"%string) l
    /\ map (fun c => map ET.tag (ET.children c)) (ET.children root)
       = map (fun _ => campos) l
    /\ map (fun c => map ET.text (ET.children c)) (ET.children root)
       = map (fun ap =>
                map (fun kv => ET.reread_text (Some (str (snd kv)))) ap) l
    /\ Forall (fun c => Forall (fun f => ET.children f = []) (ET.children c))
         (ET.children root).
Proof.
  intros Hf Hl. exists (documento l), (ET.reread (arvore_escrita l)).
  split; [ reflexivity | ].
  split; [ exact (parse_documento_simples l Hf Hl) | ].
  destruct (arvore_escrita_registros l) as [ Ht Hc ].
  rewrite ETFacts.tag_reread, ETFacts.children_reread.
  split; [ exact Ht | ].
  set (cs := ET.children (arvore_escrita l)) in *.
  assert (P1 : map ET.tag cs = map fst (map registro_sem_cauda cs)).
  { rewrite map_map. reflexivity. }
  assert (P2 : map filhos_sem_cauda cs = map snd (map registro_sem_cauda cs)).
  { rewrite map_map. reflexivity. }
  rewrite Hc in P1, P2. rewrite map_map in P1, P2. cbn [fst snd] in P1, P2.
  split.
  { rewrite map_map. transitivity (map ET.tag cs); [ | exact P1 ].
    apply map_ext. intros c. apply ETFacts.tag_reread. }
  split.
  { rewrite map_map.
    transitivity (map (fun x => map (fun y => fst (fst y)) x)
                    (map filhos_sem_cauda cs)).
    - rewrite map_map. apply map_ext. intros c.
      rewrite ETFacts.children_reread. unfold filhos_sem_cauda.
      rewrite !map_map. apply map_ext. intros f. apply ETFacts.tag_reread.
    - rewrite P2, map_map. apply map_ext_in. intros ap Hap.
      rewrite Forall_forall in Hl.
      destruct (registro_simples_forma ap (Hl ap Hap)) as [ <- _ ].
      rewrite map_map. reflexivity. }
  split.
  { rewrite map_map.
    transitivity (map (fun x => map (fun y => ET.reread_text (snd (fst y))) x)
                    (map filhos_sem_cauda cs)).
    - rewrite map_map. apply map_ext. intros c.
      rewrite ETFacts.children_reread. unfold filhos_sem_cauda.
      rewrite !map_map. apply map_ext. intros f. apply ETFacts.text_reread.
    - rewrite P2, map_map. apply map_ext. intros ap.
      rewrite map_map. reflexivity. }
  assert (P3 : Forall (fun fs => Forall (fun y : string * option string * list ET.Element => snd y = []) fs)
                 (map filhos_sem_cauda cs)).
  { rewrite P2. apply Forall_map, Forall_forall. intros ap _.
    apply Forall_map, Forall_forall. intros kv _. reflexivity. }
  rewrite Forall_map in P3. apply Forall_map.
  eapply Forall_impl; [ | exact P3 ].
  intros c H. unfold filhos_sem_cauda in H. rewrite Forall_map in H.
  rewrite ETFacts.children_reread. apply Forall_map.
  eapply Forall_impl; [ | exact H ].
  intros f Hfc. rewrite ETFacts.children_reread. unfold sem_cauda in Hfc.
  cbn [snd] in Hfc. rewrite Hfc. reflexivity.
Qed.


(** X4.  Loading, saving what was loaded and loading again gives the same
    records, except that a [None] (the text of an empty element) has been
    written as the text [None], and that a carriage return (which a load
    returns when the file has it as a character reference) has been
    written as it is and is read as a line end; a record without [None]
    and without carriage return comes back unchanged. *)
Theorem load_save_load w l w1 :
  floats_fieis ->
  carregar_aparelhos_xml w = (Ok l, w1) ->
  exists w2,
    salvar_aparelhos_xml l w1 = (Ok tt, w2)
    /\ carregar_aparelhos_xml w2 = (Ok (map relido l), w2)
    /\ forall ap, In ap l ->
         (forall k, getitem ap k <> Ok VNone) ->
         (forall k s, getitem ap k = Ok (VStr s) ->
                      string_forallb (fun c => negb (Ascii.eqb c CR)) s = true) ->
         relido ap = ap.
Proof.
  intros Hf H. pose proof (carregar_lido _ _ _ H) as Hl.
  eexists. split; [ reflexivity | ]. split.
  - unfold salvar_aparelhos_xml, write_file. cbn [snd].
    exact (carregar_documento_simples l (stdout w1) Hf (Forall_simples_lidos l Hl)).
  - intros ap Hin Hn Hcr. rewrite Forall_forall in Hl.
    destruct (Hl ap Hin)
      as [ n [ tn [ tm [ x [ tc [ td [ Hcn [ Hcm [ Hcc [ Hcd -> ] ] ] ] ] ] ] ] ] ].
    assert (G : forall t,
               ET.clean t = true -> Ok (of_text t) <> Ok VNone ->
               (forall s, Ok (of_text t) = Ok (VStr s) ->
                          string_forallb (fun c => negb (Ascii.eqb c CR)) s
                          = true) ->
               relido_valor (of_text t) = of_text t).
    { intros [ [ | c s ] | ] Ht Hne Hs;
        [ discriminate Ht | | exfalso; apply Hne; reflexivity ].
      cbn [of_text relido_valor].
      rewrite (ETFacts.newlines_without_cr _ (Hs _ eq_refl)). reflexivity. }
    pose proof (Hn "nome"%string) as H1. pose proof (Hn "marca"%string) as H2.
    pose proof (Hn "categoria"%string) as H3.
    pose proof (Hn "deposito"%string) as H4.
    pose proof (Hcr "nome"%string) as K1. pose proof (Hcr "marca"%string) as K2.
    pose proof (Hcr "categoria"%string) as K3.
    pose proof (Hcr "deposito"%string) as K4.
    cbn [getitem String.eqb Ascii.eqb Bool.eqb] in H1, H2, H3, H4, K1, K2, K3, K4.
    cbn [relido map fst snd].
    rewrite (G tn Hcn H1 K1), (G tm Hcm H2 K2), (G tc Hcc H3 K3),
      (G td Hcd H4 K4).
    reflexivity.
Qed.

(** ** Further properties: the endpoints *)

(** X5.  Get.  When the stored collection loads as [l] and a record of [l]
    has the id [n], [buscar_aparelho n] answers with the first such record
    in document order and saves nothing. *)
Theorem get_returns_first_match w l w1 n :
  carregar_aparelhos_xml w = (Ok l, w1) ->
  presente n l ->
  exists l1 ap l2,
    l = l1 ++ ap :: l2 /\ ausente n l1 /\ com_id ap n = true
    /\ buscar_aparelho n w = (Ok ap, w1).
Proof.
  intros H Hp.
  destruct (primeira_ocorrencia _ _ Hp) as [ l1 [ ap [ l2 [ El [ Ha Ho ] ] ] ] ].
  exists l1, ap, l2. split; [ exact El | ]. split; [ exact Ha | ].
  split; [ exact Ho | ].
  rewrite (buscar_resultado _ _ _ n H), El, (find_primeira l1 ap l2 n Ha Ho).
  reflexivity.
Qed.

(** X6.  When the file exists and is not well-formed, a load gives the
    empty list with a warning, so that [adicionar_aparelho d] succeeds
    whatever [d]: it prints the warning and replaces the file by the
    document of the device [d] alone. *)
Theorem add_on_unreadable_file_replaces_it w content d :
  arquivo w = Some content ->
  ET.parse content = Raise ParseError ->
  adicionar_aparelho d w
  = (Ok (adicionado, d),
     mkWorld (Some (documento [model_dump d])) (stdout w ++ [aviso])).
Proof.
  intros Ha Hp. destruct w as [ a out ]. cbn [arquivo stdout] in *. subst a.
  assert (H : carregar_aparelhos_xml (mkWorld (Some content) out)
              = (Ok [], mkWorld (Some content) (out ++ [aviso]))).
  { unfold carregar_aparelhos_xml. cbn [arquivo]. rewrite Hp. reflexivity. }
  rewrite (adicionar_resultado _ _ _ d H). reflexivity.
Qed.

Lemma id_de_model_dump (a : Aparelho) : id_de (model_dump a) = Some (id a).
Proof. reflexivity. Qed.

Lemma id_de_setitem_deposito (ap : dict) v :
  id_de (setitem ap "deposito" v) = id_de ap.
Proof.
  unfold id_de. rewrite getitem_setitem_ne; [ reflexivity | discriminate ].
Qed.

Lemma forma_setitem_deposito (ap : dict) v :
  forma ap -> forma (setitem ap "deposito" v).
Proof.
  intros [ Hk [ n Hn ] ]. split.
  - rewrite keys_setitem; [ exact Hk | ]. rewrite Hk. simpl. tauto.
  - exists n. rewrite getitem_setitem_ne; [ exact Hn | discriminate ].
Qed.

Lemma presente_ou_ausente n (l : list dict) : presente n l \/ ausente n l.
Proof.
  destruct (existsb (fun a => com_id a n) l) eqn:E.
  - left. apply presente_existsb. exact E.
  - right. apply ausente_existsb. exact E.
Qed.

(** X7.  The invariants of the store.  When the stored collection loads as
    [l], whatever a mutating endpoint saves is again a list of dictionaries
    with the six keys in order and an [int] id, and if no two records of
    [l] share an id, no two records of the saved list do. *)
Theorem saves_keep_shape_and_distinct_ids w l w1 :
  carregar_aparelhos_xml w = (Ok l, w1) ->
  (forall d r w2,
      adicionar_aparelho d w = (Ok r, w2) ->
      exists l', guarda w2 l' /\ Forall forma l'
                 /\ (ids_distintos l -> ids_distintos l'))
  /\ (forall n novo r w2,
         atualizar_aparelho n novo w = (Ok r, w2) ->
         exists l', guarda w2 l' /\ Forall forma l'
                    /\ (ids_distintos l -> ids_distintos l'))
  /\ (forall n r w2,
         deletar_aparelho n w = (Ok r, w2) ->
         exists l', guarda w2 l' /\ Forall forma l'
                    /\ (ids_distintos l -> ids_distintos l'))
  /\ (forall n dep r w2,
         transferir_aparelho n dep w = (Ok r, w2) ->
         exists l', guarda w2 l' /\ Forall forma l'
                    /\ (ids_distintos l -> ids_distintos l')).
Proof.
  intros H. pose proof (carregar_forma _ _ _ H) as Hf.
  split; [ | split; [ | split ] ].
  - intros d r w2 Hop. rewrite (adicionar_resultado _ _ _ d H) in Hop.
    destruct (existsb _ l) eqn:E; [ discriminate Hop | ].
    injection Hop as _ <-. exists (l ++ [model_dump d]).
    split; [ reflexivity | ]. split.
    + apply Forall_app. split; [ exact Hf | ].
      constructor; [ apply model_dump_forma | constructor ].
    + unfold ids_distintos. intros Hd. rewrite map_app.
      apply NoDup_app; [ exact Hd | repeat constructor; intros [] | ].
      intros x Hx [ <- | [] ]. revert Hx.
      exact (ausente_ids l (id d) Hf (proj2 (ausente_existsb _ _) E)).
  - intros n novo r w2 Hop.
    destruct (presente_ou_ausente n l) as [ Hp | Ha ].
    + destruct (primeira_ocorrencia _ _ Hp) as [ l1 [ old [ l2 [ El [ Ha Ho ] ] ] ] ].
      subst l. rewrite (atualizar_presente _ _ _ _ _ n novo H Ha Ho) in Hop.
      destruct (Z.eqb_spec (id novo) n) as [ En | _ ]; [ | discriminate Hop ].
      cbn [negb] in Hop. injection Hop as _ <-.
      exists (l1 ++ model_dump novo :: l2). split; [ reflexivity | ].
      apply Forall_app in Hf. destruct Hf as [ Hf1 Hf2 ].
      split.
      * apply Forall_app. split; [ exact Hf1 | ].
        constructor; [ apply model_dump_forma | exact (Forall_inv_tail Hf2) ].
      * unfold ids_distintos. rewrite !map_app. cbn [map].
        rewrite id_de_model_dump, En.
        rewrite (proj2 (id_de_forma old n (Forall_inv Hf2)) Ho).
        exact (fun x => x).
    + rewrite (atualizar_ausente _ _ _ _ novo H Ha) in Hop. discriminate Hop.
  - intros n r w2 Hop. rewrite (deletar_resultado _ _ _ n H) in Hop.
    destruct (Nat.eqb _ _); [ discriminate Hop | ]. injection Hop as _ <-.
    exists (filter (fun ap => negb (com_id ap n)) l).
    split; [ reflexivity | ]. split; [ exact (Forall_filter _ _ _ Hf) | ].
    apply NoDup_map_filter.
  - intros n dep r w2 Hop.
    destruct (presente_ou_ausente n l) as [ Hp | Ha ].
    + destruct (primeira_ocorrencia _ _ Hp) as [ l1 [ old [ l2 [ El [ Ha Ho ] ] ] ] ].
      subst l. rewrite (transferir_presente _ _ _ _ _ n dep H Ha Ho) in Hop.
      injection Hop as _ <-.
      exists (l1 ++ setitem old "deposito" (VStr dep) :: l2).
      split; [ reflexivity | ].
      apply Forall_app in Hf. destruct Hf as [ Hf1 Hf2 ].
      split.
      * apply Forall_app. split; [ exact Hf1 | ].
        constructor; [ exact (forma_setitem_deposito _ _ (Forall_inv Hf2))
                     | exact (Forall_inv_tail Hf2) ].
      * unfold ids_distintos. rewrite !map_app. cbn [map].
        rewrite id_de_setitem_deposito. exact (fun x => x).
    + rewrite (transferir_ausente _ _ _ _ dep H Ha) in Hop. discriminate Hop.
Qed.

(** X8.  Remove, then look again.  After a successful
    [deletar_aparelho n] the file loads without any record of id [n]: a
    get and a second remove of [n] both raise the 404 exception and leave
    the file as it is. *)
Theorem delete_then_not_found w l w1 n :
  floats_fieis ->
  carregar_aparelhos_xml w = (Ok l, w1) ->
  presente n l ->
  exists w2,
    deletar_aparelho n w = (Ok (deletado n), w2)
    /\ buscar_aparelho n w2 = (Raise (nao_encontrado n), w2)
    /\ deletar_aparelho n w2 = (Raise (nao_encontrado n), w2).
Proof.
  intros Hf H Hp. eexists. split; [ exact (deletar_presente _ _ _ n H Hp) | ].
  set (l' := filter (fun ap => negb (com_id ap n)) l).
  assert (Hl' : carregar_aparelhos_xml (mkWorld (Some (documento l')) (stdout w1))
                = (Ok (map relido l'), mkWorld (Some (documento l')) (stdout w1))).
  { apply carregar_documento_simples; [ exact Hf | ].
    apply Forall_filter, Forall_simples_lidos. exact (carregar_lido _ _ _ H). }
  assert (Ha : ausente n (map relido l'))
    by (apply ausente_relido, ausente_filter).
  split.
  - exact (buscar_ausente _ _ _ _ Hl' Ha).
  - exact (deletar_ausente _ _ _ _ Hl' Ha).
Qed.

(** X9.  Add, then get and list.  When the stored collection loads as
    [l], and the device [d] has a new id and texts that are non-empty
    UTF-8 texts of characters that XML allows, without carriage return,
    after [adicionar_aparelho d] a get of its id answers with the
    dictionary of [d], and the stored collection is what [l] is read back
    as, followed by [d]. *)
Theorem add_then_get_and_list w l w1 d :
  floats_fieis ->
  carregar_aparelhos_xml w = (Ok l, w1) ->
  aparelho_fiel d ->
  ausente (id d) l ->
  exists w2,
    adicionar_aparelho d w = (Ok (adicionado, d), w2)
    /\ buscar_aparelho (id d) w2 = (Ok (model_dump d), w2)
    /\ listar_aparelhos w2 = (Ok (map relido l ++ [model_dump d]), w2).
Proof.
  intros Hf H Hd Ha. eexists. split.
  { rewrite (adicionar_resultado _ _ _ d H).
    rewrite (proj1 (ausente_existsb _ _) Ha). reflexivity. }
  assert (Hs : aparelho_simples d).
  { destruct Hd as [ [ _ ? ] [ [ _ ? ] [ [ _ ? ] [ _ ? ] ] ] ].
    repeat split; assumption. }
  assert (Hl' : carregar_aparelhos_xml
                  (mkWorld (Some (documento (l ++ [model_dump d]))) (stdout w1))
                = (Ok (map relido l ++ [model_dump d]),
                   mkWorld (Some (documento (l ++ [model_dump d]))) (stdout w1))).
  { rewrite (carregar_documento_simples (l ++ [model_dump d]) (stdout w1) Hf).
    - rewrite map_app. cbn [map]. rewrite (relido_fiel d Hd). reflexivity.
    - apply Forall_app. split.
      + exact (Forall_simples_lidos l (carregar_lido _ _ _ H)).
      + constructor; [ exact (model_dump_simples d Hs) | constructor ]. }
  split; [ | exact Hl' ].
  rewrite (buscar_resultado _ _ _ (id d) Hl').
  rewrite (find_primeira (map relido l) (model_dump d) [] (id d)).
  - reflexivity.
  - exact (ausente_relido _ _ Ha).
  - unfold com_id. cbn. apply Z.eqb_refl.
Qed.

(** X10.  Add twice.  When the device [d] has a new id and texts, empty
    or not, that are UTF-8 texts of characters that XML allows, without
    carriage return, after [adicionar_aparelho d] every further add of a
    device with the same id raises the 400 exception [id_ja_existe] and
    leaves the file as it is. *)
Theorem add_twice_is_rejected w l w1 d :
  floats_fieis ->
  carregar_aparelhos_xml w = (Ok l, w1) ->
  aparelho_simples d ->
  ausente (id d) l ->
  exists w2,
    adicionar_aparelho d w = (Ok (adicionado, d), w2)
    /\ forall d', id d' = id d ->
         adicionar_aparelho d' w2 = (Raise id_ja_existe, w2).
Proof.
  intros Hf H Hs Ha. eexists. split.
  { rewrite (adicionar_resultado _ _ _ d H).
    rewrite (proj1 (ausente_existsb _ _) Ha). reflexivity. }
  intros d' Hid.
  rewrite (adicionar_resultado _ _ _ d'
             (carregar_documento_simples (l ++ [model_dump d]) (stdout w1) Hf
                (proj2 (Forall_app _ _ _)
                   (conj (Forall_simples_lidos l (carregar_lido _ _ _ H))
                      (Forall_cons _ (model_dump_simples d Hs) (Forall_nil _)))))).
  rewrite Hid, map_app, existsb_app. cbn [map existsb].
  rewrite com_id_relido.
  replace (com_id (model_dump d) (id d)) with true
    by (unfold com_id; cbn; symmetry; apply Z.eqb_refl).
  rewrite orb_true_r. reflexivity.
Qed.

(** X11.  Transfer, then list and get.  When a record of the stored
    collection has the id [n] and [dep] is a non-empty UTF-8 text of
    characters that XML allows, without carriage return, after
    [transferir_aparelho n dep] the stored collection is what the old one
    is read back as, with the first record of id [n] changed at its
    place, and a get of [n] answers with that record: it has [dep] under
    ["deposito"], and under every other key what the unchanged record is
    read back as. *)
Theorem transfer_then_get w l w1 n dep :
  floats_fieis ->
  carregar_aparelhos_xml w = (Ok l, w1) ->
  texto_fiel dep ->
  presente n l ->
  exists l1 old l2 w2,
    l = l1 ++ old :: l2 /\ ausente n l1 /\ com_id old n = true
    /\ transferir_aparelho n dep w
       = (Ok (setitem old "deposito" (VStr dep)), w2)
    /\ listar_aparelhos w2
       = (Ok (map relido l1
              ++ relido (setitem old "deposito" (VStr dep)) :: map relido l2),
          w2)
    /\ buscar_aparelho n w2
       = (Ok (relido (setitem old "deposito" (VStr dep))), w2)
    /\ getitem (relido (setitem old "deposito" (VStr dep))) "deposito"
       = Ok (VStr dep)
    /\ forall k, k <> "deposito"%string ->
         getitem (relido (setitem old "deposito" (VStr dep))) k
         = getitem (relido old) k.
Proof.
  intros Hf H [ Hne Hpl ] Hp.
  destruct (primeira_ocorrencia _ _ Hp) as [ l1 [ old [ l2 [ El [ Ha Ho ] ] ] ] ].
  subst l. set (mudado := setitem old "deposito" (VStr dep)).
  exists l1, old, l2. eexists.
  split; [ reflexivity | ]. split; [ exact Ha | ].
  split; [ exact Ho | ].
  split; [ exact (transferir_presente _ _ _ _ _ n dep H Ha Ho) | ].
  pose proof (Forall_simples_lidos _ (carregar_lido _ _ _ H)) as Hs.
  apply Forall_app in Hs. destruct Hs as [ Hs1 Hs2 ].
  destruct (setitem_deposito_simples old dep (Forall_inv Hs2) Hpl) as [ Hm _ ].
  fold mudado in Hm |- *.
  assert (Hl' : carregar_aparelhos_xml
                  (mkWorld (Some (documento (l1 ++ mudado :: l2))) (stdout w1))
                = (Ok (map relido (l1 ++ mudado :: l2)),
                   mkWorld (Some (documento (l1 ++ mudado :: l2))) (stdout w1))).
  { apply carregar_documento_simples; [ exact Hf | ].
    apply Forall_app. split; [ exact Hs1 | ].
    constructor; [ exact Hm | exact (Forall_inv_tail Hs2) ]. }
  split.
  { unfold listar_aparelhos. rewrite Hl', map_app. reflexivity. }
  split.
  { rewrite (buscar_resultado _ _ _ n Hl'), map_app. cbn [map].
    rewrite (find_primeira (map relido l1) (relido mudado) (map relido l2) n).
    - reflexivity.
    - exact (ausente_relido _ _ Ha).
    - rewrite com_id_relido. unfold com_id, mudado.
      rewrite getitem_setitem_ne; [ exact Ho | discriminate ]. }
  split.
  { rewrite getitem_relido. unfold mudado. rewrite getitem_setitem_eq.
    rewrite (relido_valor_fiel dep (conj Hne Hpl)). reflexivity. }
  intros k Hk. rewrite !getitem_relido. unfold mudado.
  rewrite (getitem_setitem_ne old "deposito" (VStr dep) k Hk). reflexivity.
Qed.

(** X12.  Replace, then list and get.  When a record of the stored
    collection has the id [n] and the body has the id [n] and texts that
    are non-empty UTF-8 texts of characters that XML allows, without
    carriage return, after [atualizar_aparelho n novo] the stored
    collection is what the old one is read back as, with the dictionary
    of the body at the place of the first record of id [n], and a get of
    [n] answers with the dictionary of the body. *)
Theorem replace_then_get w l w1 n novo :
  floats_fieis ->
  carregar_aparelhos_xml w = (Ok l, w1) ->
  aparelho_fiel novo ->
  id novo = n ->
  presente n l ->
  exists l1 old l2 w2,
    l = l1 ++ old :: l2 /\ ausente n l1 /\ com_id old n = true
    /\ atualizar_aparelho n novo w = (Ok novo, w2)
    /\ listar_aparelhos w2
       = (Ok (map relido l1 ++ model_dump novo :: map relido l2), w2)
    /\ buscar_aparelho n w2 = (Ok (model_dump novo), w2).
Proof.
  intros Hf H Hd Hid Hp.
  destruct (primeira_ocorrencia _ _ Hp) as [ l1 [ old [ l2 [ El [ Ha Ho ] ] ] ] ].
  subst l. exists l1, old, l2. eexists.
  split; [ reflexivity | ]. split; [ exact Ha | ]. split; [ exact Ho | ].
  split.
  { rewrite (atualizar_presente _ _ _ _ _ n novo H Ha Ho).
    rewrite (proj2 (Z.eqb_eq _ _) Hid). reflexivity. }
  assert (Hs : aparelho_simples novo).
  { destruct Hd as [ [ _ ? ] [ [ _ ? ] [ [ _ ? ] [ _ ? ] ] ] ].
    repeat split; assumption. }
  pose proof (Forall_simples_lidos _ (carregar_lido _ _ _ H)) as Hl.
  apply Forall_app in Hl. destruct Hl as [ Hl1 Hl2 ].
  assert (Hl' : carregar_aparelhos_xml
                  (mkWorld (Some (documento (l1 ++ model_dump novo :: l2)))
                     (stdout w1))
                = (Ok (map relido (l1 ++ model_dump novo :: l2)),
                   mkWorld (Some (documento (l1 ++ model_dump novo :: l2)))
                     (stdout w1))).
  { apply carregar_documento_simples; [ exact Hf | ].
    apply Forall_app. split; [ exact Hl1 | ].
    constructor; [ exact (model_dump_simples novo Hs) | exact (Forall_inv_tail Hl2) ]. }
  split.
  { unfold listar_aparelhos. rewrite Hl', map_app. cbn [map].
    rewrite (relido_fiel novo Hd). reflexivity. }
  rewrite (buscar_resultado _ _ _ n Hl'), map_app. cbn [map].
  rewrite (relido_fiel novo Hd).
  rewrite (find_primeira (map relido l1) (model_dump novo) (map relido l2) n).
  - reflexivity.
  - exact (ausente_relido _ _ Ha).
  - unfold com_id. cbn. apply Z.eqb_eq. exact Hid.
Qed.

Lemma carregar_defeituoso w content root :
  arquivo w = Some content ->
  ET.parse content = Ok root ->
  Exists (fun elem => falta_campo elem \/ valor_inconvertivel elem)
    (ET.findall root "aparelho") ->
  exists e, carregar_aparelhos_xml w = (Raise e, w) /\ erro_de_registro e.
Proof.
  intros Ha Hp Hd.
  assert (Hd' : Exists (fun elem => exists e, ler_aparelho elem = Raise e)
                  (ET.findall root "aparelho")).
  { eapply Exists_impl; [ | exact Hd ]. exact registro_defeituoso. }
  destruct (ler_aparelhos_defeituoso _ Hd' []) as [ e He ].
  pose proof (ler_aparelhos_exn _ _ _ He) as Hk.
  exists e. split; [ | exact Hk ].
  unfold carregar_aparelhos_xml. rewrite Ha, Hp. cbn [res_bind]. rewrite He.
  destruct Hk as [ -> | [ -> | -> ] ]; reflexivity.
Qed.

(** X13.  One defective record stops the whole service.  When the file
    parses as well-formed XML and one of its records lacks a field or
    holds an id or a price that does not convert, each of the six
    endpoints raises the same [AttributeError], [TypeError] or
    [ValueError], whatever its arguments, and leaves the world as it
    was. *)
Theorem defective_record_fails_every_endpoint w content root :
  arquivo w = Some content ->
  ET.parse content = Ok root ->
  Exists (fun elem => falta_campo elem \/ valor_inconvertivel elem)
    (ET.findall root "aparelho") ->
  exists e,
    erro_de_registro e
    /\ listar_aparelhos w = (Raise e, w)
    /\ (forall d, adicionar_aparelho d w = (Raise e, w))
    /\ (forall n, buscar_aparelho n w = (Raise e, w))
    /\ (forall n novo, atualizar_aparelho n novo w = (Raise e, w))
    /\ (forall n, deletar_aparelho n w = (Raise e, w))
    /\ (forall n dep, transferir_aparelho n dep w = (Raise e, w)).
Proof.
  intros Ha Hp Hd.
  destruct (carregar_defeituoso w content root Ha Hp Hd) as [ e [ H He ] ].
  exists e. split; [ exact He | ]. split; [ exact H | ].
  split; [ intros d; exact (bind_raise _ _ _ _ _ H) | ].
  split; [ intros n; exact (bind_raise _ _ _ _ _ H) | ].
  split; [ intros n novo; exact (bind_raise _ _ _ _ _ H) | ].
  split; [ intros n; exact (bind_raise _ _ _ _ _ H) | ].
  intros n dep; exact (bind_raise _ _ _ _ _ H).
Qed.

(** X14.  Errors come before the save.  Whenever one of the five endpoints
    that look for an id raises, the world is the one the load left
    (nothing has been saved), and the exception is the one the load
    raised (for a defective record, or for a file outside the modelled
    fragment of XML) or an HTTP exception of the endpoint: 400
    [id_ja_existe] for add, 404 [nao_encontrado] for get, remove and
    transfer, one of 404 [nao_encontrado] and 400 [id_diferente] for
    replace. *)
Theorem endpoints_raise_before_saving w e w' :
  let carga := erro_de_registro e \/ e = Unmodelled in
  (forall d,
      adicionar_aparelho d w = (Raise e, w') ->
      w' = snd (carregar_aparelhos_xml w) /\ (e = id_ja_existe \/ carga))
  /\ (forall n,
         buscar_aparelho n w = (Raise e, w') ->
         w' = snd (carregar_aparelhos_xml w) /\ (e = nao_encontrado n \/ carga))
  /\ (forall n novo,
         atualizar_aparelho n novo w = (Raise e, w') ->
         w' = snd (carregar_aparelhos_xml w)
         /\ (e = nao_encontrado n \/ e = id_diferente \/ carga))
  /\ (forall n,
         deletar_aparelho n w = (Raise e, w') ->
         w' = snd (carregar_aparelhos_xml w) /\ (e = nao_encontrado n \/ carga))
  /\ (forall n dep,
         transferir_aparelho n dep w = (Raise e, w') ->
         w' = snd (carregar_aparelhos_xml w) /\ (e = nao_encontrado n \/ carga)).
Proof.
  intros carga. subst carga.
  destruct (carregar_aparelhos_xml w) as [ [ l | e0 ] w1 ] eqn:H; cbn [snd].
  - split; [ | split; [ | split; [ | split ] ] ].
    + intros d Hop. rewrite (adicionar_resultado _ _ _ d H) in Hop.
      destruct (existsb _ l); [ | discriminate Hop ].
      injection Hop as <- <-. split; [ reflexivity | left; reflexivity ].
    + intros n Hop. rewrite (buscar_resultado _ _ _ n H) in Hop.
      destruct (List.find _ l); [ discriminate Hop | ].
      injection Hop as <- <-. split; [ reflexivity | left; reflexivity ].
    + intros n novo Hop.
      destruct (presente_ou_ausente n l) as [ Hp | Ha ].
      * destruct (primeira_ocorrencia _ _ Hp)
          as [ l1 [ old [ l2 [ El [ Ha Ho ] ] ] ] ].
        subst l. rewrite (atualizar_presente _ _ _ _ _ n novo H Ha Ho) in Hop.
        destruct (negb (Z.eqb (id novo) n)); [ | discriminate Hop ].
        injection Hop as <- <-.
        split; [ reflexivity | right; left; reflexivity ].
      * rewrite (atualizar_ausente _ _ _ _ novo H Ha) in Hop.
        injection Hop as <- <-. split; [ reflexivity | left; reflexivity ].
    + intros n Hop. rewrite (deletar_resultado _ _ _ n H) in Hop.
      destruct (Nat.eqb _ _); [ | discriminate Hop ].
      injection Hop as <- <-. split; [ reflexivity | left; reflexivity ].
    + intros n dep Hop.
      destruct (presente_ou_ausente n l) as [ Hp | Ha ].
      * destruct (primeira_ocorrencia _ _ Hp)
          as [ l1 [ old [ l2 [ El [ Ha Ho ] ] ] ] ].
        subst l. rewrite (transferir_presente _ _ _ _ _ n dep H Ha Ho) in Hop.
        discriminate Hop.
      * rewrite (transferir_ausente _ _ _ _ dep H Ha) in Hop.
        injection Hop as <- <-. split; [ reflexivity | left; reflexivity ].
  - destruct (carregar_exn _ _ _ H) as [ _ Hk ].
    assert (G : forall A (k : list dict -> M A),
               bind carregar_aparelhos_xml k w = (Raise e, w') ->
               w' = w1 /\ (erro_de_registro e \/ e = Unmodelled)).
    { intros A k Hop. rewrite (bind_raise _ _ _ _ _ H) in Hop.
      injection Hop as <- <-. split; [ reflexivity | exact Hk ]. }
    split; [ | split; [ | split; [ | split ] ] ].
    + intros d Hop. destruct (G _ _ Hop) as [ -> Hc ].
      split; [ reflexivity | right; exact Hc ].
    + intros n Hop. destruct (G _ _ Hop) as [ -> Hc ].
      split; [ reflexivity | right; exact Hc ].
    + intros n novo Hop. destruct (G _ _ Hop) as [ -> Hc ].
      split; [ reflexivity | right; right; exact Hc ].
    + intros n Hop. destruct (G _ _ Hop) as [ -> Hc ].
      split; [ reflexivity | right; exact Hc ].
    + intros n dep Hop. destruct (G _ _ Hop) as [ -> Hc ].
      split; [ reflexivity | right; exact Hc ].
Qed.

End Propriedades.

(** * The properties on the examples *)

Module Casos.

Import Exemplos.

#[local] Existing Instance integral_floats.

Local Open Scope list_scope.

(** The instance satisfies what is asked of the text form of floats. *)
Lemma integral_floats_fieis : floats_fieis.
Proof.
  intros n. cbn [str_float float_of_str integral_floats]. unfold str_integral.
  destruct (str_int_ends n) as [ c [ r [ c' [ r' [ E [ Hc [ E' Hc' ] ] ] ] ] ] ].
  assert (Hrev : string_rev (str_int n ++ ".0")
                 = String "0" (String "." (string_rev (str_int n)))).
  { rewrite string_rev_app. reflexivity. }
  split.
  - unfold integral_of_str.
    assert (Hs : strip_by c_isspace (str_int n ++ ".0")
                 = (str_int n ++ ".0")%string).
    { rewrite E in Hrev |- *. cbn [String.append] in Hrev |- *.
      exact (strip_clean c_isspace c _ "0" _ Hc Hrev eq_refl). }
    rewrite Hs, Hrev. cbn [Ascii.eqb Bool.eqb andb].
    rewrite string_rev_involutive, int_of_signed_str_int. reflexivity.
  - destruct (texto_fiel_str_int n) as [ Hn Hp ]. split.
    + rewrite E. discriminate.
    + apply ETFacts.plain_text_app; [ exact Hp | reflexivity ].
Qed.

Lemma round_trip_of_faithful_devices_witness :
  carregar_aparelhos_xml (mkWorld (Some (documento guardados)) [])
  = (Ok guardados, mkWorld (Some (documento guardados)) []).
Proof.
  destruct (@round_trip_of_faithful_devices Z integral_floats
              [telefone; radio] (mkWorld None []) integral_floats_fieis)
    as [ w1 [ Hs [ _ Hl ] ] ].
  - repeat constructor; discriminate.
  - injection Hs as <-. exact Hl.
Defined.

Lemma carregar_mundo : carregar_aparelhos_xml mundo = (Ok guardados, mundo).
Proof. vm_compute. reflexivity. Defined.

Lemma ausente_3 : ausente 3 guardados.
Proof. intros ap [ <- | [ <- | [] ] ]; reflexivity. Defined.

Lemma presente_1 : presente 1 guardados.
Proof. exists (model_dump telefone). split; [ left; reflexivity | reflexivity ]. Defined.

Lemma not_found_leaves_store_witness :
  carregar_aparelhos_xml mundo = (Ok guardados, mundo)
  /\ buscar_aparelho 3 mundo = (Raise (nao_encontrado 3), mundo)
  /\ deletar_aparelho 3 mundo = (Raise (nao_encontrado 3), mundo).
Proof.
  pose proof (@not_found_leaves_store Z integral_floats mundo guardados mundo 3
                carregar_mundo ausente_3) as [ [ Hb [ _ [ Hd _ ] ] ] _ ].
  split; [ exact carregar_mundo | ]. split; [ exact Hb | exact Hd ].
Defined.

Lemma add_rejects_duplicate_or_appends_witness :
  adicionar_aparelho telefone mundo = (Raise id_ja_existe, mundo)
  /\ exists w2,
       adicionar_aparelho tablet mundo = (Ok (adicionado, tablet), w2)
       /\ guarda w2 (guardados ++ [model_dump tablet]).
Proof.
  split.
  - destruct (@add_rejects_duplicate_or_appends Z integral_floats mundo guardados
                mundo telefone carregar_mundo) as [ Hdup _ ].
    exact (proj1 (Hdup presente_1)).
  - destruct (@add_rejects_duplicate_or_appends Z integral_floats mundo guardados
                mundo tablet carregar_mundo) as [ _ Hnew ].
    destruct (Hnew ausente_3) as [ w2 [ Ha [ Hg _ ] ] ].
    exists w2. split; [ exact Ha | exact Hg ].
Defined.

Lemma replace_checks_id_then_replaces_in_place_witness :
  atualizar_aparelho 1 tablet mundo = (Raise id_diferente, mundo)
  /\ exists l1 old l2 w2,
       guardados = l1 ++ old :: l2
       /\ atualizar_aparelho 1 telefone_novo mundo = (Ok telefone_novo, w2)
       /\ guarda w2 (l1 ++ model_dump telefone_novo :: l2).
Proof.
  destruct (@replace_checks_id_then_replaces_in_place Z integral_floats mundo
              guardados mundo 1 tablet carregar_mundo presente_1) as [ Hne _ ].
  destruct (@replace_checks_id_then_replaces_in_place Z integral_floats mundo
              guardados mundo 1 telefone_novo carregar_mundo presente_1)
    as [ _ Heq ].
  split.
  - apply Hne. discriminate.
  - destruct (Heq eq_refl) as [ l1 [ old [ l2 [ w2 [ El [ _ [ _ [ Hr [ Hg _ ] ] ] ] ] ] ] ] ].
    exists l1, old, l2, w2. split; [ exact El | ]. split; [ exact Hr | exact Hg ].
Defined.

Lemma transfer_changes_only_the_location_witness :
  exists l1 old l2 w2,
    guardados = l1 ++ old :: l2
    /\ transferir_aparelho 1 "WH2" mundo
       = (Ok (setitem old "deposito" (VStr "WH2")), w2)
    /\ guarda w2 (l1 ++ setitem old "deposito" (VStr "WH2") :: l2).
Proof.
  destruct (@transfer_changes_only_the_location Z integral_floats mundo guardados
              mundo 1 "WH2" carregar_mundo presente_1)
    as [ l1 [ old [ l2 [ w2 [ El [ _ [ _ [ Ht [ Hg _ ] ] ] ] ] ] ] ] ].
  exists l1, old, l2, w2. split; [ exact El | ]. split; [ exact Ht | exact Hg ].
Defined.

Lemma replace_reports_not_found_before_id_mismatch_witness :
  atualizar_aparelho 3 telefone mundo = (Raise (nao_encontrado 3), mundo).
Proof.
  refine (proj1 (@replace_reports_not_found_before_id_mismatch Z integral_floats
                   mundo guardados mundo 3 telefone carregar_mundo ausente_3 _)).
  discriminate.
Defined.

Lemma carregar_mundo_repetido :
  carregar_aparelhos_xml mundo_repetido = (Ok repetidos, mundo_repetido).
Proof. vm_compute. reflexivity. Defined.

Lemma remove_excludes_every_match_witness :
  exists w2,
    deletar_aparelho 1 mundo_repetido = (Ok (deletado 1), w2)
    /\ guarda w2 [model_dump radio].
Proof.
  destruct (@remove_excludes_every_match Z integral_floats mundo_repetido
              repetidos mundo_repetido 1 carregar_mundo_repetido)
    as [ w2 [ Hd [ Hg _ ] ] ].
  - exists (model_dump telefone). split; [ left; reflexivity | reflexivity ].
  - exists w2. split; [ exact Hd | exact Hg ].
Defined.

(** C5, as stated, fails.  In a file where the records 1, 2 and 1 follow
    each other, first-match removal of the id 1 would keep the records 2
    and 1; [deletar_aparelho 1] succeeds and leaves the document of the
    record 2 alone. *)
Lemma remove_is_not_first_match :
  carregar_aparelhos_xml mundo_repetido = (Ok repetidos, mundo_repetido)
  /\ remover_primeiro 1 repetidos = [model_dump radio; model_dump copia]
  /\ deletar_aparelho 1 mundo_repetido
     = (Ok (deletado 1), mkWorld (Some (documento [model_dump radio])) [])
  /\ documento [model_dump radio] <> documento (remover_primeiro 1 repetidos).
Proof.
  split; [ exact carregar_mundo_repetido | ].
  split; [ reflexivity | ].
  split; [ vm_compute; reflexivity | ].
  vm_compute. discriminate.
Qed.

(** C4, as stated, fails.  Both documents are well-formed; the record of
    the first has no [deposito] child, the price of the second is not a
    number.  [carregar_aparelhos_xml] does not return the empty list: an
    [AttributeError], respectively a [ValueError], leaves it. *)
Lemma load_fails_on_defective_record :
  (exists root, ET.parse sem_deposito = Ok root)
  /\ carregar_aparelhos_xml (mkWorld (Some sem_deposito) [])
     = (Raise AttributeError, mkWorld (Some sem_deposito) [])
  /\ (exists root, ET.parse preco_invalido = Ok root)
  /\ carregar_aparelhos_xml (mkWorld (Some preco_invalido) [])
     = (Raise ValueError, mkWorld (Some preco_invalido) []).
Proof.
  split; [ eexists; vm_compute; reflexivity | ].
  split; [ vm_compute; reflexivity | ].
  split; [ eexists; vm_compute; reflexivity | ].
  vm_compute; reflexivity.
Qed.

Lemma load_propagates_record_errors_witness :
  exists e,
    carregar_aparelhos_xml (mkWorld (Some sem_deposito) [])
    = (Raise e, mkWorld (Some sem_deposito) [])
    /\ erro_de_registro e /\ e <> ParseError.
Proof.
  apply (@load_propagates_record_errors Z integral_floats
           (mkWorld (Some sem_deposito) []) sem_deposito raiz_sem_deposito).
  - reflexivity.
  - vm_compute. reflexivity.
  - apply Exists_cons_hd. left. exists "deposito"%string.
    split; [ simpl; tauto | reflexivity ].
Defined.

Lemma saved_document_has_six_leaves_per_device_witness :
  exists T,
    salvar_aparelhos_xml guardados (mkWorld None [])
    = (Ok tt, mkWorld (Some (ET.write T)) [])
    /\ map (fun c => map ET.tag (ET.children c)) (ET.children T)
       = [campos; campos].
Proof.
  destruct (@saved_document_has_six_leaves_per_device Z integral_floats
              guardados (mkWorld None [])) as [ T [ Hs [ _ [ _ [ Hn _ ] ] ] ] ].
  - repeat constructor.
  - exists T. split; [ exact Hs | exact Hn ].
Defined.

(** C1 fails on a device with an empty text field.  [sem_categoria] has the
    category [""]; it is written as an empty element, and the load reads
    the text of that element as [None]: the list loaded is not the list
    saved. *)
Theorem round_trip_loses_empty_text :
  exists w1,
    salvar_aparelhos_xml [model_dump sem_categoria] (mkWorld None []) = (Ok tt, w1)
    /\ carregar_aparelhos_xml w1
       = (Ok [setitem (model_dump sem_categoria) "categoria" VNone], w1)
    /\ getitem (model_dump sem_categoria) "categoria" = Ok (VStr "")
    /\ [setitem (model_dump sem_categoria) "categoria" VNone]
       <> [model_dump sem_categoria].
Proof.
  eexists. split; [ reflexivity | ].
  split; [ vm_compute; reflexivity | ].
  split; [ reflexivity | ].
  discriminate.
Qed.

(** The round trip also fails on a text with a character that XML does not
    allow: the document written is not well-formed, and the load returns
    the empty list with a warning. *)
Lemma round_trip_loses_store_on_control_character :
  exists w1,
    salvar_aparelhos_xml [model_dump nome_com_controle] (mkWorld None [])
    = (Ok tt, w1)
    /\ carregar_aparelhos_xml w1
       = (Ok [], mkWorld (arquivo w1) [aviso]).
Proof.
  eexists. split; [ reflexivity | ]. vm_compute. reflexivity.
Qed.

(** C3 fails on a store in which a record has an empty text.  The service
    starts without a file; [sem_categoria], whose category is [""], is
    added, and the store then loads as one record whose category is
    [None].  Adding [radio], whose id is new, succeeds; but the store does
    not become the old collection with [radio] appended: the [None] of the
    old record was written as the text [None], and the old record now has
    that text as its category. *)
Theorem add_rewrites_the_records_it_keeps :
  exists w1 w2,
    adicionar_aparelho sem_categoria (mkWorld None [])
    = (Ok (adicionado, sem_categoria), w1)
    /\ carregar_aparelhos_xml w1 = (Ok [lido_sem_categoria], w1)
    /\ ausente (id radio) [lido_sem_categoria]
    /\ adicionar_aparelho radio w1 = (Ok (adicionado, radio), w2)
    /\ carregar_aparelhos_xml w2 = (Ok [lido_None; model_dump radio], w2)
    /\ getitem lido_sem_categoria "categoria" = Ok VNone
    /\ getitem lido_None "categoria" = Ok (VStr "None")
    /\ [lido_None; model_dump radio]
       <> [lido_sem_categoria] ++ [model_dump radio].
Proof.
  do 2 eexists.
  split; [ vm_compute; reflexivity | ].
  split; [ vm_compute; reflexivity | ].
  split; [ intros ap [ <- | [] ]; reflexivity | ].
  split; [ vm_compute; reflexivity | ].
  split; [ vm_compute; reflexivity | ].
  split; [ reflexivity | ]. split; [ reflexivity | ].
  discriminate.
Qed.

(** C6 fails on a body with a character that XML does not allow.  The
    store holds the phone and the radio; the body [nome_com_controle] has
    the id 1 of the phone and a name with the control character of code 1.
    The replacement succeeds and answers with the body; but the bytes it
    leaves are not well-formed, and the store then loads as the empty
    collection with a warning: the record was not replaced in place, every
    record was lost. *)
Theorem replace_can_empty_the_store :
  exists w2 content,
    carregar_aparelhos_xml mundo = (Ok guardados, mundo)
    /\ presente 1 guardados
    /\ id nome_com_controle = 1
    /\ atualizar_aparelho 1 nome_com_controle mundo
       = (Ok nome_com_controle, w2)
    /\ arquivo w2 = Some content
    /\ ET.parse content = Raise ParseError
    /\ carregar_aparelhos_xml w2 = (Ok [], mkWorld (Some content) [aviso])
    /\ [] <> [model_dump nome_com_controle; model_dump radio].
Proof.
  do 2 eexists.
  split; [ vm_compute; reflexivity | ].
  split; [ exists (model_dump telefone); split; [ left | ]; reflexivity | ].
  split; [ reflexivity | ].
  split; [ vm_compute; reflexivity | ].
  split; [ reflexivity | ].
  split; [ vm_compute; reflexivity | ].
  split; [ vm_compute; reflexivity | ].
  discriminate.
Qed.

(** C7 fails on a store in which another record has an empty text.  The
    service starts without a file; [radio] and then [sem_categoria] are
    added, and the store loads as the radio followed by a record whose
    category is [None].  Transferring the radio succeeds; but the other
    record does not stay as it was: its [None] was written as the text
    [None], which is its category from then on. *)
Theorem transfer_rewrites_the_other_records :
  exists w1 w2 w3,
    adicionar_aparelho radio (mkWorld None []) = (Ok (adicionado, radio), w1)
    /\ adicionar_aparelho sem_categoria w1
       = (Ok (adicionado, sem_categoria), w2)
    /\ carregar_aparelhos_xml w2
       = (Ok [model_dump radio; lido_sem_categoria], w2)
    /\ transferir_aparelho 2 "WH9" w2 = (Ok radio_transferido, w3)
    /\ carregar_aparelhos_xml w3 = (Ok [radio_transferido; lido_None], w3)
    /\ getitem lido_sem_categoria "categoria" = Ok VNone
    /\ getitem lido_None "categoria" = Ok (VStr "None")
    /\ lido_None <> lido_sem_categoria.
Proof.
  do 3 eexists.
  split; [ vm_compute; reflexivity | ].
  split; [ vm_compute; reflexivity | ].
  split; [ vm_compute; reflexivity | ].
  split; [ vm_compute; reflexivity | ].
  split; [ vm_compute; reflexivity | ].
  split; [ reflexivity | ]. split; [ reflexivity | ].
  discriminate.
Qed.

(** C9 fails on a device with a character that XML does not allow.  The
    bytes written for [nome_com_controle], whose name holds the control
    character of code 1, carry that character as it is: they are not a
    well-formed document, and so have no root, no child and no leaf. *)
Theorem saved_document_may_not_be_well_formed :
  exists content,
    salvar_aparelhos_xml [model_dump nome_com_controle] (mkWorld None [])
    = (Ok tt, mkWorld (Some content) [])
    /\ content = documento [model_dump nome_com_controle]
    /\ ET.parse content = Raise ParseError.
Proof.
  eexists. split; [ reflexivity | ]. split; [ reflexivity | ].
  vm_compute. reflexivity.
Qed.

(** ** The further properties on the examples *)

Lemma tablet_fiel : aparelho_fiel tablet.
Proof. repeat split; try discriminate; reflexivity. Defined.

Lemma telefone_novo_fiel : aparelho_fiel telefone_novo.
Proof. repeat split; try discriminate; reflexivity. Defined.

Lemma guardados_distintos : ids_distintos guardados.
Proof.
  unfold ids_distintos. cbn [guardados map].
  repeat constructor; simpl; intuition discriminate.
Defined.

Lemma round_trip_up_to_empty_texts_witness :
  exists w1,
    salvar_aparelhos_xml [model_dump sem_categoria] (mkWorld None []) = (Ok tt, w1)
    /\ carregar_aparelhos_xml w1 = (Ok [relido (model_dump sem_categoria)], w1)
    /\ getitem (relido (model_dump sem_categoria)) "categoria" = Ok VNone.
Proof.
  destruct (@round_trip_up_to_empty_texts Z integral_floats [sem_categoria]
              (mkWorld None []) integral_floats_fieis)
    as [ w1 [ Hs [ Hl Hk ] ] ].
  - repeat constructor.
  - exists w1. split; [ exact Hs | ]. split; [ exact Hl | ].
    exact (Hk sem_categoria "categoria"%string (VStr "")
             (or_introl eq_refl) eq_refl).
Defined.


Lemma carregar_mundo_com_referencia :
  carregar_aparelhos_xml mundo_com_referencia
  = (Ok [lido_com_retorno], mundo_com_referencia).
Proof. vm_compute. reflexivity. Defined.

Lemma load_save_load_witness :
  exists w2,
    carregar_aparelhos_xml mundo_com_referencia
    = (Ok [lido_com_retorno], mundo_com_referencia)
    /\ salvar_aparelhos_xml [lido_com_retorno] mundo_com_referencia
       = (Ok tt, w2)
    /\ carregar_aparelhos_xml w2 = (Ok [relido lido_com_retorno], w2)
    /\ getitem lido_com_retorno "nome" = Ok (VStr (String "a" (String CR "b")))
    /\ getitem (relido lido_com_retorno) "nome"
       = Ok (VStr (String "a" (String LF "b")))
    /\ getitem lido_com_retorno "categoria" = Ok VNone
    /\ getitem (relido lido_com_retorno) "categoria" = Ok (VStr "None").
Proof.
  destruct (@load_save_load Z integral_floats mundo_com_referencia
              [lido_com_retorno] mundo_com_referencia
              integral_floats_fieis carregar_mundo_com_referencia)
    as [ w2 [ Hs [ Hl _ ] ] ].
  exists w2. split; [ exact carregar_mundo_com_referencia | ].
  split; [ exact Hs | ]. split; [ exact Hl | ].
  repeat split.
Defined.

Lemma guardados_simples : Forall registro_simples guardados.
Proof.
  repeat constructor; apply model_dump_simples; repeat split.
Defined.

Lemma saved_document_parses_to_six_leaves_per_device_witness :
  exists content root,
    salvar_aparelhos_xml guardados (mkWorld None [])
    = (Ok tt, mkWorld (Some content) [])
    /\ ET.parse content = Ok root
    /\ map (fun c => map ET.tag (ET.children c)) (ET.children root)
       = [campos; campos].
Proof.
  destruct (@saved_document_parses_to_six_leaves_per_device Z integral_floats
              guardados (mkWorld None []) integral_floats_fieis
              guardados_simples)
    as [ content [ root [ Hs [ Hp [ _ [ _ [ Hn _ ] ] ] ] ] ] ].
  exists content, root. split; [ exact Hs | ]. split; [ exact Hp | exact Hn ].
Defined.

Lemma get_returns_first_match_witness :
  exists l1 ap l2,
    guardados = l1 ++ ap :: l2
    /\ buscar_aparelho 1 mundo = (Ok ap, mundo).
Proof.
  destruct (@get_returns_first_match Z integral_floats mundo guardados mundo 1
              carregar_mundo presente_1)
    as [ l1 [ ap [ l2 [ El [ _ [ _ Hb ] ] ] ] ] ].
  exists l1, ap, l2. split; [ exact El | exact Hb ].
Defined.

Lemma add_on_unreadable_file_replaces_it_witness :
  adicionar_aparelho tablet mundo_ilegivel
  = (Ok (adicionado, tablet),
     mkWorld (Some (documento [model_dump tablet])) [aviso]).
Proof.
  apply (@add_on_unreadable_file_replaces_it Z integral_floats mundo_ilegivel
           "<estoque><aparelho>" tablet).
  - reflexivity.
  - vm_compute. reflexivity.
Defined.

Lemma saves_keep_shape_and_distinct_ids_witness :
  exists w2 l',
    deletar_aparelho 1 mundo = (Ok (deletado 1), w2)
    /\ guarda w2 l' /\ Forall forma l' /\ ids_distintos l'.
Proof.
  destruct (@saves_keep_shape_and_distinct_ids Z integral_floats mundo guardados
              mundo carregar_mundo) as [ _ [ _ [ Hdel _ ] ] ].
  assert (Hd : deletar_aparelho 1 mundo
               = (Ok (deletado 1),
                  mkWorld (Some (documento [model_dump radio])) []))
    by (vm_compute; reflexivity).
  destruct (Hdel 1 _ _ Hd) as [ l' [ Hg [ Hf Hi ] ] ].
  eexists. exists l'. split; [ exact Hd | ]. split; [ exact Hg | ].
  split; [ exact Hf | exact (Hi guardados_distintos) ].
Defined.

Lemma delete_then_not_found_witness :
  exists w2,
    deletar_aparelho 1 mundo = (Ok (deletado 1), w2)
    /\ buscar_aparelho 1 w2 = (Raise (nao_encontrado 1), w2)
    /\ deletar_aparelho 1 w2 = (Raise (nao_encontrado 1), w2).
Proof.
  exact (@delete_then_not_found Z integral_floats mundo guardados mundo 1
           integral_floats_fieis carregar_mundo presente_1).
Defined.

Lemma add_then_get_and_list_witness :
  exists w2,
    adicionar_aparelho tablet mundo = (Ok (adicionado, tablet), w2)
    /\ buscar_aparelho 3 w2 = (Ok (model_dump tablet), w2)
    /\ listar_aparelhos w2 = (Ok (map relido guardados ++ [model_dump tablet]), w2).
Proof.
  exact (@add_then_get_and_list Z integral_floats mundo guardados mundo tablet
           integral_floats_fieis carregar_mundo tablet_fiel ausente_3).
Defined.

Lemma add_twice_is_rejected_witness :
  exists w2,
    adicionar_aparelho tablet mundo = (Ok (adicionado, tablet), w2)
    /\ adicionar_aparelho tablet w2 = (Raise id_ja_existe, w2).
Proof.
  destruct (@add_twice_is_rejected Z integral_floats mundo guardados mundo tablet
              integral_floats_fieis carregar_mundo) as [ w2 [ Ha Hb ] ].
  - repeat split.
  - exact ausente_3.
  - exists w2. split; [ exact Ha | exact (Hb tablet eq_refl) ].
Defined.

Lemma transfer_then_get_witness :
  exists l1 old l2 w2,
    guardados = l1 ++ old :: l2
    /\ transferir_aparelho 1 "WH2" mundo
       = (Ok (setitem old "deposito" (VStr "WH2")), w2)
    /\ listar_aparelhos w2
       = (Ok (map relido l1
              ++ relido (setitem old "deposito" (VStr "WH2")) :: map relido l2),
          w2)
    /\ getitem (relido (setitem old "deposito" (VStr "WH2"))) "deposito"
       = Ok (VStr "WH2").
Proof.
  destruct (@transfer_then_get Z integral_floats mundo guardados mundo 1 "WH2"
              integral_floats_fieis carregar_mundo)
    as [ l1 [ old [ l2 [ w2 [ El [ _ [ _ [ Ht [ Hl [ _ [ Hd _ ] ] ] ] ] ] ] ] ] ] ].
  - split; [ discriminate | reflexivity ].
  - exact presente_1.
  - exists l1, old, l2, w2. split; [ exact El | ]. split; [ exact Ht | ].
    split; [ exact Hl | exact Hd ].
Defined.

Lemma replace_then_get_witness :
  exists l1 old l2 w2,
    guardados = l1 ++ old :: l2
    /\ atualizar_aparelho 1 telefone_novo mundo = (Ok telefone_novo, w2)
    /\ listar_aparelhos w2
       = (Ok (map relido l1 ++ model_dump telefone_novo :: map relido l2), w2)
    /\ buscar_aparelho 1 w2 = (Ok (model_dump telefone_novo), w2).
Proof.
  destruct (@replace_then_get Z integral_floats mundo guardados mundo 1
              telefone_novo integral_floats_fieis carregar_mundo
              telefone_novo_fiel eq_refl presente_1)
    as [ l1 [ old [ l2 [ w2 [ El [ _ [ _ [ Ha [ Hl Hb ] ] ] ] ] ] ] ] ].
  exists l1, old, l2, w2. split; [ exact El | ]. split; [ exact Ha | ].
  split; [ exact Hl | exact Hb ].
Defined.

Lemma defective_record_fails_every_endpoint_witness :
  exists e,
    erro_de_registro e
    /\ listar_aparelhos (mkWorld (Some sem_deposito) [])
       = (Raise e, mkWorld (Some sem_deposito) [])
    /\ buscar_aparelho 1 (mkWorld (Some sem_deposito) [])
       = (Raise e, mkWorld (Some sem_deposito) []).
Proof.
  destruct (@defective_record_fails_every_endpoint Z integral_floats
              (mkWorld (Some sem_deposito) []) sem_deposito raiz_sem_deposito)
    as [ e [ He [ Hl [ _ [ Hb _ ] ] ] ] ].
  - reflexivity.
  - vm_compute. reflexivity.
  - apply Exists_cons_hd. left. exists "deposito"%string.
    split; [ simpl; tauto | reflexivity ].
  - exists e. split; [ exact He | ]. split; [ exact Hl | exact (Hb 1) ].
Defined.

Lemma endpoints_raise_before_saving_witness :
  buscar_aparelho 3 mundo = (Raise (nao_encontrado 3), mundo)
  /\ mundo = snd (carregar_aparelhos_xml mundo).
Proof.
  assert (Hb : buscar_aparelho 3 mundo = (Raise (nao_encontrado 3), mundo))
    by (vm_compute; reflexivity).
  destruct (@endpoints_raise_before_saving Z integral_floats mundo
              (nao_encontrado 3) mundo) as [ _ [ Hbus _ ] ].
  split; [ exact Hb | exact (proj1 (Hbus 3 Hb)) ].
Defined.

End Casos.
